(** * The swap coordinator of xud ([lib/swaps/Swaps.ts])

    A shallow embedding of the deal state machine, the deal registry and the
    protocol handlers of the [Swaps] class, followed by the properties of the
    swap specification that are settled against it.

    - JavaScript numbers are IEEE 754 doubles: they are Rocq's primitive
      floats, so every arithmetic expression of the source is evaluated with
      the rounding the program has.
    - A [SwapDeal] is a mutable object shared by reference between the
      registry, the event payloads and the suspended [async] functions: the
      objects live in a heap (a list addressed by allocation index) and the
      registry maps an [r_hash] to a reference.
    - Every synchronous stretch of code touches one deal object.  It is
      written in a small monad [DealM] over that object (state, exception and
      an output log for emitted events and sent packets), and run on the heap
      by [with_deal].
    - An [async] function is cut at each [await]: the stretch before it ends in
      [Await call], and the code after it is a function of the call's result.
    - Logging is not part of the model. *)

From Stdlib Require Import ZArith Ascii PrimFloat FloatOps SpecFloat Uint63 FloatAxioms.
From stdpp Require Import base option list strings gmap relations.

(** ** JavaScript values *)

Module JS.

Abbreviation number := float.

Definition isNaN (x : number) : bool := negb (PrimFloat.eqb x x).

(** [a < b], [a > b] and [a <= b] of JavaScript on numbers. *)
Definition lt (a b : number) : bool := PrimFloat.ltb a b.
Definition gt (a b : number) : bool := PrimFloat.ltb b a.
Definition le (a b : number) : bool := PrimFloat.leb a b.

(** Truthiness of a number: neither a zero nor NaN. *)
Definition truthy (x : number) : bool := negb (PrimFloat.eqb x 0) && negb (isNaN x).

(** Truthiness of a [string | undefined]. *)
Definition truthy_str (x : option string) : bool :=
  match x with
  | Some s => negb (String.eqb s "")
  | None => false
  end.

(** ToNumber of a [number | undefined]: [undefined] becomes NaN. *)
Definition to_number (x : option number) : number :=
  match x with
  | Some v => v
  | None => PrimFloat.nan
  end.

(** String concatenation with a [string | undefined] operand. *)
Definition to_string (x : option string) : string :=
  match x with
  | Some s => s
  | None => "undefined"
  end.

Definition float_of_Z (z : Z) : number :=
  match z with
  | Z0 => PrimFloat.zero
  | Zpos _ => PrimFloat.of_uint63 (Uint63.of_Z z)
  | Zneg p => PrimFloat.opp (PrimFloat.of_uint63 (Uint63.of_Z (Zpos p)))
  end.

(** [Math.round]: the nearest integer, a tie going towards +∞; NaN, the
    infinities and the integers are returned as they are, and a result of
    zero keeps the sign of the argument.  A finite [x] is [±m·2^e]; when
    [e < 0] it is below 2^52 in magnitude and [floor (x + 1/2)] is computed
    exactly on integers. *)
Definition Math_round (x : number) : number :=
  match Prim2SF x with
  | S754_finite s m e =>
      if (0 <=? e)%Z then x
      else
        let sm := if s then Zneg m else Zpos m in
        let n := Z.shiftr (2 * sm + 2 ^ (- e))%Z (1 - e) in
        if (n =? 0)%Z then (if s then PrimFloat.neg_zero else PrimFloat.zero)
        else float_of_Z n
  | _ => x
  end.

Inductive Exn :=
| AssertionError (message : string)
| Error (message : string)
| TypeError (message : string).

Definition message (e : Exn) : string :=
  match e with
  | AssertionError m | Error m | TypeError m => m
  end.

(** Bytes of a [Buffer] and their [toString('hex')]. *)
Abbreviation Buffer := (list Byte.byte).

Definition hex_digit (n : N) : string :=
  String (match n with
          | 0 => "0" | 1 => "1" | 2 => "2" | 3 => "3" | 4 => "4" | 5 => "5"
          | 6 => "6" | 7 => "7" | 8 => "8" | 9 => "9" | 10 => "a" | 11 => "b"
          | 12 => "c" | 13 => "d" | 14 => "e" | _ => "f"
          end%N%char) EmptyString.

Fixpoint toString_hex (b : Buffer) : string :=
  match b with
  | [] => ""
  | x :: b' =>
      hex_digit (Byte.to_N x / 16) +:+ hex_digit (Byte.to_N x mod 16) +:+ toString_hex b'
  end.

(** [s.split('/')] *)
Fixpoint split_slash_aux (acc : string) (s : string) : list string :=
  match s with
  | EmptyString => [acc]
  | String c s' =>
      if Ascii.eqb c "/" then acc :: split_slash_aux "" s'
      else split_slash_aux (acc +:+ String c EmptyString) s'
  end.

Definition split_slash (s : string) : list string := split_slash_aux "" s.

End JS.

Import JS.

(** ** Enumerations ([types/enums]) *)

Inductive SwapDealRole := Taker | Maker.

Inductive SwapDealPhase :=
| SwapCreated
| SwapRequested
| SwapAgreed
| AmountSent
| AmountReceived
| SwapCompleted.

(** [SwapDealState]; the module keeps [Error] apart from the exception of the
    same name. *)
Module SwapDealState.
Inductive t := Active | Error | Completed.
End SwapDealState.
Abbreviation SwapDealState := SwapDealState.t.
Import SwapDealState.

(** [===] on the values of the three enumerations. *)
Definition role_eqb (a b : SwapDealRole) : bool :=
  match a, b with
  | Taker, Taker | Maker, Maker => true
  | _, _ => false
  end.

Definition phase_eqb (a b : SwapDealPhase) : bool :=
  match a, b with
  | SwapCreated, SwapCreated | SwapRequested, SwapRequested | SwapAgreed, SwapAgreed
  | AmountSent, AmountSent | AmountReceived, AmountReceived | SwapCompleted, SwapCompleted => true
  | _, _ => false
  end.

Definition state_eqb (a b : SwapDealState) : bool :=
  match a, b with
  | Active, Active | Error, Error | Completed, Completed => true
  | _, _ => false
  end.

(** The two chain clients, [lndBtcClient] and [lndLtcClient], and the
    [switch] on a currency string that selects one of them. *)
Inductive Chain := BTC | LTC.

Definition chain_of (currency : string) : option Chain :=
  if String.eqb currency "BTC" then Some BTC
  else if String.eqb currency "LTC" then Some LTC
  else None.

Record LndClient := {
  isConnected : bool;
  cltvDelta : number;
}.

(** An [lndrpc.Route], of which the coordinator reads the total time lock. *)
Record Route := {
  getTotalTimeLock : number;
}.

(** ** The deal record *)

Record SwapDeal := {
  myRole : SwapDealRole;
  phase : SwapDealPhase;
  state : SwapDealState;
  stateReason : string;
  peerPubKey : string;
  orderId : string;
  localOrderId : string;
  proposedQuantity : number;
  quantity : option number;
  pairId : string;
  takerAmount : number;
  takerCurrency : string;
  takerPubKey : option string;
  takerCltvDelta : number;
  makerAmount : number;
  makerCurrency : string;
  makerCltvDelta : option number;
  price : number;
  r_hash : string;
  r_preimage : option string;
  makerToTakerRoutes : option (list Route);
  createTime : number;
  executeTime : option number;
  competionTime : option number;
}.

Definition set_state (v : SwapDealState) (deal : SwapDeal) : SwapDeal :=
  {| myRole := myRole deal; phase := phase deal; state := v; stateReason := stateReason deal;
     peerPubKey := peerPubKey deal; orderId := orderId deal; localOrderId := localOrderId deal;
     proposedQuantity := proposedQuantity deal; quantity := quantity deal;
     pairId := pairId deal; takerAmount := takerAmount deal;
     takerCurrency := takerCurrency deal; takerPubKey := takerPubKey deal;
     takerCltvDelta := takerCltvDelta deal; makerAmount := makerAmount deal;
     makerCurrency := makerCurrency deal; makerCltvDelta := makerCltvDelta deal;
     price := price deal; r_hash := r_hash deal; r_preimage := r_preimage deal;
     makerToTakerRoutes := makerToTakerRoutes deal; createTime := createTime deal;
     executeTime := executeTime deal; competionTime := competionTime deal |}.

Definition set_stateReason (v : string) (deal : SwapDeal) : SwapDeal :=
  {| myRole := myRole deal; phase := phase deal; state := state deal; stateReason := v;
     peerPubKey := peerPubKey deal; orderId := orderId deal; localOrderId := localOrderId deal;
     proposedQuantity := proposedQuantity deal; quantity := quantity deal;
     pairId := pairId deal; takerAmount := takerAmount deal;
     takerCurrency := takerCurrency deal; takerPubKey := takerPubKey deal;
     takerCltvDelta := takerCltvDelta deal; makerAmount := makerAmount deal;
     makerCurrency := makerCurrency deal; makerCltvDelta := makerCltvDelta deal;
     price := price deal; r_hash := r_hash deal; r_preimage := r_preimage deal;
     makerToTakerRoutes := makerToTakerRoutes deal; createTime := createTime deal;
     executeTime := executeTime deal; competionTime := competionTime deal |}.

Definition set_phase (v : SwapDealPhase) (deal : SwapDeal) : SwapDeal :=
  {| myRole := myRole deal; phase := v; state := state deal; stateReason := stateReason deal;
     peerPubKey := peerPubKey deal; orderId := orderId deal; localOrderId := localOrderId deal;
     proposedQuantity := proposedQuantity deal; quantity := quantity deal;
     pairId := pairId deal; takerAmount := takerAmount deal;
     takerCurrency := takerCurrency deal; takerPubKey := takerPubKey deal;
     takerCltvDelta := takerCltvDelta deal; makerAmount := makerAmount deal;
     makerCurrency := makerCurrency deal; makerCltvDelta := makerCltvDelta deal;
     price := price deal; r_hash := r_hash deal; r_preimage := r_preimage deal;
     makerToTakerRoutes := makerToTakerRoutes deal; createTime := createTime deal;
     executeTime := executeTime deal; competionTime := competionTime deal |}.

Definition set_quantity (v : option number) (deal : SwapDeal) : SwapDeal :=
  {| myRole := myRole deal; phase := phase deal; state := state deal;
     stateReason := stateReason deal; peerPubKey := peerPubKey deal; orderId := orderId deal;
     localOrderId := localOrderId deal; proposedQuantity := proposedQuantity deal;
     quantity := v; pairId := pairId deal; takerAmount := takerAmount deal;
     takerCurrency := takerCurrency deal; takerPubKey := takerPubKey deal;
     takerCltvDelta := takerCltvDelta deal; makerAmount := makerAmount deal;
     makerCurrency := makerCurrency deal; makerCltvDelta := makerCltvDelta deal;
     price := price deal; r_hash := r_hash deal; r_preimage := r_preimage deal;
     makerToTakerRoutes := makerToTakerRoutes deal; createTime := createTime deal;
     executeTime := executeTime deal; competionTime := competionTime deal |}.

Definition set_makerCltvDelta (v : option number) (deal : SwapDeal) : SwapDeal :=
  {| myRole := myRole deal; phase := phase deal; state := state deal;
     stateReason := stateReason deal; peerPubKey := peerPubKey deal; orderId := orderId deal;
     localOrderId := localOrderId deal; proposedQuantity := proposedQuantity deal;
     quantity := quantity deal; pairId := pairId deal; takerAmount := takerAmount deal;
     takerCurrency := takerCurrency deal; takerPubKey := takerPubKey deal;
     takerCltvDelta := takerCltvDelta deal; makerAmount := makerAmount deal;
     makerCurrency := makerCurrency deal; makerCltvDelta := v; price := price deal;
     r_hash := r_hash deal; r_preimage := r_preimage deal;
     makerToTakerRoutes := makerToTakerRoutes deal; createTime := createTime deal;
     executeTime := executeTime deal; competionTime := competionTime deal |}.

Definition set_r_preimage (v : option string) (deal : SwapDeal) : SwapDeal :=
  {| myRole := myRole deal; phase := phase deal; state := state deal;
     stateReason := stateReason deal; peerPubKey := peerPubKey deal; orderId := orderId deal;
     localOrderId := localOrderId deal; proposedQuantity := proposedQuantity deal;
     quantity := quantity deal; pairId := pairId deal; takerAmount := takerAmount deal;
     takerCurrency := takerCurrency deal; takerPubKey := takerPubKey deal;
     takerCltvDelta := takerCltvDelta deal; makerAmount := makerAmount deal;
     makerCurrency := makerCurrency deal; makerCltvDelta := makerCltvDelta deal;
     price := price deal; r_hash := r_hash deal; r_preimage := v;
     makerToTakerRoutes := makerToTakerRoutes deal; createTime := createTime deal;
     executeTime := executeTime deal; competionTime := competionTime deal |}.

Definition set_makerToTakerRoutes (v : option (list Route)) (deal : SwapDeal) : SwapDeal :=
  {| myRole := myRole deal; phase := phase deal; state := state deal;
     stateReason := stateReason deal; peerPubKey := peerPubKey deal; orderId := orderId deal;
     localOrderId := localOrderId deal; proposedQuantity := proposedQuantity deal;
     quantity := quantity deal; pairId := pairId deal; takerAmount := takerAmount deal;
     takerCurrency := takerCurrency deal; takerPubKey := takerPubKey deal;
     takerCltvDelta := takerCltvDelta deal; makerAmount := makerAmount deal;
     makerCurrency := makerCurrency deal; makerCltvDelta := makerCltvDelta deal;
     price := price deal; r_hash := r_hash deal; r_preimage := r_preimage deal;
     makerToTakerRoutes := v; createTime := createTime deal; executeTime := executeTime deal;
     competionTime := competionTime deal |}.

Definition set_executeTime (v : option number) (deal : SwapDeal) : SwapDeal :=
  {| myRole := myRole deal; phase := phase deal; state := state deal;
     stateReason := stateReason deal; peerPubKey := peerPubKey deal; orderId := orderId deal;
     localOrderId := localOrderId deal; proposedQuantity := proposedQuantity deal;
     quantity := quantity deal; pairId := pairId deal; takerAmount := takerAmount deal;
     takerCurrency := takerCurrency deal; takerPubKey := takerPubKey deal;
     takerCltvDelta := takerCltvDelta deal; makerAmount := makerAmount deal;
     makerCurrency := makerCurrency deal; makerCltvDelta := makerCltvDelta deal;
     price := price deal; r_hash := r_hash deal; r_preimage := r_preimage deal;
     makerToTakerRoutes := makerToTakerRoutes deal; createTime := createTime deal;
     executeTime := v; competionTime := competionTime deal |}.

Definition set_competionTime (v : option number) (deal : SwapDeal) : SwapDeal :=
  {| myRole := myRole deal; phase := phase deal; state := state deal;
     stateReason := stateReason deal; peerPubKey := peerPubKey deal; orderId := orderId deal;
     localOrderId := localOrderId deal; proposedQuantity := proposedQuantity deal;
     quantity := quantity deal; pairId := pairId deal; takerAmount := takerAmount deal;
     takerCurrency := takerCurrency deal; takerPubKey := takerPubKey deal;
     takerCltvDelta := takerCltvDelta deal; makerAmount := makerAmount deal;
     makerCurrency := makerCurrency deal; makerCltvDelta := makerCltvDelta deal;
     price := price deal; r_hash := r_hash deal; r_preimage := r_preimage deal;
     makerToTakerRoutes := makerToTakerRoutes deal; createTime := createTime deal;
     executeTime := executeTime deal; competionTime := v |}.
(** ** Results, outputs and the monad of one deal object *)

Inductive Result (A : Type) :=
| Ok (a : A)
| Throw (e : Exn).
Arguments Ok {A} a.
Arguments Throw {A} e.

(** The summary record emitted with [swap.paid]. *)
Record SwapResult := {
  res_orderId : string;
  res_localId : string;
  res_pairId : string;
  res_quantity : option number;
  res_amountReceived : number;
  res_amountSent : number;
  res_r_hash : string;
  res_peerPubKey : string;
  res_role : SwapDealRole;
}.

(** Packet bodies, with the fields [Swaps.ts] reads and writes. *)
Record SwapRequestPacketBody := {
  req_takerCurrency : string;
  req_makerCurrency : string;
  req_takerAmount : number;
  req_makerAmount : number;
  req_takerCltvDelta : number;
  req_r_hash : string;
  req_orderId : string;
  req_pairId : string;
  req_proposedQuantity : number;
}.

Record SwapResponsePacketBody := {
  resp_makerCltvDelta : option number;
  resp_r_hash : string;
  resp_quantity : option number;
}.

Record SwapErrorPacketBody := {
  err_r_hash : string;
  err_errorMessage : string;
}.

Inductive Packet :=
| SwapRequestPacket (body : SwapRequestPacketBody)
| SwapResponsePacket (body : SwapResponsePacketBody) (reqId : string)
| SwapCompletePacket (r_hash : string)
| SwapErrorPacket (body : SwapErrorPacketBody) (reqId : option string).

(** What a stretch of code does besides changing the deal: [this.emit] of one
    of the two events ([swap.failed] carries the deal object itself) and
    [peer.sendPacket], with the peer named by its node key. *)
Inductive Output :=
| emit_swap_paid (swapResult : SwapResult)
| emit_swap_failed
| sendPacket (peer : string) (packet : Packet).

Definition DealM (A : Type) : Type := SwapDeal → Result A * SwapDeal * list Output.

Definition ret {A} (a : A) : DealM A := λ deal, (Ok a, deal, []).

Definition bind {A B} (k : A → DealM B) (m : DealM A) : DealM B := λ deal,
  match m deal with
  | (Ok a, deal1, out1) =>
      match k a deal1 with
      | (r, deal2, out2) => (r, deal2, out1 ++ out2)
      end
  | (Throw e, deal1, out1) => (Throw e, deal1, out1)
  end.

#[global] Instance DealM_ret : MRet DealM := @ret.
#[global] Instance DealM_bind : MBind DealM := @bind.

Definition throw {A} (e : Exn) : DealM A := λ deal, (Throw e, deal, []).

(** [try { m } catch (err) { h err }] *)
Definition try_catch {A} (m : DealM A) (h : Exn → DealM A) : DealM A := λ deal,
  match m deal with
  | (Ok a, deal1, out1) => (Ok a, deal1, out1)
  | (Throw e, deal1, out1) =>
      match h e deal1 with
      | (r, deal2, out2) => (r, deal2, out1 ++ out2)
      end
  end.

Definition get : DealM SwapDeal := λ deal, (Ok deal, deal, []).
Definition modify (f : SwapDeal → SwapDeal) : DealM unit := λ deal, (Ok tt, f deal, []).
Definition tell (o : Output) : DealM unit := λ deal, (Ok tt, deal, [o]).

Definition assert (value : bool) (msg : string) : DealM unit :=
  if value then ret tt else throw (AssertionError msg).

(** ** The state machine *)

(** [calculateSwapAmounts] *)
Definition calculateSwapAmounts (quantity price : number) : number * number :=
  let takerAmount := Math_round (quantity * price * 100000000)%float in
  let makerAmount := Math_round (quantity * 100000000)%float in
  (takerAmount, makerAmount).

(** [setDealState] *)
Definition setDealState (newState : SwapDealState) (newStateReason : string) : DealM unit :=
  deal ← get;
  if state_eqb (state deal) newState && state_eqb (state deal) Error then
    modify (set_stateReason (stateReason deal +:+ "; " +:+ newStateReason))
  else
    assert (state_eqb (state deal) Active) "deal is not Active. Can not change deal state";;
    modify (set_state newState);;
    modify (set_stateReason newStateReason);;
    deal ← get;
    if state_eqb (state deal) Error then tell emit_swap_failed else ret tt.

(** [setDealPhase]; [now] is the value [Date.now()] returns during the call.
    The [default] branch of the [switch] is not reachable for a value of the
    enumeration. *)
Definition setDealPhase (now : number) (newPhase : SwapDealPhase) : DealM unit :=
  deal ← get;
  assert (state_eqb (state deal) Active) "deal is not Active. Can not change deal phase";;
  match newPhase with
  | SwapCreated =>
      assert false "can not set deal phase to SwapCreated."
  | SwapRequested =>
      assert (role_eqb (myRole deal) Taker) "SwapRequested can only be set by the taker";;
      assert (phase_eqb (phase deal) SwapCreated)
        "SwapRequested can be only be set after SwapCreated"
  | SwapAgreed =>
      assert (role_eqb (myRole deal) Maker) "SwapAgreed can only be set by the maker";;
      assert (phase_eqb (phase deal) SwapCreated)
        "SwapAgreed can be only be set after SwapCreated"
  | AmountSent =>
      assert (role_eqb (myRole deal) Taker && phase_eqb (phase deal) SwapRequested
              || role_eqb (myRole deal) Maker && phase_eqb (phase deal) SwapAgreed)
        "AmountSent can only be set after SwapRequested (taker) or SwapAgreed (maker)";;
      modify (set_executeTime (Some now))
  | AmountReceived =>
      assert (phase_eqb (phase deal) AmountSent)
        "AmountReceived can be only be set after AmountSent"
  | SwapCompleted =>
      assert (phase_eqb (phase deal) AmountReceived)
        "SwapCompleted can be only be set after AmountReceived";;
      modify (set_competionTime (Some now));;
      setDealState Completed ("Swap completed. preimage = " +:+ to_string (r_preimage deal))
  end;;
  modify (set_phase newPhase);;
  deal ← get;
  if phase_eqb (phase deal) AmountReceived then
    tell (emit_swap_paid
            {| res_orderId := orderId deal;
               res_localId := localOrderId deal;
               res_pairId := pairId deal;
               res_quantity := quantity deal;
               res_amountReceived := makerAmount deal;
               res_amountSent := takerAmount deal;
               res_r_hash := r_hash deal;
               res_peerPubKey := peerPubKey deal;
               res_role := myRole deal |})
  else ret tt.


(** ** Peers, orders and the chain clients' calls *)

(** A peer of the pool: its node key and the LND keys it advertised. *)
Record Peer := {
  nodePubKey : string;
  getLndPubKey : string → option string;
}.

Record StampedPeerOrder := {
  maker_id : string;
  maker_pairId : string;
  maker_price : number;
}.

Record StampedOwnOrder := {
  taker_localId : string;
  taker_pairId : string;
  taker_quantity : number;
  taker_isBuy : bool;
}.

Record OrderToAccept := {
  quantityToAccept : number;
  ota_price : number;
  localId : string;
}.

Record ResolveRequest := {
  getHash : string;
  getAmount : number;
  getTimeout : number;
  getHeightNow : number;
}.

Record SendRequest := {
  getAmt : number;
  getDestString : option string;
  getPaymentHashString : string;
  getFinalCltvDelta : option number;
}.

(** The answer of [sendPaymentSync] and [sendToRouteSync]; the preimage is
    held as the bytes the base64 text decodes to. *)
Record SendResponse := {
  getPaymentError : string;
  getPaymentPreimage : Buffer;
}.

(** The calls an [async] function awaits. *)
Inductive LndCall :=
| queryRoutes (client : Chain) (amt finalCltvDelta numRoutes : number) (pubKey : option string)
| getInfo (client : Chain)
| sendPaymentSync (client : Chain) (request : SendRequest)
| sendToRouteSync (client : Chain) (routes : option (list Route)) (paymentHash : string).

(** Where a stretch of an [async] function stops: at a [return], or at an
    [await] of a chain client's call. *)
Inductive Async (A : Type) :=
| Return (a : A)
| Await (call : LndCall).
Arguments Return {A} a.
Arguments Await {A} call.

(** How an awaited promise settles. *)
Inductive Settled (R : Type) :=
| Resolved (r : R)
| Rejected (err : Exn).
Arguments Resolved {R} r.
Arguments Rejected {R} err.

(** ** The coordinator: heap of deal objects, registry, clients, outputs *)

Record Swaps := {
  heap : list SwapDeal;
  deals : gmap string nat;
  lndBtcClient : LndClient;
  lndLtcClient : LndClient;
  trace : list (nat * Output);
}.

Definition set_heap (h : list SwapDeal) (s : Swaps) : Swaps :=
  {| heap := h; deals := deals s; lndBtcClient := lndBtcClient s;
     lndLtcClient := lndLtcClient s; trace := trace s |}.

Definition set_deals (m : gmap string nat) (s : Swaps) : Swaps :=
  {| heap := heap s; deals := m; lndBtcClient := lndBtcClient s;
     lndLtcClient := lndLtcClient s; trace := trace s |}.

Definition set_clients (btc ltc : LndClient) (s : Swaps) : Swaps :=
  {| heap := heap s; deals := deals s; lndBtcClient := btc; lndLtcClient := ltc;
     trace := trace s |}.

Definition set_trace (t : list (nat * Output)) (s : Swaps) : Swaps :=
  {| heap := heap s; deals := deals s; lndBtcClient := lndBtcClient s;
     lndLtcClient := lndLtcClient s; trace := t |}.

(** The coordinator as the constructor leaves it. *)
Definition new_Swaps (lndBtcClient lndLtcClient : LndClient) : Swaps :=
  {| heap := []; deals := ∅; lndBtcClient := lndBtcClient;
     lndLtcClient := lndLtcClient; trace := [] |}.

(** An object literal: a fresh deal object, and its reference. *)
Definition new_deal (deal : SwapDeal) (s : Swaps) : nat * Swaps :=
  (length (heap s), set_heap (heap s ++ [deal]) s).

(** Runs a stretch of code on the deal object [r]; its outputs are logged
    under [r].  References come from [new_deal] and from the registry, so the
    lookup of a reference in use does not fail. *)
Definition with_deal {A} (r : nat) (m : DealM A) (s : Swaps) : Result A * Swaps :=
  match heap s !! r with
  | Some deal =>
      match m deal with
      | (res, deal', out) =>
          (res, set_trace (trace s ++ ((λ o, (r, o)) <$> out)) (set_heap (<[r := deal']> (heap s)) s))
      end
  | None => (Throw (TypeError "not an object"), s)
  end.

(** [getDeal], [addDeal] and [removeDeal] *)
Definition getDeal (r_hash : string) (s : Swaps) : option nat := deals s !! r_hash.

Definition addDeal (r : nat) (s : Swaps) : Swaps :=
  match heap s !! r with
  | Some deal => set_deals (<[r_hash deal := r]> (deals s)) s
  | None => s
  end.

Definition removeDeal (r : nat) (s : Swaps) : Swaps :=
  match heap s !! r with
  | Some deal => set_deals (delete (r_hash deal) (deals s)) s
  | None => s
  end.

(** [isPairSupported] and [verifyExecution] *)
Definition isPairSupported (s : Swaps) (pairId : string) : bool :=
  String.eqb pairId "LTC/BTC" && isConnected (lndBtcClient s) && isConnected (lndLtcClient s).

Definition verifyExecution (s : Swaps) (maker : StampedPeerOrder) (taker : StampedOwnOrder) : bool :=
  if negb (String.eqb (maker_pairId maker) (taker_pairId taker))
     || negb (isPairSupported s (maker_pairId maker))
  then false
  else true.

(** [sendErrorToPeer] *)
Definition sendErrorToPeer (peer : Peer) (r_hash errorMessage : string) (reqId : option string)
  : DealM unit :=
  tell (sendPacket (nodePubKey peer)
          (SwapErrorPacket {| err_r_hash := r_hash; err_errorMessage := errorMessage |} reqId)).

(** [verifyLndSetup]: an error message, or [undefined]. *)
Definition verifyLndSetup (btc ltc : LndClient) (deal : SwapDeal) (peer : Peer) : option string :=
  if negb (truthy_str (getLndPubKey peer (takerCurrency deal))) then
    Some ("peer did not provide an LND PubKey for " +:+ takerCurrency deal)
  else if negb (truthy_str (getLndPubKey peer (makerCurrency deal))) then
    Some ("peer did not provide an LND PubKey for " +:+ makerCurrency deal)
  else if negb (isConnected ltc) then
    Some "Can not swap. Not connected to LTC network"
  else if negb (isConnected btc) then
    Some "Can not swap. Not connected to BTC network"
  else None.

(** ** Taker side: [executeSwap] and [beginSwap] *)

(** The deal and the request body [beginSwap] builds.  [beginSwap] is private
    and runs only after [verifyExecution] found the pair to be ["LTC/BTC"], so
    both components of the split exist.  [preimage] is the value of
    [randomBytes(32)], [sha256] the digest of the crypto library. *)
Definition beginSwap_body (sha256 : Buffer → Buffer) (btc ltc : LndClient) (preimage : Buffer)
    (maker : StampedPeerOrder) (taker : StampedOwnOrder) : SwapRequestPacketBody :=
  let parts := split_slash (maker_pairId maker) in
  let baseCurrency := parts !!! 0%nat in
  let quoteCurrency := parts !!! 1%nat in
  let takerCurrency := if taker_isBuy taker then baseCurrency else quoteCurrency in
  let makerCurrency := if taker_isBuy taker then quoteCurrency else baseCurrency in
  let takerCltvDelta :=
    match chain_of takerCurrency with
    | Some BTC => cltvDelta btc
    | Some LTC => cltvDelta ltc
    | None => 0%float
    end in
  let '(takerAmount, makerAmount) :=
    calculateSwapAmounts (taker_quantity taker) (maker_price maker) in
  {| req_takerCurrency := takerCurrency;
     req_makerCurrency := makerCurrency;
     req_takerAmount := takerAmount;
     req_makerAmount := makerAmount;
     req_takerCltvDelta := takerCltvDelta;
     req_r_hash := toString_hex (sha256 preimage);
     req_orderId := maker_id maker;
     req_pairId := maker_pairId maker;
     req_proposedQuantity := taker_quantity taker |}.

Definition beginSwap_deal (now : number) (preimage : Buffer) (peer : Peer)
    (maker : StampedPeerOrder) (taker : StampedOwnOrder) (body : SwapRequestPacketBody)
  : SwapDeal :=
  {| myRole := Taker;
     phase := SwapCreated;
     state := Active;
     stateReason := "";
     peerPubKey := nodePubKey peer;
     orderId := req_orderId body;
     localOrderId := taker_localId taker;
     proposedQuantity := req_proposedQuantity body;
     quantity := None;
     pairId := req_pairId body;
     takerAmount := req_takerAmount body;
     takerCurrency := req_takerCurrency body;
     takerPubKey := None;
     takerCltvDelta := req_takerCltvDelta body;
     makerAmount := req_makerAmount body;
     makerCurrency := req_makerCurrency body;
     makerCltvDelta := None;
     price := maker_price maker;
     r_hash := req_r_hash body;
     r_preimage := Some (toString_hex preimage);
     makerToTakerRoutes := None;
     createTime := now;
     executeTime := None;
     competionTime := None |}.

(** [beginSwap] after [addDeal]: the r_hash, or [undefined]. *)
Definition beginSwap_sync (now : number) (btc ltc : LndClient) (peer : Peer)
    (body : SwapRequestPacketBody) : DealM (option string) :=
  deal ← get;
  let errMsg := verifyLndSetup btc ltc deal peer in
  if truthy_str errMsg then
    setDealState Error (to_string errMsg);;
    mret None
  else
    tell (sendPacket (nodePubKey peer) (SwapRequestPacket body));;
    setDealPhase now SwapRequested;;
    deal ← get;
    mret (Some (r_hash deal)).

(** [beginSwap]; [peer] is what [pool.getPeer] returns for the maker's order. *)
Definition beginSwap (sha256 : Buffer → Buffer) (now : number) (preimage : Buffer) (peer : Peer)
    (maker : StampedPeerOrder) (taker : StampedOwnOrder) (s : Swaps)
  : Result (option string) * Swaps :=
  let body := beginSwap_body sha256 (lndBtcClient s) (lndLtcClient s) preimage maker taker in
  let '(r, s1) := new_deal (beginSwap_deal now preimage peer maker taker body) s in
  with_deal r (beginSwap_sync now (lndBtcClient s) (lndLtcClient s) peer body) (addDeal r s1).

(** The synchronous part of [executeSwap]: [None] where the promise is
    rejected at once, the r_hash the listeners wait for otherwise. *)
Definition executeSwap (sha256 : Buffer → Buffer) (now : number) (preimage : Buffer) (peer : Peer)
    (maker : StampedPeerOrder) (taker : StampedOwnOrder) (s : Swaps)
  : Result (option string) * Swaps :=
  if negb (verifyExecution s maker taker) then (Ok None, s)
  else beginSwap sha256 now preimage peer maker taker s.

(** ** Maker side: [acceptDeal] *)

Record SwapRequestPacket_t := {
  request_body : SwapRequestPacketBody;
  request_id : string;
}.

Definition acceptDeal_deal (now : number) (orderToAccept : OrderToAccept)
    (requestBody : SwapRequestPacketBody) (peer : Peer) : SwapDeal :=
  {| myRole := Maker;
     phase := SwapCreated;
     state := Active;
     stateReason := "";
     peerPubKey := nodePubKey peer;
     orderId := req_orderId requestBody;
     localOrderId := localId orderToAccept;
     proposedQuantity := req_proposedQuantity requestBody;
     quantity := Some (quantityToAccept orderToAccept);
     pairId := req_pairId requestBody;
     takerAmount := req_takerAmount requestBody;
     takerCurrency := req_takerCurrency requestBody;
     takerPubKey := getLndPubKey peer (req_takerCurrency requestBody);
     takerCltvDelta := req_takerCltvDelta requestBody;
     makerAmount := req_makerAmount requestBody;
     makerCurrency := req_makerCurrency requestBody;
     makerCltvDelta := None;
     price := ota_price orderToAccept;
     r_hash := req_r_hash requestBody;
     r_preimage := None;
     makerToTakerRoutes := None;
     createTime := now;
     executeTime := None;
     competionTime := None |}.

(** The error exits of [acceptDeal]: set [Error], tell the peer, return
    [false]. *)
Definition acceptDeal_fail (peer : Peer) (reqId : string) (reason : string)
  : DealM (Async bool) :=
  setDealState Error reason;;
  deal ← get;
  sendErrorToPeer peer (r_hash deal) (stateReason deal) (Some reqId);;
  mret (Return false).

(** [acceptDeal] from [addDeal] to the first [await]. *)
Definition acceptDeal_sync (btc ltc : LndClient) (requestPacket : SwapRequestPacket_t)
    (peer : Peer) : DealM (Async bool) :=
  let requestBody := request_body requestPacket in
  deal ← get;
  let errMsg := verifyLndSetup btc ltc deal peer in
  if truthy_str errMsg then
    acceptDeal_fail peer (request_id requestPacket) (to_string errMsg)
  else
    match chain_of (takerCurrency deal) with
    | None =>
        acceptDeal_fail peer (request_id requestPacket) "Can not swap. Unsupported taker currency."
    | Some lndclient =>
        mret (Await (queryRoutes lndclient (req_takerAmount requestBody)
                       (req_takerCltvDelta requestBody) 1
                       (getLndPubKey peer (req_takerCurrency requestBody))))
    end.

Definition acceptDeal (now : number) (orderToAccept : OrderToAccept)
    (requestPacket : SwapRequestPacket_t) (peer : Peer) (s : Swaps)
  : Result (Async bool) * Swaps :=
  let '(r, s1) := new_deal (acceptDeal_deal now orderToAccept (request_body requestPacket) peer) s in
  with_deal r (acceptDeal_sync (lndBtcClient s) (lndLtcClient s) requestPacket peer)
    (addDeal r s1).

(** After [await lndclient.queryRoutes(req)], to the end of the first [try]
    statement; leaving the [try] normally leads straight to
    [await lndclient.getInfo()]. *)
Definition acceptDeal_onRoutes (lndclient : Chain) (requestPacket : SwapRequestPacket_t)
    (peer : Peer) (routes : Settled (list Route)) : DealM (Async bool) :=
  try_catch
    (match routes with
     | Rejected err => throw err
     | Resolved routesList =>
         modify (set_makerToTakerRoutes (Some routesList));;
         if (length routesList =? 0)%nat then
           acceptDeal_fail peer (request_id requestPacket)
             "Can not swap. unable to find route to destination."
         else mret (Await (getInfo lndclient))
     end)
    (λ err,
       acceptDeal_fail peer (request_id requestPacket)
         ("Can not swap. unable to find route to destination: " +:+ message err)).

(** After [await lndclient.getInfo()], to the end of [acceptDeal]. *)
Definition acceptDeal_onInfo (now : number) (btc ltc : LndClient)
    (requestPacket : SwapRequestPacket_t) (peer : Peer) (info : Settled number)
  : DealM (Async bool) :=
  let requestBody := request_body requestPacket in
  match info with
  | Rejected err =>
      acceptDeal_fail peer (request_id requestPacket)
        ("Can not swap. Unable to fetch block height: " +:+ message err)
  | Resolved height =>
      deal ← get;
      match makerToTakerRoutes deal with
      | Some (route0 :: _) =>
          let routeCltvDelta := (getTotalTimeLock route0 - height)%float in
          let cltvDeltaFactor := (cltvDelta ltc / cltvDelta btc)%float in
          match chain_of (req_makerCurrency requestBody) with
          | Some BTC =>
              modify (set_makerCltvDelta
                        (Some (cltvDelta btc + routeCltvDelta / cltvDeltaFactor)%float))
          | Some LTC =>
              modify (set_makerCltvDelta
                        (Some (cltvDelta ltc + routeCltvDelta * cltvDeltaFactor)%float))
          | None => mret ()
          end;;
          deal ← get;
          tell (sendPacket (nodePubKey peer)
                  (SwapResponsePacket
                     {| resp_makerCltvDelta := makerCltvDelta deal;
                        resp_r_hash := req_r_hash requestBody;
                        resp_quantity := Some (req_proposedQuantity requestBody) |}
                     (request_id requestPacket)));;
          setDealPhase now SwapAgreed;;
          mret (Return true)
      | _ => throw (TypeError "Cannot read property 'getTotalTimeLock' of undefined")
      end
  end.

(** ** Taker side: [handleSwapResponse] *)

(** [handleSwapResponse] on the deal found, to the [await] of the send.  The
    three branches on the accepted quantity are empty in the source. *)
Definition handleSwapResponse_sync (now : number) (body : SwapResponsePacketBody) (peer : Peer)
  : DealM (Async unit) :=
  modify (set_makerCltvDelta (resp_makerCltvDelta body));;
  deal ← get;
  match resp_quantity body with
  | Some quantity =>
      if truthy quantity then
        modify (set_quantity (Some quantity));;
        if le quantity 0 then mret ()
        else if gt quantity (proposedQuantity deal) then mret ()
        else if lt quantity (proposedQuantity deal) then mret ()
        else mret ()
      else mret ()
  | None => mret ()
  end;;
  deal ← get;
  match chain_of (makerCurrency deal) with
  | None => mret (Return ())
  | Some cmdLnd =>
      let request :=
        {| getAmt := makerAmount deal;
           getDestString := getLndPubKey peer (makerCurrency deal);
           getPaymentHashString := r_hash deal;
           getFinalCltvDelta := makerCltvDelta deal |} in
      try_catch
        (setDealPhase now AmountSent;;
         mret (Await (sendPaymentSync cmdLnd request)))
        (λ err,
           setDealState Error (message err);;
           sendErrorToPeer peer (resp_r_hash body) (message err) None;;
           mret (Return ()))
  end.

Definition handleSwapResponse (now : number) (body : SwapResponsePacketBody) (peer : Peer)
    (s : Swaps) : Result (Async unit) * Swaps :=
  match getDeal (resp_r_hash body) s with
  | None => (Ok (Return ()), s)
  | Some r => with_deal r (handleSwapResponse_sync now body peer) s
  end.

(** After [await cmdLnd.sendPaymentSync(request)], inside the [try]; the
    preimage of the answer is decoded and not used. *)
Definition handleSwapResponse_onSent (now : number) (body : SwapResponsePacketBody) (peer : Peer)
    (sendPaymentResponse : Settled SendResponse) : DealM unit :=
  try_catch
    (match sendPaymentResponse with
     | Rejected err => throw err
     | Resolved response =>
         if negb (String.eqb (getPaymentError response) "") then
           throw (JS.Error (getPaymentError response))
         else
           let r_preimage := toString_hex (getPaymentPreimage response) in
           setDealPhase now SwapCompleted;;
           tell (sendPacket (nodePubKey peer) (SwapCompletePacket (resp_r_hash body)))
     end)
    (λ err,
       setDealState Error (message err);;
       sendErrorToPeer peer (resp_r_hash body) (message err) None).

(** ** The preimage resolver: [validateRequest] and [resolveHash] *)

(** [validateRequest]; the role is one of the two of the enumeration, so the
    [default] branch of the [switch] is not reachable. *)
Definition validateRequest (resolveRequest : ResolveRequest) : DealM bool :=
  deal ← get;
  let amount := getAmount resolveRequest in
  let '(expectedAmount, cltvDelta, source, destination) :=
    match myRole deal with
    | Maker => (makerAmount deal, to_number (makerCltvDelta deal), "Taker", "Maker")
    | Taker => (takerAmount deal, takerCltvDelta deal, "Maker", "Taker")
    end in
  let expectedAmount := (expectedAmount * 1000)%float in
  if lt amount expectedAmount then
    setDealState Error
      ("Amount sent from " +:+ source +:+ " to " +:+ "destination" +:+ "is too small");;
    mret false
  else if gt cltvDelta (getTimeout resolveRequest - getHeightNow resolveRequest)%float then
    setDealState Error
      ("cltvDelta sent from " +:+ source +:+ " to " +:+ "destination" +:+ "is too small");;
    mret false
  else mret true.

(** [resolveHash] on the deal found, to its [return] or to the [await] of the
    maker's forwarding payment. *)
Definition resolveHash_sync (now : number) (resolveRequest : ResolveRequest)
  : DealM (Async (option string)) :=
  valid ← validateRequest resolveRequest;
  deal ← get;
  if negb valid then mret (Return (Some (stateReason deal)))
  else if role_eqb (myRole deal) Maker then
    let cmdLnd :=
      match chain_of (makerCurrency deal) with
      | Some BTC => LTC
      | Some LTC => BTC
      | None => LTC
      end in
    try_catch
      (setDealPhase now AmountSent;;
       mret (Await (sendToRouteSync cmdLnd (makerToTakerRoutes deal) (r_hash deal))))
      (λ err,
         setDealState Error (message err);;
         mret (Return (Some ("Got exception from sendPaymentSync" +:+ message err))))
  else
    setDealPhase now AmountReceived;;
    deal ← get;
    mret (Return (r_preimage deal)).

Definition resolveHash (now : number) (resolveRequest : ResolveRequest) (s : Swaps)
  : Result (Async (option string)) * Swaps :=
  let hash := getHash resolveRequest in
  match getDeal hash s with
  | None => (Ok (Return (Some ("Something went wrong. Can't find deal: " +:+ hash))), s)
  | Some r => with_deal r (resolveHash_sync now resolveRequest) s
  end.

(** After [await cmdLnd.sendToRouteSync(request)], inside the [try]. *)
Definition resolveHash_onSent (now : number) (response : Settled SendResponse)
  : DealM (option string) :=
  try_catch
    (match response with
     | Rejected err => throw err
     | Resolved response =>
         if negb (String.eqb (getPaymentError response) "") then
           setDealState Error (getPaymentError response);;
           mret (Some (getPaymentError response))
         else
           modify (set_r_preimage (Some (toString_hex (getPaymentPreimage response))));;
           setDealPhase now AmountReceived;;
           deal ← get;
           mret (r_preimage deal)
     end)
    (λ err,
       setDealState Error (message err);;
       mret (Some ("Got exception from sendPaymentSync" +:+ message err))).

(** ** Completion and error packets *)

Definition handleSwapComplete (now : number) (r_hash : string) (s : Swaps)
  : Result unit * Swaps :=
  match getDeal r_hash s with
  | None => (Ok (), s)
  | Some r => with_deal r (setDealPhase now SwapCompleted) s
  end.

Definition handleSwapError (body : SwapErrorPacketBody) (s : Swaps) : Result unit * Swaps :=
  match getDeal (err_r_hash body) s with
  | None => (Ok (), s)
  | Some r => with_deal r (setDealState Error (err_errorMessage body)) s
  end.

(** ** Runs of the coordinator *)

(** One step is one uninterrupted stretch of code: a public entry point or a
    packet handler up to its first [await], or the part of an [async] function
    between two [await]s, resumed on the deal object it holds.  The relation
    lets any stretch resume on any deal object with any answer; the program
    resumes only what it suspended, so every run of the program is a run of
    this relation.  Deals enter the registry through [beginSwap] and
    [acceptDeal].  Between two stretches a chain client may connect or
    disconnect. *)
Inductive step (sha256 : Buffer → Buffer) (s : Swaps) : Swaps → Prop :=
| step_executeSwap now preimage peer maker taker :
    step sha256 s (executeSwap sha256 now preimage peer maker taker s).2
| step_acceptDeal now orderToAccept requestPacket peer :
    step sha256 s (acceptDeal now orderToAccept requestPacket peer s).2
| step_acceptDeal_onRoutes r lndclient requestPacket peer routes :
    step sha256 s (with_deal r (acceptDeal_onRoutes lndclient requestPacket peer routes) s).2
| step_acceptDeal_onInfo r now requestPacket peer info :
    step sha256 s
      (with_deal r (acceptDeal_onInfo now (lndBtcClient s) (lndLtcClient s) requestPacket peer info) s).2
| step_handleSwapResponse now body peer :
    step sha256 s (handleSwapResponse now body peer s).2
| step_handleSwapResponse_onSent r now body peer response :
    step sha256 s (with_deal r (handleSwapResponse_onSent now body peer response) s).2
| step_resolveHash now resolveRequest :
    step sha256 s (resolveHash now resolveRequest s).2
| step_resolveHash_onSent r now response :
    step sha256 s (with_deal r (resolveHash_onSent now response) s).2
| step_handleSwapComplete now r_hash :
    step sha256 s (handleSwapComplete now r_hash s).2
| step_handleSwapError body :
    step sha256 s (handleSwapError body s).2
| step_removeDeal r :
    step sha256 s (removeDeal r s)
| step_clients btc ltc :
    step sha256 s (set_clients btc ltc s).

(** ** What is observed of a deal object *)

Definition is_paid (o : Output) : bool :=
  match o with
  | emit_swap_paid _ => true
  | _ => false
  end.

Definition is_failed (o : Output) : bool :=
  match o with
  | emit_swap_failed => true
  | _ => false
  end.

(** Number of outputs of one kind in the log of a stretch of code. *)
Definition count_out (p : Output → bool) (out : list Output) : nat :=
  length (List.filter p out).

(** Number of outputs of one kind logged for the deal object [r]. *)
Fixpoint emitted (p : Output → bool) (r : nat) (t : list (nat * Output)) : nat :=
  match t with
  | [] => 0
  | (r', o) :: t' => (if bool_decide (r' = r) && p o then 1 else 0) + emitted p r t'
  end.

(** What a deal's phase and state say about the events it has caused. *)
Definition paid_done (deal : SwapDeal) : nat :=
  match phase deal with
  | AmountReceived | SwapCompleted => 1
  | _ => 0
  end.

Definition failed_done (deal : SwapDeal) : nat :=
  match state deal with
  | Error => 1
  | _ => 0
  end.

(** The text a sequence of further error reports appends to [stateReason]. *)
Fixpoint append_reasons (reasons : list string) : string :=
  match reasons with
  | [] => ""
  | reason :: rest => "; " +:+ reason +:+ append_reasons rest
  end.

(** The amounts [beginSwap] computes for the deal it creates. *)
Definition amounts_as_proposed (deal : SwapDeal) : Prop :=
  (takerAmount deal, makerAmount deal)
  = calculateSwapAmounts (proposedQuantity deal) (price deal).

(** [evolves d out d']: how a stretch of code that goes through
    [setDealState] and [setDealPhase] can change a deal object, and what it
    emits on the way. *)
Record evolves (d : SwapDeal) (out : list Output) (d' : SwapDeal) : Prop := {
  ev_role : myRole d' = myRole d;
  ev_hash : r_hash d' = r_hash d;
  ev_makerAmount : makerAmount d' = makerAmount d;
  ev_takerAmount : takerAmount d' = takerAmount d;
  ev_proposed : proposedQuantity d' = proposedQuantity d;
  ev_price : price d' = price d;
  ev_paid : count_out is_paid out + paid_done d = paid_done d';
  ev_failed : count_out is_failed out + failed_done d = failed_done d';
  ev_frozen : state d ≠ Active → state d' = state d ∧ phase d' = phase d;
  ev_completed :
    (state d = Completed ↔ phase d = SwapCompleted) →
    (state d' = Completed ↔ phase d' = SwapCompleted);
  ev_reason_completed : state d = Completed → stateReason d' = stateReason d;
  ev_reason_error :
    state d = Error → ∃ reasons, stateReason d' = stateReason d +:+ append_reasons reasons;
}.

(** A computation all of whose runs evolve the deal. *)
Definition preserves {A} (m : DealM A) : Prop :=
  ∀ d, evolves d (m d).2 (m d).1.2.

(** A deal object as [beginSwap] and [acceptDeal] create it. *)
Record fresh_deal (d : SwapDeal) : Prop := {
  fresh_phase : phase d = SwapCreated;
  fresh_state : state d = Active;
  fresh_amounts : myRole d = Taker → amounts_as_proposed d;
}.

(** The elementary changes of the coordinator every step is made of. *)
Inductive base_step (s : Swaps) : Swaps → Prop :=
| base_frame s' : heap s' = heap s → trace s' = trace s → base_step s s'
| base_alloc d0 : fresh_deal d0 → base_step s (set_heap (heap s ++ [d0]) s)
| base_run {A} r (m : DealM A) : preserves m → base_step s (with_deal r m s).2.

(** The invariant of the heap and the log. *)
Record deal_inv (t : list (nat * Output)) (r : nat) (d : SwapDeal) : Prop := {
  inv_paid : emitted is_paid r t = paid_done d;
  inv_failed : emitted is_failed r t = failed_done d;
  inv_completed : state d = Completed ↔ phase d = SwapCompleted;
  inv_amounts : myRole d = Taker → amounts_as_proposed d;
}.

Record coordinator_inv (s : Swaps) : Prop := {
  inv_bound : ∀ r o, (r, o) ∈ trace s → r < length (heap s);
  inv_deals : ∀ r d, heap s !! r = Some d → deal_inv (trace s) r d;
}.

(** A deal that has left [Active] keeps its phase and state, emits nothing
    more, and its reason only grows by error reports. *)
Record frozen (s s' : Swaps) (r : nat) (d : SwapDeal) : Prop := {
  frozen_deal : ∃ d',
    heap s' !! r = Some d' ∧ phase d' = phase d ∧ state d' = state d
    ∧ (state d = Completed → stateReason d' = stateReason d)
    ∧ (state d = Error → ∃ reasons, stateReason d' = stateReason d +:+ append_reasons reasons);
  frozen_paid : emitted is_paid r (trace s') = emitted is_paid r (trace s);
  frozen_failed : emitted is_failed r (trace s') = emitted is_failed r (trace s);
}.

Definition reachable (sha256 : Buffer → Buffer) (btc ltc : LndClient) (s : Swaps) : Prop :=
  rtc (step sha256) (new_Swaps btc ltc) s.

(** ** The checks of the resolver, as the specification words them *)

(** The expected amount in msat and the required CLTV delta, by role. *)
Definition expectedAmount_msat (deal : SwapDeal) : number :=
  ((match myRole deal with
    | Maker => makerAmount deal
    | Taker => takerAmount deal
    end) * 1000)%float.

Definition requiredCltvDelta (deal : SwapDeal) : number :=
  match myRole deal with
  | Maker => to_number (makerCltvDelta deal)
  | Taker => takerCltvDelta deal
  end.

(** [amount_msat < expected] and [timeout_height − height_now < required]. *)
Definition amount_too_small (resolveRequest : ResolveRequest) (deal : SwapDeal) : bool :=
  lt (getAmount resolveRequest) (expectedAmount_msat deal).

Definition timelock_too_small (resolveRequest : ResolveRequest) (deal : SwapDeal) : bool :=
  lt (getTimeout resolveRequest - getHeightNow resolveRequest)%float (requiredCltvDelta deal).

(** The reason validation gives; the amount is checked first. *)
Definition validation_reason (resolveRequest : ResolveRequest) (deal : SwapDeal) : string :=
  let source :=
    match myRole deal with
    | Maker => "Taker"
    | Taker => "Maker"
    end in
  if amount_too_small resolveRequest deal then
    "Amount sent from " +:+ source +:+ " to " +:+ "destination" +:+ "is too small"
  else
    "cltvDelta sent from " +:+ source +:+ " to " +:+ "destination" +:+ "is too small".

(** A deal after an error report: the first report sets [Error], a later one
    is appended to the reason. *)
Definition report_error (reason : string) (deal : SwapDeal) : SwapDeal :=
  match state deal with
  | Error => set_stateReason (stateReason deal +:+ "; " +:+ reason) deal
  | _ => set_stateReason reason (set_state Error deal)
  end.

(** ** Two concrete runs *)

(** A stand-in for the digest, for runs on concrete data. *)
Definition digest_stub (b : Buffer) : Buffer := Byte.x5a :: b.

Definition btc0 : LndClient := {| isConnected := true; cltvDelta := 40 |}.
Definition ltc0 : LndClient := {| isConnected := true; cltvDelta := 576 |}.

Definition peerP : Peer :=
  {| nodePubKey := "P"; getLndPubKey := λ currency, Some ("lnd-" +:+ currency) |}.

(** The taker fills order O1 for the whole quantity 1 at price 1/4: it is to
    receive 25 000 000 subunits of LTC and to pay 100 000 000 of BTC. *)
Definition maker_order : StampedPeerOrder :=
  {| maker_id := "O1"; maker_pairId := "LTC/BTC"; maker_price := 0.25 |}.

Definition taker_order : StampedOwnOrder :=
  {| taker_localId := "L1"; taker_pairId := "LTC/BTC"; taker_quantity := 1;
     taker_isBuy := true |}.

Definition preimage0 : Buffer := [Byte.x01; Byte.x02].

(** r_hash of the taker's deal under [digest_stub]. *)
Definition hash0 : string := "5a0102".

Definition response0 : SwapResponsePacketBody :=
  {| resp_makerCltvDelta := Some 50%float; resp_r_hash := hash0; resp_quantity := Some 1%float |}.

(** The maker's HTLC: 25 000 000 000 msat, expiring 600 blocks from now. *)
Definition htlc0 : ResolveRequest :=
  {| getHash := hash0; getAmount := 25000000000; getTimeout := 700; getHeightNow := 100 |}.

(** The taker's deal is requested, agreed and paid for, and the maker's HTLC
    is resolved while the taker's own payment is still in flight. *)
Definition taker1 : Swaps :=
  (executeSwap digest_stub 1000 preimage0 peerP maker_order taker_order (new_Swaps btc0 ltc0)).2.
Definition taker2 : Swaps := (handleSwapResponse 1001 response0 peerP taker1).2.
Definition taker3 : Swaps := (resolveHash 1002 htlc0 taker2).2.

(** Then the peer reports an error. *)
Definition taker_failed : Swaps :=
  (handleSwapError {| err_r_hash := hash0; err_errorMessage := "boom" |} taker3).2.

(** Or the taker's payment returns without a payment error, with a preimage
    that is not the deal's. *)
Definition wrong_preimage : SendResponse :=
  {| getPaymentError := ""; getPaymentPreimage := [Byte.xbb] |}.

Definition taker_completed : Swaps :=
  (with_deal 0 (handleSwapResponse_onSent 1003 response0 peerP (Resolved wrong_preimage)) taker3).2.

(** A second HTLC for the completed deal, one msat short. *)
Definition htlc_short : ResolveRequest :=
  {| getHash := hash0; getAmount := 24999999999; getTimeout := 700; getHeightNow := 100 |}.

(** A response that accepts more than was proposed, and one that accepts
    nothing. *)
Definition response_too_much : SwapResponsePacketBody :=
  {| resp_makerCltvDelta := Some 50%float; resp_r_hash := hash0; resp_quantity := Some 2%float |}.

Definition response_zero : SwapResponsePacketBody :=
  {| resp_makerCltvDelta := Some 50%float; resp_r_hash := hash0; resp_quantity := Some 0%float |}.

(** The maker side: a request for quantity 1 whose amounts are not the ones
    of that quantity, accepted for quantity 1 at price 1/4. *)
Definition request0 : SwapRequestPacket_t :=
  {| request_body :=
       {| req_takerCurrency := "LTC";
          req_makerCurrency := "BTC";
          req_takerAmount := 25000000;
          req_makerAmount := 5;
          req_takerCltvDelta := 576;
          req_r_hash := "ab";
          req_orderId := "O1";
          req_pairId := "LTC/BTC";
          req_proposedQuantity := 1 |};
     request_id := "req-1" |}.

Definition order0 : OrderToAccept :=
  {| quantityToAccept := 1; ota_price := 0.25; localId := "M1" |}.

Definition maker1 : Swaps := (acceptDeal 2000 order0 request0 peerP (new_Swaps btc0 ltc0)).2.

(** The same request arrives a second time. *)
Definition maker2 : Swaps := (acceptDeal 2001 order0 request0 peerP maker1).2.

(** The route query of the first request answers with one route whose total
    time lock is 644, and the block height is found to be 500. *)
Definition route0 : Route := {| getTotalTimeLock := 644 |}.

Definition maker_routed : Swaps :=
  (with_deal 0 (acceptDeal_onRoutes LTC request0 peerP (Resolved [route0])) maker1).2.

Definition maker_agreed : Swaps :=
  (with_deal 0 (acceptDeal_onInfo 2002 btc0 ltc0 request0 peerP (Resolved 500%float))
     maker_routed).2.

(** ** Relations along the life of a deal object *)

(** The outputs logged for the deal object [r], in order. *)
Definition outputs_of (r : nat) (t : list (nat * Output)) : list Output :=
  omap (λ x : nat * Output, if decide (x.1 = r) then Some x.2 else None) t.

(** A stretch of code all of whose runs relate the deal before, the outputs
    and the deal after by [R]. *)
Definition keeps (R : SwapDeal → list Output → SwapDeal → Prop) {A} (m : DealM A) : Prop :=
  ∀ d, R d (m d).2 (m d).1.2.

(** What a relation needs to hold along every stretch of the handlers: it is
    a preorder over the logged outputs, the two operations of the state
    machine keep it, and so do a sent packet and the four assignments the
    handlers make to a deal directly. *)
Record Respected (R : SwapDeal → list Output → SwapDeal → Prop) : Prop := {
  resp_refl : ∀ d, R d [] d;
  resp_trans : ∀ d1 o1 d2 o2 d3, R d1 o1 d2 → R d2 o2 d3 → R d1 (o1 ++ o2) d3;
  resp_setDealState : ∀ reason, keeps R (setDealState Error reason);
  resp_setDealPhase : ∀ now newPhase, keeps R (setDealPhase now newPhase);
  resp_send : ∀ peer packet d, R d [sendPacket peer packet] d;
  resp_set_makerCltvDelta : ∀ v d, R d [] (set_makerCltvDelta v d);
  resp_set_quantity : ∀ v d, R d [] (set_quantity v d);
  resp_set_r_preimage : ∀ v d, R d [] (set_r_preimage v d);
  resp_set_makerToTakerRoutes : ∀ v d, R d [] (set_makerToTakerRoutes v d);
}.

(** The deal objects the coordinator creates. *)
Inductive born : SwapDeal → Prop :=
| born_beginSwap sha256 now btc ltc preimage peer maker taker :
    born (beginSwap_deal now preimage peer maker taker
            (beginSwap_body sha256 btc ltc preimage maker taker))
| born_acceptDeal now orderToAccept requestBody peer :
    born (acceptDeal_deal now orderToAccept requestBody peer).

(** [world_rel R s s']: from [s] to [s'] the log grows by [new], every deal
    object of [s] is related by [R] to what it is in [s'] through the outputs
    logged for it, and every object that is new in [s'] is so related to the
    record it was created as. *)
Definition world_rel (R : SwapDeal → list Output → SwapDeal → Prop) (s s' : Swaps) : Prop :=
  ∃ new,
    trace s' = trace s ++ new
    ∧ length (heap s) ≤ length (heap s')
    ∧ (∀ r o, (r, o) ∈ new → r < length (heap s'))
    ∧ (∀ r d, heap s !! r = Some d → ∃ d', heap s' !! r = Some d' ∧ R d (outputs_of r new) d')
    ∧ (∀ r d', length (heap s) ≤ r → heap s' !! r = Some d' →
               ∃ d0, born d0 ∧ R d0 (outputs_of r new) d').

(** The fields of a deal that no handler assigns after the creation. *)
Record same_identity (d d' : SwapDeal) : Prop := {
  same_myRole : myRole d' = myRole d;
  same_r_hash : r_hash d' = r_hash d;
  same_peerPubKey : peerPubKey d' = peerPubKey d;
  same_orderId : orderId d' = orderId d;
  same_localOrderId : localOrderId d' = localOrderId d;
  same_pairId : pairId d' = pairId d;
  same_proposedQuantity : proposedQuantity d' = proposedQuantity d;
  same_price : price d' = price d;
  same_takerAmount : takerAmount d' = takerAmount d;
  same_takerCurrency : takerCurrency d' = takerCurrency d;
  same_takerPubKey : takerPubKey d' = takerPubKey d;
  same_takerCltvDelta : takerCltvDelta d' = takerCltvDelta d;
  same_makerAmount : makerAmount d' = makerAmount d;
  same_makerCurrency : makerCurrency d' = makerCurrency d;
  same_createTime : createTime d' = createTime d;
}.

(** A [swap.paid] summary that carries the data of the deal [d]; the quantity
    is left out, a later response packet can assign it again. *)
Record describes (res : SwapResult) (d : SwapDeal) : Prop := {
  describes_orderId : res_orderId res = orderId d;
  describes_localId : res_localId res = localOrderId d;
  describes_pairId : res_pairId res = pairId d;
  describes_amountReceived : res_amountReceived res = makerAmount d;
  describes_amountSent : res_amountSent res = takerAmount d;
  describes_r_hash : res_r_hash res = r_hash d;
  describes_peerPubKey : res_peerPubKey res = peerPubKey d;
  describes_role : res_role res = myRole d;
}.

Definition identity_rel (d : SwapDeal) (out : list Output) (d' : SwapDeal) : Prop :=
  same_identity d d' ∧ ∀ res, emit_swap_paid res ∈ out → describes res d.

(** The phase the assertions of [setDealPhase] let a deal of a role enter
    after a phase. *)
Definition next_phase (role : SwapDealRole) (p : SwapDealPhase) : option SwapDealPhase :=
  match role, p with
  | Taker, SwapCreated => Some SwapRequested
  | Maker, SwapCreated => Some SwapAgreed
  | Taker, SwapRequested => Some AmountSent
  | Maker, SwapAgreed => Some AmountSent
  | _, AmountSent => Some AmountReceived
  | _, AmountReceived => Some SwapCompleted
  | _, _ => None
  end.

(** [p'] is [p] or comes after it in at most [n] such moves. *)
Fixpoint path_from (n : nat) (role : SwapDealRole) (p p' : SwapDealPhase) : bool :=
  phase_eqb p p'
  || match n, next_phase role p with
     | S n', Some q => path_from n' role q p'
     | _, _ => false
     end.

(** No path has more than four moves. *)
Definition phase_path (role : SwapDealRole) (p p' : SwapDealPhase) : Prop :=
  path_from 4 role p p' = true.

Definition path_rel (d : SwapDeal) (out : list Output) (d' : SwapDeal) : Prop :=
  myRole d' = myRole d ∧ phase_path (myRole d) (phase d) (phase d').



(** Every entry of the registry leads to a deal object with that r_hash. *)
Definition registry_ok (s : Swaps) : Prop :=
  ∀ h r, getDeal h s = Some r → ∃ d, heap s !! r = Some d ∧ r_hash d = h.

(** ** Closed forms of the state machine's moves *)

(** The summary [setDealPhase] emits with [swap.paid]. *)
Definition swapResult_of (d : SwapDeal) : SwapResult :=
  {| res_orderId := orderId d;
     res_localId := localOrderId d;
     res_pairId := pairId d;
     res_quantity := quantity d;
     res_amountReceived := makerAmount d;
     res_amountSent := takerAmount d;
     res_r_hash := r_hash d;
     res_peerPubKey := peerPubKey d;
     res_role := myRole d |}.

(** [newPhase] is the next phase of an [Active] deal on the path of its
    role. *)
Definition legal_move (d : SwapDeal) (newPhase : SwapDealPhase) : bool :=
  state_eqb (state d) Active
  && match next_phase (myRole d) (phase d) with
     | Some q => phase_eqb q newPhase
     | None => false
     end.

(** The deal after a legal move, and what the move emits. *)
Definition advance (now : number) (newPhase : SwapDealPhase) (d : SwapDeal) : SwapDeal :=
  match newPhase with
  | AmountSent => set_phase AmountSent (set_executeTime (Some now) d)
  | SwapCompleted =>
      set_phase SwapCompleted
        (set_stateReason ("Swap completed. preimage = " +:+ to_string (r_preimage d))
           (set_state Completed (set_competionTime (Some now) d)))
  | _ => set_phase newPhase d
  end.

Definition advance_out (newPhase : SwapDealPhase) (d : SwapDeal) : list Output :=
  match newPhase with
  | AmountReceived => [emit_swap_paid (swapResult_of d)]
  | _ => []
  end.

(** The message of the assertion an illegal move fails. *)
Definition illegal_move_message (d : SwapDeal) (newPhase : SwapDealPhase) : string :=
  if negb (state_eqb (state d) Active) then "deal is not Active. Can not change deal phase"
  else
    match newPhase with
    | SwapCreated => "can not set deal phase to SwapCreated."
    | SwapRequested =>
        if role_eqb (myRole d) Taker then "SwapRequested can be only be set after SwapCreated"
        else "SwapRequested can only be set by the taker"
    | SwapAgreed =>
        if role_eqb (myRole d) Maker then "SwapAgreed can be only be set after SwapCreated"
        else "SwapAgreed can only be set by the maker"
    | AmountSent =>
        "AmountSent can only be set after SwapRequested (taker) or SwapAgreed (maker)"
    | AmountReceived => "AmountReceived can be only be set after AmountSent"
    | SwapCompleted => "SwapCompleted can be only be set after AmountReceived"
    end.

(** What the first error report on a deal emits. *)
Definition failed_out (d : SwapDeal) : list Output :=
  match state d with
  | Active => [emit_swap_failed]
  | _ => []
  end.

(** The coordinator after a stretch of code left the deal object [r] as [d']
    and logged [out]. *)
Definition update_deal (r : nat) (d' : SwapDeal) (out : list Output) (s : Swaps) : Swaps :=
  set_trace (trace s ++ ((λ o, (r, o)) <$> out)) (set_heap (<[r := d']> (heap s)) s).

(** ** Closed forms of the maker's stretches *)

(** Why the first stretch of [acceptDeal] refuses a request, if it does. *)
Definition acceptDeal_refusal (btc ltc : LndClient) (deal : SwapDeal) (peer : Peer)
  : option string :=
  match verifyLndSetup btc ltc deal peer with
  | Some errMsg => Some errMsg
  | None =>
      match chain_of (takerCurrency deal) with
      | Some _ => None
      | None => Some "Can not swap. Unsupported taker currency."
      end
  end.

(** The swap-error packet of a refusal. *)
Definition refusal_packet (deal : SwapDeal) (peer : Peer) (reqId reason : string)
  : Output :=
  sendPacket (nodePubKey peer)
    (SwapErrorPacket {| err_r_hash := r_hash deal; err_errorMessage := reason |} (Some reqId)).

(** The CLTV delta [acceptDeal] computes for the maker's leg: the scaled
    route delta on top of the maker chain's own delta, and what the deal held
    before when the maker currency is neither BTC nor LTC. *)
Definition makerCltvDelta_after (btc ltc : LndClient) (makerCurrency : string)
    (routeCltvDelta : number) (before : option number) : option number :=
  let cltvDeltaFactor := (cltvDelta ltc / cltvDelta btc)%float in
  match chain_of makerCurrency with
  | Some BTC => Some (cltvDelta btc + routeCltvDelta / cltvDeltaFactor)%float
  | Some LTC => Some (cltvDelta ltc + routeCltvDelta * cltvDeltaFactor)%float
  | None => before
  end.

(** ** Closed forms of the taker's and the resolver's stretches *)

(** What [handleSwapResponse] assigns to the deal from the response packet:
    the maker's CLTV delta always, the quantity when it is truthy. *)
Definition record_response (body : SwapResponsePacketBody) (d : SwapDeal) : SwapDeal :=
  let d1 := set_makerCltvDelta (resp_makerCltvDelta body) d in
  match resp_quantity body with
  | Some quantity => if truthy quantity then set_quantity (Some quantity) d1 else d1
  | None => d1
  end.

(** The payment request of the taker. *)
Definition payment_request (peer : Peer) (d : SwapDeal) : SendRequest :=
  {| getAmt := makerAmount d;
     getDestString := getLndPubKey peer (makerCurrency d);
     getPaymentHashString := r_hash d;
     getFinalCltvDelta := makerCltvDelta d |}.

(** The swap-error packet the taker sends outside of a request. *)
Definition error_packet (peer : Peer) (r_hash reason : string) : Output :=
  sendPacket (nodePubKey peer)
    (SwapErrorPacket {| err_r_hash := r_hash; err_errorMessage := reason |} None).

(** The client on which the maker forwards the payment to the taker. *)
Definition forwarding_client (makerCurrency : string) : Chain :=
  match chain_of makerCurrency with
  | Some LTC => BTC
  | _ => LTC
  end.

(** Both checks of [validateRequest] pass. *)
Definition htlc_valid (resolveRequest : ResolveRequest) (d : SwapDeal) : Prop :=
  amount_too_small resolveRequest d || timelock_too_small resolveRequest d = false.

(** ** The maker's run, continued *)

(** The taker's HTLC for the maker's deal, and the coordinator while the
    maker forwards the payment. *)
Definition htlc_maker : ResolveRequest :=
  {| getHash := "ab"; getAmount := 5000; getTimeout := 590; getHeightNow := 500 |}.

Definition maker_forwarding : Swaps := (resolveHash 2003 htlc_maker maker_agreed).2.

(** The answer of the forwarded payment, with the preimage. *)
Definition forward_paid : SendResponse :=
  {| getPaymentError := ""; getPaymentPreimage := [Byte.x0c; Byte.xd0] |}.

(** ** Strings *)

Lemma append_nil_r (s : string) : s +:+ "" = s.
Proof. induction s as [|a s IH]; [done|]. cbv [String.append]. fold String.append. by rewrite IH. Qed.

Lemma append_assoc (s1 s2 s3 : string) : (s1 +:+ s2) +:+ s3 = s1 +:+ s2 +:+ s3.
Proof.
  induction s1 as [|a s1 IH]; [done|].
  cbv [String.append]. fold String.append. by rewrite IH.
Qed.

Lemma append_reasons_app (l1 l2 : list string) :
  append_reasons (l1 ++ l2) = append_reasons l1 +:+ append_reasons l2.
Proof.
  induction l1 as [|r l1 IH]; [done|].
  cbn [append_reasons app]. by rewrite IH, !append_assoc.
Qed.

(** ** Counting outputs *)

Lemma count_out_app p (o1 o2 : list Output) :
  count_out p (o1 ++ o2) = count_out p o1 + count_out p o2.
Proof. unfold count_out. by rewrite List.filter_app, length_app. Qed.

Lemma emitted_app p r (t1 t2 : list (nat * Output)) :
  emitted p r (t1 ++ t2) = emitted p r t1 + emitted p r t2.
Proof.
  induction t1 as [|[r' o] t1 IH]; [done|].
  cbn [emitted app]. rewrite IH. lia.
Qed.

Lemma emitted_tagged p r (out : list Output) :
  emitted p r ((λ o, (r, o)) <$> out) = count_out p out.
Proof.
  unfold count_out. induction out as [|o out IH]; [done|].
  cbn [fmap list_fmap emitted List.filter]. rewrite bool_decide_eq_true_2 by done.
  cbn [andb]. destruct (p o); cbn [length]; rewrite <- IH; done.
Qed.

Lemma emitted_tagged_ne p r r' (out : list Output) :
  r' ≠ r → emitted p r ((λ o, (r', o)) <$> out) = 0.
Proof.
  intros Hne. induction out as [|o out IH]; [done|].
  cbn [fmap list_fmap emitted]. rewrite bool_decide_eq_false_2 by done. done.
Qed.

Lemma emitted_out_of_bound p r (t : list (nat * Output)) (n : nat) :
  (∀ r' o, (r', o) ∈ t → r' < n) → n ≤ r → emitted p r t = 0.
Proof.
  intros Hb Hr. induction t as [|[r' o] t IH]; [done|].
  cbn [emitted]. rewrite bool_decide_eq_false_2.
  - cbn [andb]. apply IH. intros r0 o0 Hin. apply (Hb r0 o0). by right.
  - intros ->. assert (r < n) by (apply (Hb r o); by left). lia.
Qed.

(** ** The monad preserves [evolves] *)

Lemma evolves_refl d : evolves d [] d.
Proof.
  split; try done.
  - intros _. exists []. by rewrite append_nil_r.
Qed.

Lemma evolves_trans d1 o1 d2 o2 d3 :
  evolves d1 o1 d2 → evolves d2 o2 d3 → evolves d1 (o1 ++ o2) d3.
Proof.
  intros [] []. split; try congruence.
  - rewrite count_out_app. lia.
  - rewrite count_out_app. lia.
  - intros Hna. destruct (ev_frozen0 Hna) as [Hs Hp].
    destruct ev_frozen1 as [Hs' Hp']; [congruence|]. split; congruence.
  - auto.
  - intros Hc. destruct (ev_frozen0) as [Hs Hp]; [by rewrite Hc|].
    rewrite ev_reason_completed1 by congruence. auto.
  - intros He. destruct (ev_frozen0) as [Hs Hp]; [by rewrite He|].
    destruct (ev_reason_error0 He) as [l1 H1].
    destruct ev_reason_error1 as [l2 H2]; [congruence|].
    exists (l1 ++ l2). by rewrite H2, H1, append_reasons_app, append_assoc.
Qed.

Lemma preserves_ret {A} (a : A) : preserves (mret a).
Proof. intros d. apply evolves_refl. Qed.

Lemma preserves_throw {A} e : preserves (@throw A e).
Proof. intros d. apply evolves_refl. Qed.

Lemma preserves_get : preserves get.
Proof. intros d. apply evolves_refl. Qed.

Lemma preserves_assert b msg : preserves (assert b msg).
Proof. destruct b; intros d; apply evolves_refl. Qed.

Lemma preserves_bind {A B} (m : DealM A) (k : A → DealM B) :
  preserves m → (∀ a, preserves (k a)) → preserves (m ≫= k).
Proof.
  intros Hm Hk d. specialize (Hm d).
  unfold mbind, DealM_bind, bind.
  destruct (m d) as [[[a|e] d1] o1]; cbn [fst snd] in *.
  - specialize (Hk a d1). destruct (k a d1) as [[r d2] o2]; cbn [fst snd] in *.
    by eapply evolves_trans.
  - done.
Qed.

Lemma preserves_try_catch {A} (m : DealM A) (h : Exn → DealM A) :
  preserves m → (∀ e, preserves (h e)) → preserves (try_catch m h).
Proof.
  intros Hm Hh d. specialize (Hm d). unfold try_catch.
  destruct (m d) as [[[a|e] d1] o1]; cbn [fst snd] in *.
  - done.
  - specialize (Hh e d1). destruct (h e d1) as [[r d2] o2]; cbn [fst snd] in *.
    by eapply evolves_trans.
Qed.

Lemma preserves_send peer packet : preserves (tell (sendPacket peer packet)).
Proof. intros d. split; try done. intros _. exists []. by rewrite append_nil_r. Qed.

(** Assignments to the fields the state machine does not look at. *)
Lemma preserves_modify (f : SwapDeal → SwapDeal) :
  (∀ d, myRole (f d) = myRole d ∧ r_hash (f d) = r_hash d
        ∧ makerAmount (f d) = makerAmount d ∧ takerAmount (f d) = takerAmount d
        ∧ proposedQuantity (f d) = proposedQuantity d ∧ price (f d) = price d
        ∧ phase (f d) = phase d ∧ state (f d) = state d
        ∧ stateReason (f d) = stateReason d) →
  preserves (modify f).
Proof.
  intros Hf d. destruct (Hf d) as (?&?&?&?&?&?&Hp&Hs&Hr). cbn [modify fst snd].
  split; try done.
  - unfold paid_done. by rewrite Hp.
  - unfold failed_done. by rewrite Hs.
  - by rewrite Hs, Hp.
  - exists []. by rewrite append_nil_r.
Qed.

Lemma preserves_setDealState_Error reason : preserves (setDealState Error reason).
Proof.
  intros d. unfold setDealState, mbind, DealM_bind, bind, get, modify, assert, tell, mret,
    DealM_ret, ret, throw.
  destruct (state d) eqn:Hs; cbn.
  - split; cbn; try done; unfold failed_done, paid_done; cbn; rewrite ?Hs; try done.
    intros [_ H]. split; [done|]. intros Hp. by specialize (H Hp).
  - split; cbn; try done; unfold failed_done, paid_done; cbn; rewrite ?Hs; try done.
    intros _. exists [reason]. cbn. by rewrite append_nil_r.
  - split; cbn; try done. intros; exists []. by rewrite append_nil_r.
Qed.

Lemma preserves_setDealPhase now newPhase : preserves (setDealPhase now newPhase).
Proof.
  intros d. unfold setDealPhase, setDealState, mbind, DealM_bind, bind, get, modify, assert, tell,
    mret, DealM_ret, ret, throw.
  destruct (state d) eqn:Hs; cbn;
    [|split; cbn; try done; intros; exists []; by rewrite append_nil_r..].
  destruct newPhase, (myRole d) eqn:Hr, (phase d) eqn:Hp; cbn; rewrite ?Hs; cbn;
    (split; cbn; unfold failed_done, paid_done; cbn; rewrite ?Hs, ?Hp; try done;
     intros [H1 H2]; split; done).
Qed.

(** ** Every stretch of the handlers preserves [evolves] *)

Ltac preserves_step :=
  first
    [ apply preserves_ret
    | apply preserves_throw
    | apply preserves_get
    | apply preserves_assert
    | apply preserves_send
    | apply preserves_setDealState_Error
    | apply preserves_setDealPhase
    | apply preserves_modify; intros ?; cbn; done
    | apply preserves_bind; [|intros ?]
    | apply preserves_try_catch; [|intros ?]
    | match goal with
      | |- preserves (match ?x with _ => _ end) => destruct x
      end ].

Ltac solve_preserves := repeat preserves_step.

Lemma preserves_acceptDeal_fail peer reqId reason :
  preserves (acceptDeal_fail peer reqId reason).
Proof. unfold acceptDeal_fail, sendErrorToPeer. solve_preserves. Qed.

Lemma preserves_beginSwap_sync now btc ltc peer body :
  preserves (beginSwap_sync now btc ltc peer body).
Proof. unfold beginSwap_sync. solve_preserves. Qed.

Lemma preserves_acceptDeal_sync btc ltc requestPacket peer :
  preserves (acceptDeal_sync btc ltc requestPacket peer).
Proof.
  unfold acceptDeal_sync. apply preserves_bind; [solve_preserves|intros deal].
  destruct (truthy_str _); [apply preserves_acceptDeal_fail|].
  destruct (chain_of _); [solve_preserves|apply preserves_acceptDeal_fail].
Qed.

Lemma preserves_acceptDeal_onRoutes lndclient requestPacket peer routes :
  preserves (acceptDeal_onRoutes lndclient requestPacket peer routes).
Proof.
  unfold acceptDeal_onRoutes. apply preserves_try_catch.
  - destruct routes; [|solve_preserves].
    apply preserves_bind; [solve_preserves|intros _].
    destruct (_ =? _)%nat; [apply preserves_acceptDeal_fail|solve_preserves].
  - intros e. apply preserves_acceptDeal_fail.
Qed.

Lemma preserves_acceptDeal_onInfo now btc ltc requestPacket peer info :
  preserves (acceptDeal_onInfo now btc ltc requestPacket peer info).
Proof.
  unfold acceptDeal_onInfo. destruct info; [|apply preserves_acceptDeal_fail].
  solve_preserves.
Qed.

Lemma preserves_handleSwapResponse_sync now body peer :
  preserves (handleSwapResponse_sync now body peer).
Proof. unfold handleSwapResponse_sync, sendErrorToPeer. solve_preserves. Qed.

Lemma preserves_handleSwapResponse_onSent now body peer response :
  preserves (handleSwapResponse_onSent now body peer response).
Proof. unfold handleSwapResponse_onSent, sendErrorToPeer. solve_preserves. Qed.

Lemma preserves_validateRequest resolveRequest : preserves (validateRequest resolveRequest).
Proof. unfold validateRequest. solve_preserves. Qed.

Lemma preserves_resolveHash_sync now resolveRequest :
  preserves (resolveHash_sync now resolveRequest).
Proof.
  unfold resolveHash_sync. apply preserves_bind; [apply preserves_validateRequest|intros valid].
  solve_preserves.
Qed.

Lemma preserves_resolveHash_onSent now response : preserves (resolveHash_onSent now response).
Proof. unfold resolveHash_onSent. solve_preserves. Qed.

(** ** Running a stretch of code on the heap *)

Lemma with_deal_Some {A} r (m : DealM A) s d :
  heap s !! r = Some d →
  with_deal r m s
  = ((m d).1.1,
     set_trace (trace s ++ ((λ o, (r, o)) <$> (m d).2)) (set_heap (<[r := (m d).1.2]> (heap s)) s)).
Proof. intros H. unfold with_deal. rewrite H. by destruct (m d) as [[res d'] out]. Qed.

Lemma with_deal_None {A} r (m : DealM A) s :
  heap s !! r = None → with_deal r m s = (Throw (TypeError "not an object"), s).
Proof. intros H. unfold with_deal. by rewrite H. Qed.

Lemma addDeal_base r s : rtc base_step s (addDeal r s).
Proof.
  unfold addDeal. destruct (heap s !! r); [|done].
  by apply rtc_once, base_frame.
Qed.

Lemma beginSwap_deal_fresh sha256 now btc ltc preimage peer maker taker :
  fresh_deal (beginSwap_deal now preimage peer maker taker
                (beginSwap_body sha256 btc ltc preimage maker taker)).
Proof.
  split; [done..|]. intros _. unfold amounts_as_proposed, beginSwap_body.
  by destruct (calculateSwapAmounts _ _).
Qed.

Lemma acceptDeal_deal_fresh now orderToAccept requestBody peer :
  fresh_deal (acceptDeal_deal now orderToAccept requestBody peer).
Proof. split; done. Qed.

(** Every step of the coordinator is a sequence of elementary changes. *)
Lemma step_base sha256 s s' : step sha256 s s' → rtc base_step s s'.
Proof.
  destruct 1.
  - unfold executeSwap. destruct (negb _); [done|].
    unfold beginSwap, new_deal.
    eapply rtc_l; [apply base_alloc, (beginSwap_deal_fresh sha256)|].
    etrans; [apply addDeal_base|].
    apply rtc_once, base_run, preserves_beginSwap_sync.
  - unfold acceptDeal, new_deal.
    eapply rtc_l; [apply base_alloc, acceptDeal_deal_fresh|].
    etrans; [apply addDeal_base|].
    apply rtc_once, base_run, preserves_acceptDeal_sync.
  - apply rtc_once, base_run, preserves_acceptDeal_onRoutes.
  - apply rtc_once, base_run, preserves_acceptDeal_onInfo.
  - unfold handleSwapResponse. destruct (getDeal _ _); [|done].
    apply rtc_once, base_run, preserves_handleSwapResponse_sync.
  - apply rtc_once, base_run, preserves_handleSwapResponse_onSent.
  - unfold resolveHash. destruct (getDeal _ _); [|done].
    apply rtc_once, base_run, preserves_resolveHash_sync.
  - apply rtc_once, base_run, preserves_resolveHash_onSent.
  - unfold handleSwapComplete. destruct (getDeal _ _); [|done].
    apply rtc_once, base_run, preserves_setDealPhase.
  - unfold handleSwapError. destruct (getDeal _ _); [|done].
    apply rtc_once, base_run, preserves_setDealState_Error.
  - unfold removeDeal. destruct (heap s !! r); [|done].
    by apply rtc_once, base_frame.
  - by apply rtc_once, base_frame.
Qed.

Lemma base_step_inv s s' : coordinator_inv s → base_step s s' → coordinator_inv s'.
Proof.
  intros [Hb Hd] Hstep. destruct Hstep as [s' Hh Ht|d0 Hfresh|A r m Hm].
  - split; rewrite ?Hh, ?Ht; done.
  - split; cbn [trace heap set_heap].
    + intros r o Hin. rewrite length_app. specialize (Hb r o Hin). lia.
    + intros r d Hl. destruct (decide (r < length (heap s))) as [Hlt|Hge].
      * rewrite lookup_app_l in Hl by done. auto.
      * rewrite lookup_app_r in Hl by lia.
        destruct (r - length (heap s)) eqn:E; [|by destruct n].
        cbn in Hl. injection Hl as <-. destruct Hfresh.
        split; rewrite ?(emitted_out_of_bound _ r _ (length (heap s))) by (auto; lia).
        -- unfold paid_done. by rewrite fresh_phase0.
        -- unfold failed_done. by rewrite fresh_state0.
        -- by rewrite fresh_state0, fresh_phase0.
        -- done.
  - destruct (heap s !! r) as [d|] eqn:Hr.
    2:{ rewrite with_deal_None by done. by split. }
    rewrite with_deal_Some with (d := d) by done. specialize (Hm d).
    pose proof (lookup_lt_Some _ _ _ Hr) as Hlt.
    split; cbn [snd trace heap set_heap set_trace].
    + intros r0 o Hin. rewrite length_insert. apply elem_of_app in Hin as [Hin|Hin]; [eauto|].
      apply list_elem_of_fmap in Hin as (o' & [= -> ->] & _). done.
    + intros r0 d0 Hl. destruct (decide (r0 = r)) as [->|Hne].
      * rewrite list_lookup_insert_eq in Hl by done. injection Hl as <-.
        destruct (Hd r d Hr). destruct Hm.
        split; rewrite ?emitted_app, ?emitted_tagged.
        -- lia.
        -- lia.
        -- auto.
        -- intros Hrole. unfold amounts_as_proposed in *.
           rewrite ev_takerAmount0, ev_makerAmount0, ev_proposed0, ev_price0. apply inv_amounts0.
           congruence.
      * rewrite list_lookup_insert_ne in Hl by done.
        destruct (Hd r0 d0 Hl).
        split; rewrite ?emitted_app, ?emitted_tagged_ne by done; try done; lia.
Qed.

Lemma frozen_refl s r d : heap s !! r = Some d → frozen s s r d.
Proof.
  intros H. split; [|done..]. exists d. split_and!; try done.
  intros _. exists []. by rewrite append_nil_r.
Qed.

Lemma frozen_trans s1 s2 s3 r d :
  state d ≠ Active →
  frozen s1 s2 r d →
  (∀ d', heap s2 !! r = Some d' → state d' ≠ Active → frozen s2 s3 r d') →
  frozen s1 s3 r d.
Proof.
  intros Hna [(d2 & Hl2 & Hp2 & Hs2 & Hc2 & He2) Hpaid2 Hfailed2] H23.
  destruct (H23 d2 Hl2) as [(d3 & Hl3 & Hp3 & Hs3 & Hc3 & He3) Hpaid3 Hfailed3]; [congruence|].
  split; [|congruence..].
  exists d3. split_and!; try congruence.
  - intros Hc. rewrite Hc3 by congruence. auto.
  - intros He. destruct (He2 He) as [l2 E2]. destruct He3 as [l3 E3]; [congruence|].
    exists (l2 ++ l3). by rewrite E3, E2, append_reasons_app, append_assoc.
Qed.

Lemma base_step_frozen s s' r d :
  base_step s s' → heap s !! r = Some d → state d ≠ Active → frozen s s' r d.
Proof.
  intros Hstep Hl Hna. destruct Hstep as [s' Hh Ht|d0 Hfresh|A r0 m Hm].
  - split; rewrite ?Hh, ?Ht; [|done..]. exists d. split_and!; try done.
    intros _. exists []. by rewrite append_nil_r.
  - split; [|done..]. exists d. cbn [heap set_heap]. split_and!; try done.
    + rewrite lookup_app_l; [done|]. by eapply lookup_lt_Some.
    + intros _. exists []. by rewrite append_nil_r.
  - destruct (heap s !! r0) as [d0|] eqn:Hr0.
    2:{ rewrite with_deal_None by done. by apply frozen_refl. }
    rewrite with_deal_Some with (d := d0) by done. specialize (Hm d0).
    pose proof (lookup_lt_Some _ _ _ Hr0) as Hlt.
    destruct (decide (r = r0)) as [->|Hne].
    + assert (d0 = d) as -> by congruence. destruct Hm.
      destruct (ev_frozen0 Hna) as [Hs Hp].
      split; cbn [snd trace heap set_heap set_trace]; rewrite ?emitted_app, ?emitted_tagged.
      * eexists. rewrite list_lookup_insert_eq by done. split_and!; done.
      * unfold paid_done in ev_paid0. rewrite Hp in ev_paid0. lia.
      * unfold failed_done in ev_failed0. rewrite Hs in ev_failed0. lia.
    + split; cbn [snd trace heap set_heap set_trace];
        rewrite ?emitted_app, ?emitted_tagged_ne by done; [|lia..].
      exists d. rewrite list_lookup_insert_ne by done. split_and!; try done.
      intros _. exists []. by rewrite append_nil_r.
Qed.

Lemma rtc_base_inv s s' : rtc base_step s s' → coordinator_inv s → coordinator_inv s'.
Proof. induction 1; eauto using base_step_inv. Qed.

Lemma rtc_base_frozen s s' :
  rtc base_step s s' →
  ∀ r d, heap s !! r = Some d → state d ≠ Active → frozen s s' r d.
Proof.
  induction 1 as [s|s1 s2 s3 H12 H23 IH]; intros r d Hl Hna.
  - by apply frozen_refl.
  - eapply frozen_trans; [done|by apply base_step_frozen|]. intros d' Hl' Hna'. by apply IH.
Qed.

Lemma new_Swaps_inv btc ltc : coordinator_inv (new_Swaps btc ltc).
Proof. split; cbn; intros ??; [by intros ?%elem_of_nil|done]. Qed.

Lemma rtc_step_base sha256 s s' : rtc (step sha256) s s' → rtc base_step s s'.
Proof. induction 1 as [|s1 s2 s3 H12 H23 IH]; [done|]. etrans; [by eapply step_base|done]. Qed.

Lemma reachable_inv sha256 btc ltc s : reachable sha256 btc ltc s → coordinator_inv s.
Proof.
  intros H. eapply rtc_base_inv; [by eapply rtc_step_base|apply new_Swaps_inv].
Qed.

(** ** The resolver's validation *)

Ltac run_deal :=
  unfold setDealPhase, setDealState, mbind, DealM_bind, bind, get, modify, assert, tell, mret,
    DealM_ret, ret, throw, try_catch.

Lemma validateRequest_valid resolveRequest d :
  amount_too_small resolveRequest d || timelock_too_small resolveRequest d = false →
  validateRequest resolveRequest d = (Ok true, d, []).
Proof.
  intros [Ha Ht]%orb_false_elim.
  unfold amount_too_small, timelock_too_small, expectedAmount_msat, requiredCltvDelta in *.
  unfold validateRequest. run_deal. unfold gt, lt in *.
  destruct (myRole d); cbn; rewrite Ha, Ht; done.
Qed.

Lemma validateRequest_invalid resolveRequest d :
  state d ≠ Completed →
  amount_too_small resolveRequest d || timelock_too_small resolveRequest d = true →
  validateRequest resolveRequest d
  = (Ok false, report_error (validation_reason resolveRequest d) d,
     match state d with Active => [emit_swap_failed] | _ => [] end).
Proof.
  intros Hs Hor.
  unfold validation_reason, report_error.
  unfold amount_too_small, timelock_too_small, expectedAmount_msat, requiredCltvDelta in *.
  unfold validateRequest. run_deal. unfold gt, lt in *.
  destruct (myRole d); cbn;
    destruct (PrimFloat.ltb (getAmount resolveRequest) _) eqn:Ha; cbn in Hor |- *;
    rewrite ?Hor; destruct (state d) eqn:Hst; cbn; done.
Qed.

Lemma report_error_state reason d : state (report_error reason d) = Error.
Proof. unfold report_error. by destruct (state d) eqn:Hs. Qed.

(** C1 (as amended): for a deal found by [resolveHash] that is not
    [Completed], an HTLC whose amount in msat is below the role's expected
    amount times 1000, or whose timeout minus the current height is below the
    role's required CLTV delta, leaves the deal in state [Error] and makes
    [resolveHash] return the deal's reason string; when both checks pass,
    validation returns [true] and changes nothing. *)
Theorem resolveHash_validation now resolveRequest s r d :
  getDeal (getHash resolveRequest) s = Some r →
  heap s !! r = Some d →
  state d ≠ Completed →
  (amount_too_small resolveRequest d || timelock_too_small resolveRequest d = true →
   let d' := report_error (validation_reason resolveRequest d) d in
   (resolveHash now resolveRequest s).1 = Ok (Return (Some (stateReason d')))
   ∧ heap (resolveHash now resolveRequest s).2 !! r = Some d'
   ∧ state d' = Error)
  ∧ (amount_too_small resolveRequest d || timelock_too_small resolveRequest d = false →
     validateRequest resolveRequest d = (Ok true, d, [])).
Proof.
  intros Hget Hl Hs. split; [|apply validateRequest_valid].
  intros Hbad d'. unfold resolveHash. rewrite Hget, (with_deal_Some _ _ _ d) by done.
  pose proof (lookup_lt_Some _ _ _ Hl) as Hlt.
  assert (resolveHash_sync now resolveRequest d
          = (Ok (Return (Some (stateReason d'))), d',
             match state d with Active => [emit_swap_failed] | _ => [] end)) as ->.
  { unfold resolveHash_sync. unfold mbind at 1, DealM_bind at 1, bind at 1.
    rewrite validateRequest_invalid by done. run_deal. cbn. by rewrite app_nil_r. }
  cbn [fst snd heap set_heap set_trace]. rewrite list_lookup_insert_eq by done.
  split_and!; [done..|]. apply report_error_state.
Qed.


Lemma with_deal_unchanged {A} r (m : DealM A) s d res :
  heap s !! r = Some d → m d = (res, d, []) → with_deal r m s = (res, s).
Proof.
  intros Hl Hm. rewrite (with_deal_Some _ _ _ d), Hm by done. cbn [fst snd fmap list_fmap].
  rewrite list_insert_id, app_nil_r by done. by destruct s.
Qed.

(** ** Completion and error packets *)

(** C8: for an r_hash that has no entry in the registry,
    [handleSwapComplete] and [handleSwapError] return normally and leave the
    coordinator as it is: the registry, every deal object and the log of
    emitted events and sent packets are unchanged. *)
Theorem unknown_r_hash_is_a_no_op now r_hash errorMessage s :
  getDeal r_hash s = None →
  handleSwapComplete now r_hash s = (Ok (), s)
  ∧ handleSwapError {| err_r_hash := r_hash; err_errorMessage := errorMessage |} s = (Ok (), s).
Proof.
  intros Hget. unfold handleSwapComplete, handleSwapError. cbn [err_r_hash].
  by rewrite Hget.
Qed.

Lemma unknown_r_hash_is_a_no_op_witness :
  getDeal "00" taker3 = None
  ∧ handleSwapComplete 7 "00" taker3 = (Ok (), taker3)
  ∧ handleSwapError {| err_r_hash := "00"; err_errorMessage := "late" |} taker3 = (Ok (), taker3).
Proof.
  assert (getDeal "00" taker3 = None) as H by (vm_compute; reflexivity).
  split; [exact H|]. exact (unknown_r_hash_is_a_no_op 7 "00" "late" taker3 H).
Defined.

(** C9: for a deal found in the registry that is not [Active] or whose phase
    is not [AmountReceived], [handleSwapComplete] ends in the assertion
    failure of [setDealPhase]; the deal is neither set to [Error] nor does the
    handler return normally, and nothing is changed or emitted. *)
Theorem handleSwapComplete_asserts now r_hash s r d :
  getDeal r_hash s = Some r →
  heap s !! r = Some d →
  state d ≠ Active ∨ phase d ≠ AmountReceived →
  handleSwapComplete now r_hash s
  = (Throw (AssertionError
              (if state_eqb (state d) Active
               then "SwapCompleted can be only be set after AmountReceived"
               else "deal is not Active. Can not change deal phase")), s).
Proof.
  intros Hget Hl Hor. unfold handleSwapComplete. rewrite Hget.
  apply with_deal_unchanged with (d := d); [done|].
  run_deal. destruct (state d) eqn:Hs; cbn; [|done..].
  destruct (phase d) eqn:Hp; cbn; [done..| |done].
  destruct Hor; congruence.
Qed.

Lemma handleSwapComplete_asserts_witness :
  handleSwapComplete 1003 hash0 taker2
  = (Throw (AssertionError "SwapCompleted can be only be set after AmountReceived"), taker2).
Proof.
  refine (eq_trans
            (handleSwapComplete_asserts 1003 hash0 taker2 0
               (default (acceptDeal_deal 0 order0 (request_body request0) peerP)
                  (heap taker2 !! 0)) _ _ _) _).
  - vm_compute. reflexivity.
  - vm_compute. reflexivity.
  - right. vm_compute. discriminate.
  - vm_compute. reflexivity.
Defined.

(** ** The registry *)

Lemma acceptDeal_unfold now orderToAccept requestPacket peer s :
  let d0 := acceptDeal_deal now orderToAccept (request_body requestPacket) peer in
  let m := acceptDeal_sync (lndBtcClient s) (lndLtcClient s) requestPacket peer in
  acceptDeal now orderToAccept requestPacket peer s
  = ((m d0).1.1,
     {| heap := heap s ++ [(m d0).1.2];
        deals := <[req_r_hash (request_body requestPacket) := length (heap s)]> (deals s);
        lndBtcClient := lndBtcClient s;
        lndLtcClient := lndLtcClient s;
        trace := trace s ++ ((λ o, (length (heap s), o)) <$> (m d0).2) |}).
Proof.
  intros d0 m. unfold acceptDeal, new_deal.
  assert (heap (set_heap (heap s ++ [d0]) s) !! length (heap s) = Some d0) as Hnew.
  { cbn [heap set_heap]. by rewrite lookup_app_r, Nat.sub_diag. }
  unfold addDeal. fold d0. rewrite Hnew.
  rewrite (with_deal_Some _ _ _ d0) by done. fold m.
  cbn [heap set_heap set_deals set_trace deals trace lndBtcClient lndLtcClient r_hash d0
       acceptDeal_deal].
  f_equal. f_equal.
  replace (length (heap s)) with (length (heap s) + 0) at 1 by lia.
  by rewrite insert_app_r.
Qed.

(** C10: [addDeal] of a deal whose r_hash is already in the registry puts
    the new deal object in the place of the old one and has no error to
    report; [acceptDeal] registers its new deal without looking for an entry,
    so a second request with the r_hash of a registered deal makes the
    registry point to the new deal, whatever the outcome of the call, and the
    old deal object is out of the registry, itself unchanged. *)
Theorem duplicate_r_hash_overwrites now orderToAccept requestPacket peer s r d :
  let h := req_r_hash (request_body requestPacket) in
  let s' := (acceptDeal now orderToAccept requestPacket peer s).2 in
  getDeal h s = Some r →
  heap s !! r = Some d →
  (∀ r' d', heap s !! r' = Some d' → r_hash d' = h →
            getDeal h (addDeal r' s) = Some r'
            ∧ heap (addDeal r' s) = heap s ∧ trace (addDeal r' s) = trace s)
  ∧ getDeal h s' = Some (length (heap s))
  ∧ length (heap s) ≠ r
  ∧ heap s' !! r = Some d
  ∧ (∃ d', heap s' !! length (heap s) = Some d' ∧ myRole d' = Maker ∧ r_hash d' = h)
  ∧ (acceptDeal now orderToAccept requestPacket peer s).1
    = (acceptDeal_sync (lndBtcClient s) (lndLtcClient s) requestPacket peer
         (acceptDeal_deal now orderToAccept (request_body requestPacket) peer)).1.1.
Proof.
  intros h s' Hget Hl. pose proof (lookup_lt_Some _ _ _ Hl) as Hlt.
  split.
  { intros r' d' Hl' Hh. unfold addDeal, getDeal. rewrite Hl', Hh. cbn [deals set_deals].
    by rewrite lookup_insert_eq. }
  subst s'. rewrite acceptDeal_unfold. cbn [fst snd heap deals getDeal].
  unfold getDeal. cbn [deals]. fold h. rewrite lookup_insert_eq.
  split_and!; [done|lia| |  |done].
  - by rewrite lookup_app_l.
  - eexists. rewrite lookup_app_r, Nat.sub_diag by done. split; [done|].
    pose proof (preserves_acceptDeal_sync (lndBtcClient s) (lndLtcClient s) requestPacket peer
                  (acceptDeal_deal now orderToAccept (request_body requestPacket) peer)) as [].
    split; [by rewrite ev_role0|by rewrite ev_hash0].
Qed.

Lemma duplicate_r_hash_overwrites_witness :
  getDeal "ab" maker1 = Some 0
  ∧ getDeal "ab" maker2 = Some 1
  ∧ (state <$> heap maker2 !! 0) = (state <$> heap maker1 !! 0).
Proof.
  assert (getDeal (req_r_hash (request_body request0)) maker1 = Some 0) as Hget
    by (vm_compute; reflexivity).
  assert (∃ d, heap maker1 !! 0 = Some d) as [d Hl] by (eexists; vm_compute; reflexivity).
  destruct (duplicate_r_hash_overwrites 2001 order0 request0 peerP maker1 0 d Hget Hl)
    as (_ & Hnew & _ & Hold & _).
  split; [exact Hget|]. split; [exact Hnew|].
  unfold maker2. by rewrite Hold, Hl.
Defined.

(** ** The maker's CLTV delta *)

Lemma setDealPhase_makerCltvDelta now newPhase d :
  makerCltvDelta (setDealPhase now newPhase d).1.2 = makerCltvDelta d.
Proof.
  run_deal. destruct (state d) eqn:Hs; cbn; [|done..].
  destruct newPhase, (myRole d), (phase d); cbn; rewrite ?Hs; cbn; done.
Qed.

(** C3: when the maker currency of the request is BTC, [acceptDeal] sets the
    deal's [makerCltvDelta] to
    [btc.cltvDelta + routeCltvDelta / (ltc.cltvDelta / btc.cltvDelta)], where
    [routeCltvDelta] is the total time lock of the first route minus the block
    height that [getInfo] returned; with [btc.cltvDelta = 40],
    [ltc.cltvDelta = 576] and [routeCltvDelta = 144] this is exactly 50.  The
    arithmetic is that of IEEE doubles. *)
Theorem acceptDeal_makerCltvDelta_BTC now btc ltc requestPacket peer height d route0 routes :
  req_makerCurrency (request_body requestPacket) = "BTC" →
  makerToTakerRoutes d = Some (route0 :: routes) →
  let routeCltvDelta := (getTotalTimeLock route0 - height)%float in
  let d' := (acceptDeal_onInfo now btc ltc requestPacket peer (Resolved height) d).1.2 in
  makerCltvDelta d'
  = Some (cltvDelta btc + routeCltvDelta / (cltvDelta ltc / cltvDelta btc))%float
  ∧ (cltvDelta btc = 40%float → cltvDelta ltc = 576%float → routeCltvDelta = 144%float →
     makerCltvDelta d' = Some 50%float).
Proof.
  intros Hcur Hroutes routeCltvDelta d'.
  assert (makerCltvDelta d'
          = Some (cltvDelta btc + routeCltvDelta / (cltvDelta ltc / cltvDelta btc))%float) as Hd'.
  { subst d'. unfold acceptDeal_onInfo. rewrite Hcur.
    unfold mbind at 1, DealM_bind at 1, bind at 1, get at 1. rewrite Hroutes.
    change (chain_of "BTC") with (Some BTC). cbv beta iota.
    unfold mbind at 1, DealM_bind at 1, bind at 1, modify at 1.
    unfold mbind at 1, DealM_bind at 1, bind at 1, get at 1.
    unfold mbind at 1, DealM_bind at 1, bind at 1, tell at 1.
    unfold mbind at 1, DealM_bind at 1, bind at 1.
    match goal with
    | |- context [setDealPhase now SwapAgreed ?x] =>
        pose proof (setDealPhase_makerCltvDelta now SwapAgreed x) as Hp;
        destruct (setDealPhase now SwapAgreed x) as [[[[]|e] d2] o2]
    end; cbn in Hp |- *; exact Hp. }
  split; [exact Hd'|].
  intros Hb Hl Hr. rewrite Hd', Hb, Hl, Hr. vm_compute. reflexivity.
Qed.

Lemma acceptDeal_makerCltvDelta_BTC_witness :
  (makerCltvDelta <$> heap maker_agreed !! 0) = Some (Some 50%float)
  ∧ (phase <$> heap maker_agreed !! 0) = Some SwapAgreed.
Proof.
  assert (∃ d, heap maker_routed !! 0 = Some d ∧ makerToTakerRoutes d = Some [route0])
    as (d & Hl & Hroutes) by (eexists; split; vm_compute; reflexivity).
  assert (req_makerCurrency (request_body request0) = "BTC") as Hcur by reflexivity.
  destruct (acceptDeal_makerCltvDelta_BTC 2002 btc0 ltc0 request0 peerP 500%float d route0 []
              Hcur Hroutes) as [_ H50].
  split; [|vm_compute; reflexivity].
  unfold maker_agreed. rewrite (with_deal_Some _ _ _ d) by exact Hl.
  cbn [snd heap set_heap set_trace].
  rewrite list_lookup_insert_eq by (by eapply lookup_lt_Some).
  cbn [fmap option_fmap option_map]. f_equal. apply H50; vm_compute; reflexivity.
Defined.

(** ** Deals that have left [Active] *)

Lemma setDealPhase_not_Active now newPhase d :
  state d ≠ Active →
  setDealPhase now newPhase d
  = (Throw (AssertionError "deal is not Active. Can not change deal phase"), d, []).
Proof. intros Hs. run_deal. by destruct (state d). Qed.

Lemma setDealState_not_Active newState reason d :
  state d ≠ Active →
  setDealState newState reason d
  = if state_eqb (state d) Error && state_eqb newState Error
    then (Ok (), set_stateReason (stateReason d +:+ "; " +:+ reason) d, [])
    else (Throw (AssertionError "deal is not Active. Can not change deal state"), d, []).
Proof. intros Hs. run_deal. by destruct (state d), newState. Qed.

(** C6: once a deal object is in state [Error] or [Completed], no step of
    the coordinator changes its phase or its state or emits an event for it;
    its [stateReason] is unchanged when [Completed] and only grows by
    ["; <reason>"] suffixes when [Error].  On such a deal [setDealPhase] fails
    its assertion and changes nothing; [setDealState] appends ["; <reason>"]
    without emitting when the deal is in [Error] and the new state is [Error],
    and fails its assertion and changes nothing in every other case. *)
Theorem terminal_deal_is_frozen sha256 s s' r d :
  step sha256 s s' →
  heap s !! r = Some d →
  state d ≠ Active →
  frozen s s' r d
  ∧ (∀ now newPhase,
       setDealPhase now newPhase d
       = (Throw (AssertionError "deal is not Active. Can not change deal phase"), d, []))
  ∧ (∀ newState reason,
       setDealState newState reason d
       = if state_eqb (state d) Error && state_eqb newState Error
         then (Ok (), set_stateReason (stateReason d +:+ "; " +:+ reason) d, [])
         else (Throw (AssertionError "deal is not Active. Can not change deal state"), d, [])).
Proof.
  intros Hstep Hl Hs. split_and!.
  - eapply rtc_base_frozen; [by eapply step_base|done..].
  - intros. by apply setDealPhase_not_Active.
  - intros. by apply setDealState_not_Active.
Qed.

Lemma terminal_deal_is_frozen_witness :
  (state <$> heap taker_failed !! 0) = Some Error
  ∧ ∃ d, heap taker_failed !! 0 = Some d
         ∧ frozen taker_failed
             (handleSwapError {| err_r_hash := hash0; err_errorMessage := "again" |} taker_failed).2
             0 d.
Proof.
  split; [vm_compute; reflexivity|].
  assert (∃ d, heap taker_failed !! 0 = Some d ∧ state d = Error) as (d & Hl & Hs)
    by (eexists; split; vm_compute; reflexivity).
  exists d. split; [exact Hl|].
  refine (proj1 (terminal_deal_is_frozen digest_stub taker_failed _ 0 d _ Hl _)).
  - apply step_handleSwapError.
  - rewrite Hs. discriminate.
Defined.

(** ** Events of a deal *)

(** C2 (as amended): in every reachable state and for every deal object,
    [swap.paid] and [swap.failed] have each been emitted at most once for the
    deal; none of [swap.failed] while the deal is [Active]; a [Completed] deal
    has had [swap.paid] once and [swap.failed] never; a deal in [Error] has had
    [swap.failed] once, and [swap.paid] as well exactly when its phase had
    reached [AmountReceived]. *)
Theorem events_of_a_deal sha256 btc ltc s r d :
  reachable sha256 btc ltc s →
  heap s !! r = Some d →
  let paid := emitted is_paid r (trace s) in
  let failed := emitted is_failed r (trace s) in
  paid ≤ 1 ∧ failed ≤ 1
  ∧ (state d = Active → failed = 0)
  ∧ (state d = Completed → paid = 1 ∧ failed = 0)
  ∧ (state d = Error → failed = 1 ∧ (paid = 1 ↔ phase d = AmountReceived)).
Proof.
  intros Hreach Hl paid failed.
  destruct (reachable_inv _ _ _ _ Hreach) as [_ Hd]. destruct (Hd r d Hl) as [Hp Hf Hc _].
  subst paid failed. rewrite Hp, Hf. unfold paid_done, failed_done.
  split_and!.
  - destruct (phase d); lia.
  - destruct (state d); lia.
  - by intros ->.
  - intros Hs. rewrite (proj1 Hc Hs), Hs. done.
  - intros Hs. rewrite Hs. split; [done|].
    destruct (phase d) eqn:Hph; split; try done.
    intros _. destruct Hc as [_ Hc]. rewrite Hc in Hs; done.
Qed.

(** ** The concrete runs are runs of the coordinator *)

Lemma taker3_reachable : reachable digest_stub btc0 ltc0 taker3.
Proof.
  unfold reachable, taker3, taker2, taker1.
  eapply rtc_r; [eapply rtc_r; [eapply rtc_once|]|].
  - apply step_executeSwap.
  - apply step_handleSwapResponse.
  - apply step_resolveHash.
Qed.

Lemma taker_failed_reachable : reachable digest_stub btc0 ltc0 taker_failed.
Proof. eapply rtc_r; [apply taker3_reachable|]. apply step_handleSwapError. Qed.

Lemma taker_completed_reachable : reachable digest_stub btc0 ltc0 taker_completed.
Proof. eapply rtc_r; [apply taker3_reachable|]. apply step_handleSwapResponse_onSent. Qed.

Lemma maker1_reachable : reachable digest_stub btc0 ltc0 maker1.
Proof. apply rtc_once. apply step_acceptDeal. Qed.

Lemma float_neq (x y : number) : Prim2SF x ≠ Prim2SF y → x ≠ y.
Proof. intros H ->. by apply H. Qed.

(** C2 does not hold as stated: the taker's deal reaches
    [AmountReceived], which emits [swap.paid], and the peer's error packet then
    sets it to [Error], which emits [swap.failed]. *)
Lemma paid_and_failed_for_one_deal :
  reachable digest_stub btc0 ltc0 taker_failed
  ∧ (state <$> heap taker_failed !! 0) = Some Error
  ∧ emitted is_paid 0 (trace taker_failed) = 1
  ∧ emitted is_failed 0 (trace taker_failed) = 1.
Proof. split; [apply taker_failed_reachable|]. vm_compute. done. Qed.

Lemma events_of_a_deal_witness :
  emitted is_paid 0 (trace taker_completed) = 1
  ∧ emitted is_failed 0 (trace taker_completed) = 0.
Proof.
  assert (∃ d, heap taker_completed !! 0 = Some d ∧ state d = Completed) as (d & Hl & Hs)
    by (eexists; split; vm_compute; reflexivity).
  destruct (events_of_a_deal digest_stub btc0 ltc0 taker_completed 0 d
              taker_completed_reachable Hl) as (_ & _ & _ & Hc & _).
  exact (Hc Hs).
Defined.

(** ** Amounts *)

(** C7 (as amended): in every reachable state, a deal created by
    [beginSwap], that is a deal of role [Taker], has
    [takerAmount = round(proposedQuantity · price · 10^8)] and
    [makerAmount = round(proposedQuantity · 10^8)]; these are the rounded
    products of [quantity] whenever the recorded quantity is the proposed
    one. *)
Theorem taker_amounts sha256 btc ltc s r d :
  reachable sha256 btc ltc s →
  heap s !! r = Some d →
  myRole d = Taker →
  takerAmount d = Math_round (proposedQuantity d * price d * 100000000)%float
  ∧ makerAmount d = Math_round (proposedQuantity d * 100000000)%float
  ∧ (∀ q, quantity d = Some q → q = proposedQuantity d →
          (takerAmount d, makerAmount d) = calculateSwapAmounts q (price d)).
Proof.
  intros Hreach Hl Hrole.
  destruct (reachable_inv _ _ _ _ Hreach) as [_ Hd]. destruct (Hd r d Hl) as [_ _ _ Ha].
  specialize (Ha Hrole). unfold amounts_as_proposed, calculateSwapAmounts in Ha.
  injection Ha as Ht Hm. split_and!; [done..|].
  intros q _ ->. unfold calculateSwapAmounts. by rewrite <- Ht, <- Hm.
Qed.

Lemma taker_amounts_witness :
  ∃ d, heap taker3 !! 0 = Some d
       ∧ quantity d = Some 1%float
       ∧ takerAmount d = Math_round (proposedQuantity d * price d * 100000000)%float
       ∧ makerAmount d = Math_round (proposedQuantity d * 100000000)%float.
Proof.
  assert (∃ d, heap taker3 !! 0 = Some d ∧ myRole d = Taker ∧ quantity d = Some 1%float)
    as (d & Hl & Hr & Hq) by (eexists; split_and!; vm_compute; reflexivity).
  exists d.
  destruct (taker_amounts digest_stub btc0 ltc0 taker3 0 d taker3_reachable Hl Hr)
    as (Ht & Hm & _).
  split_and!; [exact Hl|exact Hq|exact Ht|exact Hm].
Defined.

(** C7 does not hold as stated: the maker's deal takes its amounts
    from the request packet and its quantity from the accepted order, so a
    registered deal with [quantity = 1] has [makerAmount = 5], not
    [round(1 · 10^8) = 100000000]. *)
Lemma maker_amounts_not_from_quantity :
  reachable digest_stub btc0 ltc0 maker1
  ∧ getDeal "ab" maker1 = Some 0
  ∧ ∃ d, heap maker1 !! 0 = Some d
         ∧ quantity d = Some 1%float
         ∧ makerAmount d = 5%float
         ∧ Math_round (1 * 100000000)%float = 100000000%float
         ∧ makerAmount d ≠ Math_round (1 * 100000000)%float.
Proof.
  split; [apply maker1_reachable|]. split; [vm_compute; reflexivity|].
  eexists. split; [vm_compute; reflexivity|]. cbn [quantity makerAmount].
  split_and!; [done|done|vm_compute; reflexivity|].
  apply float_neq. vm_compute. discriminate.
Qed.

(** ** The resolver on concrete deals *)

Lemma resolveHash_validation_witness :
  (resolveHash 1002 htlc_short taker2).1
  = Ok (Return (Some "Amount sent from Maker to destinationis too small"))
  ∧ (state <$> heap (resolveHash 1002 htlc_short taker2).2 !! 0) = Some Error
  ∧ (validateRequest htlc0 <$> heap taker2 !! 0)
    = ((λ d, (Ok true, d, [])) <$> heap taker2 !! 0).
Proof.
  assert (∃ d, heap taker2 !! 0 = Some d ∧ state d = Active
               ∧ amount_too_small htlc_short d || timelock_too_small htlc_short d = true
               ∧ amount_too_small htlc0 d || timelock_too_small htlc0 d = false
               ∧ stateReason (report_error (validation_reason htlc_short d) d)
                 = "Amount sent from Maker to destinationis too small")
    as (d & Hl & Hs & Hbad & Hgood & Hreason)
    by (eexists; split_and!; vm_compute; reflexivity).
  assert (getDeal (getHash htlc_short) taker2 = Some 0) as Hget by (vm_compute; reflexivity).
  assert (state d ≠ Completed) as Hnc by (rewrite Hs; discriminate).
  destruct (resolveHash_validation 1002 htlc_short taker2 0 d Hget Hl Hnc) as [Hfail _].
  destruct (Hfail Hbad) as (Hres & Hheap & Hstate).
  destruct (resolveHash_validation 1002 htlc0 taker2 0 d Hget Hl Hnc) as [_ Hpass].
  split_and!.
  - by rewrite Hres, Hreason.
  - by rewrite Hheap, <- Hstate.
  - rewrite Hl. cbn [fmap option_fmap option_map]. by rewrite (Hpass Hgood).
Defined.

(** C1 does not hold as stated for a deal that is [Completed]: the
    HTLC is one msat short, validation calls [setDealState] with [Error], the
    assertion of [setDealState] fails, [resolveHash] returns no reason and the
    deal stays [Completed]. *)
Lemma resolveHash_on_completed_deal :
  reachable digest_stub btc0 ltc0 taker_completed
  ∧ getDeal (getHash htlc_short) taker_completed = Some 0
  ∧ (state <$> heap taker_completed !! 0) = Some Completed
  ∧ (amount_too_small htlc_short <$> heap taker_completed !! 0) = Some true
  ∧ (resolveHash 1004 htlc_short taker_completed).1
    = Throw (AssertionError "deal is not Active. Can not change deal state")
  ∧ (state <$> heap (resolveHash 1004 htlc_short taker_completed).2 !! 0) = Some Completed.
Proof. split; [apply taker_completed_reachable|]. vm_compute. done. Qed.

(** ** The taker's payment *)

(** C4, what the code does: the answer of the payment carries no payment
    error and a preimage ["bb"] that is not the deal's preimage ["0102"], and
    the deal advances to [SwapCompleted] and [Completed] and the completion
    packet is sent; indeed the preimage of the answer has no part in what
    [handleSwapResponse] does after the payment. *)
Theorem handleSwapResponse_ignores_preimage :
  (r_preimage <$> heap taker3 !! 0) = Some (Some "0102")
  ∧ toString_hex (getPaymentPreimage wrong_preimage) = "bb"
  ∧ (with_deal 0 (handleSwapResponse_onSent 1003 response0 peerP (Resolved wrong_preimage))
       taker3).1 = Ok ()
  ∧ (state <$> heap taker_completed !! 0) = Some Completed
  ∧ (phase <$> heap taker_completed !! 0) = Some SwapCompleted
  ∧ last (trace taker_completed) = Some (0, sendPacket "P" (SwapCompletePacket hash0))
  ∧ ∀ now body peer paymentError preimage1 preimage2,
      handleSwapResponse_onSent now body peer
        (Resolved {| getPaymentError := paymentError; getPaymentPreimage := preimage1 |})
      = handleSwapResponse_onSent now body peer
          (Resolved {| getPaymentError := paymentError; getPaymentPreimage := preimage2 |}).
Proof. split_and!; [vm_compute; reflexivity..|]. reflexivity. Qed.

(** C5, what the code does: the deal proposes quantity 1; a response that
    accepts 2 is recorded on the deal, and that response and one that accepts
    0 both move the deal to [AmountSent] and issue the payment. *)
Theorem handleSwapResponse_accepts_any_quantity :
  (proposedQuantity <$> heap taker1 !! 0) = Some 1%float
  ∧ (phase <$> heap taker1 !! 0) = Some SwapRequested
  ∧ (handleSwapResponse 1001 response_too_much peerP taker1).1
    = Ok (Await (sendPaymentSync BTC
                   {| getAmt := 100000000; getDestString := Some "lnd-BTC";
                      getPaymentHashString := hash0; getFinalCltvDelta := Some 50%float |}))
  ∧ (quantity <$> heap (handleSwapResponse 1001 response_too_much peerP taker1).2 !! 0)
    = Some (Some 2%float)
  ∧ (phase <$> heap (handleSwapResponse 1001 response_too_much peerP taker1).2 !! 0)
    = Some AmountSent
  ∧ (handleSwapResponse 1001 response_zero peerP taker1).1
    = Ok (Await (sendPaymentSync BTC
                   {| getAmt := 100000000; getDestString := Some "lnd-BTC";
                      getPaymentHashString := hash0; getFinalCltvDelta := Some 50%float |}))
  ∧ (phase <$> heap (handleSwapResponse 1001 response_zero peerP taker1).2 !! 0)
    = Some AmountSent.
Proof. split_and!; vm_compute; reflexivity. Qed.

(** ** Relations kept by every stretch of the handlers *)

Lemma outputs_of_app r (t1 t2 : list (nat * Output)) :
  outputs_of r (t1 ++ t2) = outputs_of r t1 ++ outputs_of r t2.
Proof. unfold outputs_of. apply omap_app. Qed.

Lemma outputs_of_tagged r (out : list Output) :
  outputs_of r ((λ o, (r, o)) <$> out) = out.
Proof.
  unfold outputs_of. induction out as [|o out IH]; [done|].
  cbn [fmap list_fmap omap list_omap fst snd]. rewrite decide_True by done.
  f_equal. exact IH.
Qed.

Lemma outputs_of_tagged_ne r r' (out : list Output) :
  r' ≠ r → outputs_of r ((λ o, (r', o)) <$> out) = [].
Proof.
  intros Hne. unfold outputs_of. induction out as [|o out IH]; [done|].
  cbn [fmap list_fmap omap list_omap fst snd]. rewrite decide_False by done. exact IH.
Qed.

Lemma outputs_of_out_of_bound r (t : list (nat * Output)) (n : nat) :
  (∀ r' o, (r', o) ∈ t → r' < n) → n ≤ r → outputs_of r t = [].
Proof.
  intros Hb Hr. unfold outputs_of. induction t as [|[r' o] t IH]; [done|].
  cbn [omap list_omap fst snd]. rewrite decide_False.
  - apply IH. intros r0 o0 Hin. apply (Hb r0 o0). by right.
  - intros ->. assert (r < n) by (apply (Hb r o); by left). lia.
Qed.

Section Respected.
Context (R : SwapDeal → list Output → SwapDeal → Prop) (HR : Respected R).

Lemma keeps_ret {A} (a : A) : keeps R (mret a).
Proof. intros d. apply HR. Qed.

Lemma keeps_throw {A} e : keeps R (@throw A e).
Proof. intros d. apply HR. Qed.

Lemma keeps_get : keeps R get.
Proof. intros d. apply HR. Qed.

Lemma keeps_assert b msg : keeps R (assert b msg).
Proof. destruct b; intros d; apply HR. Qed.

Lemma keeps_send peer packet : keeps R (tell (sendPacket peer packet)).
Proof. intros d. apply HR. Qed.

Lemma keeps_bind {A B} (m : DealM A) (k : A → DealM B) :
  keeps R m → (∀ a, keeps R (k a)) → keeps R (m ≫= k).
Proof.
  intros Hm Hk d. specialize (Hm d).
  unfold mbind, DealM_bind, bind.
  destruct (m d) as [[[a|e] d1] o1]; cbn [fst snd] in *; [|done].
  specialize (Hk a d1). destruct (k a d1) as [[r d2] o2]; cbn [fst snd] in *.
  by eapply resp_trans.
Qed.

Lemma keeps_try_catch {A} (m : DealM A) (h : Exn → DealM A) :
  keeps R m → (∀ e, keeps R (h e)) → keeps R (try_catch m h).
Proof.
  intros Hm Hh d. specialize (Hm d). unfold try_catch.
  destruct (m d) as [[[a|e] d1] o1]; cbn [fst snd] in *; [done|].
  specialize (Hh e d1). destruct (h e d1) as [[r d2] o2]; cbn [fst snd] in *.
  by eapply resp_trans.
Qed.

Ltac keeps_step :=
  first
    [ apply keeps_ret
    | apply keeps_throw
    | apply keeps_get
    | apply keeps_assert
    | apply keeps_send
    | apply (resp_setDealState R HR)
    | apply (resp_setDealPhase R HR)
    | intros ?; apply (resp_set_makerCltvDelta R HR)
    | intros ?; apply (resp_set_quantity R HR)
    | intros ?; apply (resp_set_r_preimage R HR)
    | intros ?; apply (resp_set_makerToTakerRoutes R HR)
    | apply keeps_bind; [|intros ?]
    | apply keeps_try_catch; [|intros ?]
    | match goal with
      | |- keeps R (match ?x with _ => _ end) => destruct x
      end ].

Lemma keeps_acceptDeal_fail peer reqId reason : keeps R (acceptDeal_fail peer reqId reason).
Proof. unfold acceptDeal_fail, sendErrorToPeer. repeat keeps_step. Qed.

Lemma keeps_beginSwap_sync now btc ltc peer body : keeps R (beginSwap_sync now btc ltc peer body).
Proof. unfold beginSwap_sync. repeat keeps_step. Qed.

Lemma keeps_acceptDeal_sync btc ltc requestPacket peer :
  keeps R (acceptDeal_sync btc ltc requestPacket peer).
Proof.
  unfold acceptDeal_sync. apply keeps_bind; [repeat keeps_step|intros deal].
  destruct (truthy_str _); [apply keeps_acceptDeal_fail|].
  destruct (chain_of _); [repeat keeps_step|apply keeps_acceptDeal_fail].
Qed.

Lemma keeps_acceptDeal_onRoutes lndclient requestPacket peer routes :
  keeps R (acceptDeal_onRoutes lndclient requestPacket peer routes).
Proof.
  unfold acceptDeal_onRoutes. apply keeps_try_catch.
  - destruct routes; [|repeat keeps_step].
    apply keeps_bind; [repeat keeps_step|intros _].
    destruct (_ =? _)%nat; [apply keeps_acceptDeal_fail|repeat keeps_step].
  - intros e. apply keeps_acceptDeal_fail.
Qed.

Lemma keeps_acceptDeal_onInfo now btc ltc requestPacket peer info :
  keeps R (acceptDeal_onInfo now btc ltc requestPacket peer info).
Proof.
  unfold acceptDeal_onInfo. destruct info; [|apply keeps_acceptDeal_fail].
  repeat keeps_step.
Qed.

Lemma keeps_handleSwapResponse_sync now body peer :
  keeps R (handleSwapResponse_sync now body peer).
Proof. unfold handleSwapResponse_sync, sendErrorToPeer. repeat keeps_step. Qed.

Lemma keeps_handleSwapResponse_onSent now body peer response :
  keeps R (handleSwapResponse_onSent now body peer response).
Proof. unfold handleSwapResponse_onSent, sendErrorToPeer. repeat keeps_step. Qed.

Lemma keeps_resolveHash_sync now resolveRequest : keeps R (resolveHash_sync now resolveRequest).
Proof.
  unfold resolveHash_sync. apply keeps_bind; [unfold validateRequest; repeat keeps_step|].
  intros valid. repeat keeps_step.
Qed.

Lemma keeps_resolveHash_onSent now response : keeps R (resolveHash_onSent now response).
Proof. unfold resolveHash_onSent. repeat keeps_step. Qed.

Lemma world_rel_refl s : world_rel R s s.
Proof.
  exists []. split_and!.
  - by rewrite app_nil_r.
  - done.
  - by intros r o ?%elem_of_nil.
  - intros r d Hl. exists d. split; [done|]. apply HR.
  - intros r d' Hr Hl. apply lookup_lt_Some in Hl. lia.
Qed.

Lemma world_rel_trans s1 s2 s3 : world_rel R s1 s2 → world_rel R s2 s3 → world_rel R s1 s3.
Proof.
  intros (n1 & Ht1 & Hlen1 & Hb1 & Hold1 & Hnew1) (n2 & Ht2 & Hlen2 & Hb2 & Hold2 & Hnew2).
  exists (n1 ++ n2). split_and!.
  - by rewrite Ht2, Ht1, app_assoc.
  - lia.
  - intros r o [Hin|Hin]%elem_of_app; [|eauto]. specialize (Hb1 r o Hin). lia.
  - intros r d Hl. destruct (Hold1 r d Hl) as (d2 & Hl2 & HR2).
    destruct (Hold2 r d2 Hl2) as (d3 & Hl3 & HR3).
    exists d3. split; [done|]. rewrite outputs_of_app. by eapply resp_trans.
  - intros r d3 Hr Hl3. rewrite outputs_of_app.
    destruct (decide (r < length (heap s2))) as [Hlt|Hge].
    + destruct (lookup_lt_is_Some_2 _ _ Hlt) as [d2 Hl2].
      destruct (Hnew1 r d2 Hr Hl2) as (d0 & Hborn & HR2).
      destruct (Hold2 r d2 Hl2) as (d3' & Hl3' & HR3).
      assert (d3' = d3) as -> by congruence.
      exists d0. split; [done|]. by eapply resp_trans.
    + rewrite (outputs_of_out_of_bound r n1 (length (heap s2))) by (done || lia).
      apply Hnew2; [lia|done].
Qed.

Lemma world_rel_frame s s' : heap s' = heap s → trace s' = trace s → world_rel R s s'.
Proof.
  intros Hh Ht. exists []. rewrite Hh, Ht. split_and!.
  - by rewrite app_nil_r.
  - done.
  - by intros r o ?%elem_of_nil.
  - intros r d Hl. exists d. split; [done|]. apply HR.
  - intros r d' Hr Hl. apply lookup_lt_Some in Hl. lia.
Qed.

Lemma world_rel_alloc s d0 : born d0 → world_rel R s (set_heap (heap s ++ [d0]) s).
Proof.
  intros Hborn. exists []. cbn [heap trace set_heap]. split_and!.
  - by rewrite app_nil_r.
  - rewrite length_app. lia.
  - by intros r o ?%elem_of_nil.
  - intros r d Hl. exists d. split; [|apply HR].
    rewrite lookup_app_l; [done|]. by eapply lookup_lt_Some.
  - intros r d' Hr Hl. rewrite lookup_app_r in Hl by done.
    destruct (r - length (heap s)) eqn:E; [|by destruct n].
    cbn in Hl. injection Hl as <-. exists d0. split; [done|]. apply HR.
Qed.

Lemma world_rel_run {A} r (m : DealM A) s : keeps R m → world_rel R s (with_deal r m s).2.
Proof.
  intros Hm. destruct (heap s !! r) as [d|] eqn:Hr.
  2:{ rewrite with_deal_None by done. apply world_rel_refl. }
  rewrite (with_deal_Some _ _ _ d) by done. specialize (Hm d).
  pose proof (lookup_lt_Some _ _ _ Hr) as Hlt.
  eexists. cbn [snd heap trace set_heap set_trace]. split_and!.
  - done.
  - by rewrite length_insert.
  - intros r0 o (o' & [= -> ->] & _)%list_elem_of_fmap. by rewrite length_insert.
  - intros r0 d0 Hl. destruct (decide (r0 = r)) as [->|Hne].
    + rewrite list_lookup_insert_eq, outputs_of_tagged by done.
      assert (d0 = d) as -> by congruence. eauto.
    + rewrite list_lookup_insert_ne, outputs_of_tagged_ne by done.
      exists d0. split; [done|]. apply HR.
  - intros r0 d' Hr0 Hl. apply lookup_lt_Some in Hl. rewrite length_insert in Hl. lia.
Qed.

Lemma world_rel_addDeal r s : world_rel R s (addDeal r s).
Proof. unfold addDeal. destruct (heap s !! r); [by apply world_rel_frame|apply world_rel_refl]. Qed.

Lemma step_world_rel sha256 s s' : step sha256 s s' → world_rel R s s'.
Proof.
  destruct 1.
  - unfold executeSwap. destruct (negb _); [apply world_rel_refl|].
    unfold beginSwap, new_deal.
    eapply world_rel_trans; [apply world_rel_alloc, (born_beginSwap sha256)|].
    eapply world_rel_trans; [apply world_rel_addDeal|].
    apply world_rel_run, keeps_beginSwap_sync.
  - unfold acceptDeal, new_deal.
    eapply world_rel_trans; [apply world_rel_alloc, born_acceptDeal|].
    eapply world_rel_trans; [apply world_rel_addDeal|].
    apply world_rel_run, keeps_acceptDeal_sync.
  - apply world_rel_run, keeps_acceptDeal_onRoutes.
  - apply world_rel_run, keeps_acceptDeal_onInfo.
  - unfold handleSwapResponse. destruct (getDeal _ _); [|apply world_rel_refl].
    apply world_rel_run, keeps_handleSwapResponse_sync.
  - apply world_rel_run, keeps_handleSwapResponse_onSent.
  - unfold resolveHash. destruct (getDeal _ _); [|apply world_rel_refl].
    apply world_rel_run, keeps_resolveHash_sync.
  - apply world_rel_run, keeps_resolveHash_onSent.
  - unfold handleSwapComplete. destruct (getDeal _ _); [|apply world_rel_refl].
    apply world_rel_run, (resp_setDealPhase R HR).
  - unfold handleSwapError. destruct (getDeal _ _); [|apply world_rel_refl].
    apply world_rel_run, (resp_setDealState R HR).
  - unfold removeDeal. destruct (heap s !! r); [by apply world_rel_frame|apply world_rel_refl].
  - by apply world_rel_frame.
Qed.

Lemma rtc_step_world_rel sha256 s s' : rtc (step sha256) s s' → world_rel R s s'.
Proof.
  induction 1 as [|s1 s2 s3 H12 H23 IH]; [apply world_rel_refl|].
  eapply world_rel_trans; [by eapply step_world_rel|done].
Qed.

Lemma step_keeps_deal sha256 s s' r d :
  step sha256 s s' → heap s !! r = Some d →
  ∃ d' out, heap s' !! r = Some d' ∧ R d out d'.
Proof.
  intros Hstep Hl. destruct (step_world_rel _ _ _ Hstep) as (new & _ & _ & _ & Hold & _).
  destruct (Hold r d Hl) as (d' & Hl' & HR'). eauto.
Qed.

Lemma reachable_from_birth sha256 btc ltc s r d :
  reachable sha256 btc ltc s → heap s !! r = Some d →
  ∃ d0, born d0 ∧ R d0 (outputs_of r (trace s)) d.
Proof.
  intros Hreach Hl.
  destruct (rtc_step_world_rel _ _ _ Hreach) as (new & Ht & _ & _ & _ & Hnew).
  cbn [trace new_Swaps app] in Ht. rewrite Ht. apply Hnew; [cbn; lia|done].
Qed.

End Respected.

(** ** Fields that are never assigned again *)

Lemma same_identity_refl d : same_identity d d.
Proof. by split. Qed.

Lemma same_identity_trans d1 d2 d3 :
  same_identity d1 d2 → same_identity d2 d3 → same_identity d1 d3.
Proof. intros [] []. split; congruence. Qed.

Lemma describes_same_identity res d d' : same_identity d d' → describes res d' → describes res d.
Proof. intros [] []. split; congruence. Qed.

Lemma describes_same_identity_r res d d' : same_identity d d' → describes res d → describes res d'.
Proof. intros [] []. split; congruence. Qed.

Lemma identity_rel_quiet d d' : same_identity d d' → identity_rel d [] d'.
Proof. intros H. split; [done|]. by intros res ?%elem_of_nil. Qed.

Ltac paid_in :=
  let res := fresh "res" in
  let Hin := fresh "Hin" in
  intros res Hin;
  repeat (apply elem_of_cons in Hin as [Hin|Hin];
          [first [discriminate Hin | injection Hin as ->]|]);
  try (by apply elem_of_nil in Hin).

Lemma identity_rel_Respected : Respected identity_rel.
Proof.
  split.
  - intros d. apply identity_rel_quiet, same_identity_refl.
  - intros d1 o1 d2 o2 d3 [H12 Hp1] [H23 Hp2]. split; [by eapply same_identity_trans|].
    intros res [Hin|Hin]%elem_of_app; [auto|].
    eapply describes_same_identity; eauto.
  - intros reason d. run_deal.
    destruct (state d) eqn:Hs; cbn; (split; [by split|]); paid_in.
  - intros now newPhase d. run_deal.
    destruct (state d) eqn:Hs; cbn; [|(split; [by split|]); paid_in..].
    destruct newPhase, (myRole d) eqn:Hr, (phase d) eqn:Hp; cbn; rewrite ?Hs; cbn;
      (split; [by split|]); paid_in; by split.
  - intros peer packet d. split; [by split|]. paid_in.
  - intros v d. apply identity_rel_quiet. by split.
  - intros v d. apply identity_rel_quiet. by split.
  - intros v d. apply identity_rel_quiet. by split.
  - intros v d. apply identity_rel_quiet. by split.
Qed.

Lemma elem_of_outputs_of r o (t : list (nat * Output)) : (r, o) ∈ t → o ∈ outputs_of r t.
Proof.
  intros Hin. unfold outputs_of. apply list_elem_of_omap. exists (r, o).
  split; [done|]. cbn. by rewrite decide_True.
Qed.

(** X1: no step of the coordinator changes the role, the r_hash, the peer
    key, the order ids, the pair, the proposed quantity, the price, the two
    amounts, the two currencies, the taker's LND key, the taker's CLTV delta
    or the creation time of a deal object that exists. *)
Theorem step_keeps_identity sha256 s s' r d :
  step sha256 s s' →
  heap s !! r = Some d →
  ∃ d', heap s' !! r = Some d' ∧ same_identity d d'.
Proof.
  intros Hstep Hl.
  destruct (step_keeps_deal _ identity_rel_Respected _ _ _ _ _ Hstep Hl) as (d' & out & Hl' & H & _).
  eauto.
Qed.

Lemma step_keeps_identity_witness :
  ∃ d', heap taker3 !! 0 = Some d' ∧ r_hash d' = hash0 ∧ myRole d' = Taker.
Proof.
  assert (∃ d, heap taker2 !! 0 = Some d ∧ r_hash d = hash0 ∧ myRole d = Taker)
    as (d & Hl & Hh & Hr) by (eexists; split_and!; vm_compute; reflexivity).
  destruct (step_keeps_identity digest_stub taker2 taker3 0 d (step_resolveHash _ _ _ _) Hl)
    as (d' & Hl' & []).
  exists d'. split_and!; [exact Hl'|congruence|congruence].
Defined.

(** X2: in every reachable state, every [swap.paid] that was emitted for a
    deal object carries that deal's order ids, pair, r_hash, peer key and
    role, its [makerAmount] as [amountReceived] and its [takerAmount] as
    [amountSent], for a taker as for a maker. *)
Theorem swap_paid_describes_deal sha256 btc ltc s r res :
  reachable sha256 btc ltc s →
  (r, emit_swap_paid res) ∈ trace s →
  ∃ d, heap s !! r = Some d ∧ describes res d.
Proof.
  intros Hreach Hin.
  destruct (reachable_inv _ _ _ _ Hreach) as [Hb _].
  destruct (lookup_lt_is_Some_2 _ _ (Hb _ _ Hin)) as [d Hl].
  exists d. split; [done|].
  destruct (reachable_from_birth _ identity_rel_Respected _ _ _ _ _ _ Hreach Hl)
    as (d0 & _ & Hsame & Hpaid).
  eapply describes_same_identity_r; [done|]. by apply Hpaid, elem_of_outputs_of.
Qed.

Lemma swap_paid_describes_deal_witness :
  ∃ res d, (0, emit_swap_paid res) ∈ trace taker3
           ∧ heap taker3 !! 0 = Some d
           ∧ res_amountReceived res = makerAmount d
           ∧ res_role res = Taker.
Proof.
  assert (∃ res, last (trace taker3) = Some (0, emit_swap_paid res) ∧ res_role res = Taker)
    as (res & Hlast & Hrole) by (eexists; split; vm_compute; reflexivity).
  assert ((0, emit_swap_paid res) ∈ trace taker3) as Hin.
  { apply last_Some in Hlast as [l ->]. apply elem_of_app. right. by left. }
  destruct (swap_paid_describes_deal digest_stub btc0 ltc0 taker3 0 res taker3_reachable Hin)
    as (d & Hl & []).
  exists res, d. split_and!; done.
Defined.

(** ** The order of the phases *)

Lemma phase_path_refl role p : phase_path role p p.
Proof. by destruct role, p. Qed.

Lemma phase_path_trans role p1 p2 p3 :
  phase_path role p1 p2 → phase_path role p2 p3 → phase_path role p1 p3.
Proof. unfold phase_path. by destruct role, p1, p2, p3. Qed.

Lemma path_rel_Respected : Respected path_rel.
Proof.
  split.
  - intros d. split; [done|apply phase_path_refl].
  - intros d1 o1 d2 o2 d3 [Hr1 Hp1] [Hr2 Hp2]. split; [congruence|].
    rewrite Hr1 in Hp2. by eapply phase_path_trans.
  - intros reason d. run_deal.
    destruct (state d) eqn:Hs; cbn; (split; [done|apply phase_path_refl]).
  - intros now newPhase d. run_deal.
    destruct (state d) eqn:Hs; cbn; [|(split; [done|apply phase_path_refl])..].
    destruct newPhase, (myRole d) eqn:Hr, (phase d) eqn:Hp; cbn; rewrite ?Hs; cbn;
      (split; cbn; rewrite ?Hr, ?Hp; done).
  - intros peer packet d. split; [done|apply phase_path_refl].
  - intros v d. split; [done|apply phase_path_refl].
  - intros v d. split; [done|apply phase_path_refl].
  - intros v d. split; [done|apply phase_path_refl].
  - intros v d. split; [done|apply phase_path_refl].
Qed.

Lemma born_phase d0 : born d0 → phase d0 = SwapCreated ∧ state d0 = Active.
Proof. by destruct 1. Qed.

(** X3: along every step of the coordinator the phase of a deal object
    stays where it is or moves forward on the path of the deal's role, which
    is SwapCreated, SwapRequested, AmountSent, AmountReceived, SwapCompleted
    for a taker and SwapCreated, SwapAgreed, AmountSent, AmountReceived,
    SwapCompleted for a maker; it never moves back. *)
Theorem phase_moves_forward sha256 s s' r d :
  step sha256 s s' →
  heap s !! r = Some d →
  ∃ d', heap s' !! r = Some d'
        ∧ phase_path (myRole d) (phase d) (phase d')
        ∧ (phase_path (myRole d) (phase d') (phase d) → phase d' = phase d).
Proof.
  intros Hstep Hl.
  destruct (step_keeps_deal _ path_rel_Respected _ _ _ _ _ Hstep Hl) as (d' & out & Hl' & _ & Hp).
  exists d'. split_and!; [done..|].
  revert Hp. unfold phase_path. by destruct (myRole d), (phase d), (phase d').
Qed.

Lemma phase_moves_forward_witness :
  ∃ d d', heap taker2 !! 0 = Some d ∧ heap taker3 !! 0 = Some d'
          ∧ phase d = AmountSent ∧ phase_path Taker (phase d) (phase d').
Proof.
  assert (∃ d, heap taker2 !! 0 = Some d ∧ phase d = AmountSent ∧ myRole d = Taker)
    as (d & Hl & Hp & Hr) by (eexists; split_and!; vm_compute; reflexivity).
  destruct (phase_moves_forward digest_stub taker2 taker3 0 d (step_resolveHash _ _ _ _) Hl)
    as (d' & Hl' & Hpath & _).
  exists d, d'. rewrite Hr in Hpath. done.
Defined.

(** X4: in every reachable state a deal of role [Taker] is never in phase
    [SwapAgreed], a deal of role [Maker] never in phase [SwapRequested], and
    the phase of every deal lies on the path of its role from
    [SwapCreated]. *)
Theorem phase_fits_role sha256 btc ltc s r d :
  reachable sha256 btc ltc s →
  heap s !! r = Some d →
  phase_path (myRole d) SwapCreated (phase d)
  ∧ (myRole d = Taker → phase d ≠ SwapAgreed)
  ∧ (myRole d = Maker → phase d ≠ SwapRequested).
Proof.
  intros Hreach Hl.
  destruct (reachable_from_birth _ path_rel_Respected _ _ _ _ _ _ Hreach Hl)
    as (d0 & Hborn & Hr & Hp).
  destruct (born_phase _ Hborn) as [Hp0 _]. rewrite Hp0, <- Hr in Hp.
  split; [done|]. revert Hp. unfold phase_path.
  destruct (myRole d), (phase d); cbn; split; done.
Qed.

Lemma phase_fits_role_witness :
  ∃ d, heap maker_agreed !! 0 = Some d ∧ phase_path (myRole d) SwapCreated (phase d).
Proof.
  assert (∃ d, heap maker_agreed !! 0 = Some d) as [d Hl] by (eexists; vm_compute; reflexivity).
  assert (reachable digest_stub btc0 ltc0 maker_agreed) as Hreach.
  { eapply rtc_r; [eapply rtc_r; [apply maker1_reachable|]|].
    - apply step_acceptDeal_onRoutes.
    - apply (step_acceptDeal_onInfo digest_stub maker_routed). }
  exists d. split; [exact Hl|].
  exact (proj1 (phase_fits_role digest_stub btc0 ltc0 maker_agreed 0 d Hreach Hl)).
Defined.

(** ** Time stamps *)





(** ** The registry *)

Lemma registry_ok_with_deal {A} r (m : DealM A) s :
  preserves m → registry_ok s → registry_ok (with_deal r m s).2.
Proof.
  intros Hm Hok. destruct (heap s !! r) as [d|] eqn:Hr.
  2:{ by rewrite with_deal_None. }
  rewrite (with_deal_Some _ _ _ d) by done. specialize (Hm d).
  pose proof (lookup_lt_Some _ _ _ Hr) as Hlt.
  intros h r0 Hget. unfold getDeal in Hget. cbn [snd deals set_trace set_heap] in Hget.
  destruct (Hok h r0 Hget) as (d0 & Hl0 & Hh0). cbn [snd heap set_trace set_heap].
  destruct (decide (r0 = r)) as [->|Hne].
  - rewrite list_lookup_insert_eq by done. eexists. split; [done|].
    destruct Hm. assert (d0 = d) as -> by congruence. congruence.
  - rewrite list_lookup_insert_ne by done. eauto.
Qed.

Lemma registry_ok_new d0 s :
  registry_ok s → registry_ok (addDeal (length (heap s)) (set_heap (heap s ++ [d0]) s)).
Proof.
  intros Hok. unfold addDeal. cbn [heap set_heap].
  rewrite lookup_app_r, Nat.sub_diag by done. cbn [lookup list_lookup].
  intros h r Hget. unfold getDeal in Hget. cbn [deals set_deals set_heap] in Hget.
  cbn [heap set_deals set_heap].
  destruct (decide (h = r_hash d0)) as [->|Hne].
  - rewrite lookup_insert_eq in Hget. injection Hget as <-.
    exists d0. by rewrite lookup_app_r, Nat.sub_diag.
  - rewrite lookup_insert_ne in Hget by done.
    destruct (Hok h r Hget) as (d & Hl & Hh). exists d. split; [|done].
    rewrite lookup_app_l; [done|]. by eapply lookup_lt_Some.
Qed.

Lemma step_registry_ok sha256 s s' : step sha256 s s' → registry_ok s → registry_ok s'.
Proof.
  intros Hstep Hok. destruct Hstep.
  - unfold executeSwap. destruct (negb _); [done|]. unfold beginSwap, new_deal.
    apply registry_ok_with_deal; [apply preserves_beginSwap_sync|by apply registry_ok_new].
  - unfold acceptDeal, new_deal.
    apply registry_ok_with_deal; [apply preserves_acceptDeal_sync|by apply registry_ok_new].
  - by apply registry_ok_with_deal; [apply preserves_acceptDeal_onRoutes|].
  - by apply registry_ok_with_deal; [apply preserves_acceptDeal_onInfo|].
  - unfold handleSwapResponse. destruct (getDeal _ _); [|done].
    by apply registry_ok_with_deal; [apply preserves_handleSwapResponse_sync|].
  - by apply registry_ok_with_deal; [apply preserves_handleSwapResponse_onSent|].
  - unfold resolveHash. destruct (getDeal _ _); [|done].
    by apply registry_ok_with_deal; [apply preserves_resolveHash_sync|].
  - by apply registry_ok_with_deal; [apply preserves_resolveHash_onSent|].
  - unfold handleSwapComplete. destruct (getDeal _ _); [|done].
    by apply registry_ok_with_deal; [apply preserves_setDealPhase|].
  - unfold handleSwapError. destruct (getDeal _ _); [|done].
    by apply registry_ok_with_deal; [apply preserves_setDealState_Error|].
  - unfold removeDeal. destruct (heap s !! r) as [d|]; [|done].
    intros h r0 Hget. unfold getDeal in Hget. cbn [deals set_deals] in Hget.
    apply lookup_delete_Some in Hget as [_ Hget]. by apply Hok.
  - done.
Qed.

(** X6: in every reachable state, the deal that [getDeal] returns for an
    r_hash is a deal object with that r_hash. *)
Theorem getDeal_r_hash sha256 btc ltc s h r :
  reachable sha256 btc ltc s →
  getDeal h s = Some r →
  ∃ d, heap s !! r = Some d ∧ r_hash d = h.
Proof.
  intros Hreach. revert h r. change (registry_ok s). revert s Hreach.
  apply rtc_ind_r.
  - intros h r Hget. unfold getDeal in Hget. cbn in Hget. by rewrite lookup_empty in Hget.
  - intros s1 s2 _ Hstep IH. by eapply step_registry_ok.
Qed.

Lemma getDeal_r_hash_witness :
  ∃ d, heap maker2 !! 1 = Some d ∧ r_hash d = "ab".
Proof.
  assert (reachable digest_stub btc0 ltc0 maker2) as Hreach.
  { eapply rtc_r; [apply maker1_reachable|]. apply step_acceptDeal. }
  apply (getDeal_r_hash digest_stub btc0 ltc0 maker2 "ab" 1 Hreach).
  vm_compute. reflexivity.
Defined.

(** ** The moves of the state machine in closed form *)

Lemma with_deal_eq {A} r (m : DealM A) s d res d' out :
  heap s !! r = Some d → m d = (res, d', out) → with_deal r m s = (res, update_deal r d' out s).
Proof. intros Hl Hm. by rewrite (with_deal_Some _ _ _ d), Hm. Qed.

Lemma update_deal_lookup r d' out s :
  r < length (heap s) → heap (update_deal r d' out s) !! r = Some d'.
Proof. intros Hlt. cbn. by rewrite list_lookup_insert_eq. Qed.

Lemma update_deal_getDeal r d' out s h : getDeal h (update_deal r d' out s) = getDeal h s.
Proof. done. Qed.

Lemma setDealState_Error_eq reason d :
  state d ≠ Completed →
  setDealState Error reason d = (Ok (), report_error reason d, failed_out d).
Proof. intros Hs. unfold report_error, failed_out. run_deal. by destruct (state d). Qed.

Lemma setDealState_Error_Completed reason d :
  state d = Completed →
  setDealState Error reason d
  = (Throw (AssertionError "deal is not Active. Can not change deal state"), d, []).
Proof. intros Hs. run_deal. by rewrite Hs. Qed.

Lemma setDealPhase_legal now newPhase d :
  legal_move d newPhase = true →
  setDealPhase now newPhase d = (Ok (), advance now newPhase d, advance_out newPhase d).
Proof.
  unfold legal_move, advance, advance_out, swapResult_of. run_deal.
  destruct (state d) eqn:Hs; [|done..].
  destruct newPhase, (myRole d) eqn:Hr, (phase d) eqn:Hp; cbn; try done;
    rewrite ?Hs, ?Hr; cbn; done.
Qed.

Lemma setDealPhase_illegal now newPhase d :
  legal_move d newPhase = false →
  setDealPhase now newPhase d
  = (Throw (AssertionError (illegal_move_message d newPhase)), d, []).
Proof.
  unfold legal_move, illegal_move_message. run_deal.
  destruct (state d) eqn:Hs; [|done..].
  destruct newPhase, (myRole d) eqn:Hr, (phase d) eqn:Hp; cbn; done.
Qed.

(** X7: [setDealPhase] succeeds exactly when the deal is [Active] and the
    new phase is the next one on the path of the deal's role; it then sets the
    phase (with [executeTime] on [AmountSent], with [competionTime] and state
    [Completed] on [SwapCompleted]) and emits [swap.paid] on [AmountReceived]
    and nothing otherwise.  In every other case it throws an assertion error,
    leaves the deal as it was and emits nothing. *)
Theorem setDealPhase_spec now newPhase d :
  setDealPhase now newPhase d
  = if legal_move d newPhase
    then (Ok (), advance now newPhase d, advance_out newPhase d)
    else (Throw (AssertionError (illegal_move_message d newPhase)), d, []).
Proof.
  destruct (legal_move d newPhase) eqn:H;
    [by apply setDealPhase_legal|by apply setDealPhase_illegal].
Qed.

(** ** Completion and error packets on registered deals *)

(** X8: for a registered deal that is [Active] in phase [AmountReceived],
    [handleSwapComplete] returns normally and makes the deal [Completed] in
    phase [SwapCompleted], stamps [competionTime] and sets the reason to the
    completion text with the deal's preimage; it emits no event and sends no
    packet, and the registry is as before. *)
Theorem handleSwapComplete_completes now h s r d :
  getDeal h s = Some r →
  heap s !! r = Some d →
  state d = Active →
  phase d = AmountReceived →
  handleSwapComplete now h s = (Ok (), update_deal r (advance now SwapCompleted d) [] s)
  ∧ state (advance now SwapCompleted d) = Completed
  ∧ phase (advance now SwapCompleted d) = SwapCompleted
  ∧ competionTime (advance now SwapCompleted d) = Some now
  ∧ stateReason (advance now SwapCompleted d)
    = "Swap completed. preimage = " +:+ to_string (r_preimage d).
Proof.
  intros Hget Hl Hs Hp. split; [|done].
  unfold handleSwapComplete. rewrite Hget. apply (with_deal_eq _ _ _ d); [done|].
  rewrite setDealPhase_legal; [done|].
  unfold legal_move. rewrite Hs, Hp. by destruct (myRole d).
Qed.

Lemma handleSwapComplete_completes_witness :
  (state <$> heap (handleSwapComplete 1003 hash0 taker3).2 !! 0) = Some Completed
  ∧ (handleSwapComplete 1003 hash0 taker3).1 = Ok ().
Proof.
  assert (∃ d, heap taker3 !! 0 = Some d ∧ state d = Active ∧ phase d = AmountReceived)
    as (d & Hl & Hs & Hp) by (eexists; split_and!; vm_compute; reflexivity).
  assert (getDeal hash0 taker3 = Some 0) as Hget by (vm_compute; reflexivity).
  destruct (handleSwapComplete_completes 1003 hash0 taker3 0 d Hget Hl Hs Hp) as (Heq & Hst & _).
  rewrite Heq. cbn [fst snd]. rewrite update_deal_lookup by (by eapply lookup_lt_Some).
  cbn [fmap option_fmap option_map]. by rewrite Hst.
Defined.

(** X9: for a registered deal, [handleSwapError] sets an [Active] deal to
    [Error] with the packet's message as reason and emits [swap.failed] once;
    on a deal already in [Error] it appends ["; "] and the message to the
    reason and emits nothing; on a [Completed] deal it fails the assertion of
    [setDealState] and changes nothing. *)
Theorem handleSwapError_by_state body s r d :
  getDeal (err_r_hash body) s = Some r →
  heap s !! r = Some d →
  handleSwapError body s
  = match state d with
    | Active =>
        (Ok (),
         update_deal r (set_stateReason (err_errorMessage body) (set_state Error d))
           [emit_swap_failed] s)
    | Error =>
        (Ok (),
         update_deal r (set_stateReason (stateReason d +:+ "; " +:+ err_errorMessage body) d)
           [] s)
    | Completed =>
        (Throw (AssertionError "deal is not Active. Can not change deal state"), s)
    end.
Proof.
  intros Hget Hl. unfold handleSwapError. rewrite Hget.
  destruct (state d) eqn:Hs.
  - apply (with_deal_eq _ _ _ d); [done|].
    rewrite setDealState_Error_eq by (rewrite Hs; done).
    unfold report_error, failed_out. by rewrite Hs.
  - apply (with_deal_eq _ _ _ d); [done|].
    rewrite setDealState_Error_eq by (rewrite Hs; done).
    unfold report_error, failed_out. by rewrite Hs.
  - apply with_deal_unchanged with (d := d); [done|].
    by apply setDealState_Error_Completed.
Qed.

Lemma handleSwapError_by_state_witness :
  (handleSwapError {| err_r_hash := hash0; err_errorMessage := "late" |} taker_completed).1
  = Throw (AssertionError "deal is not Active. Can not change deal state").
Proof.
  assert (∃ d, heap taker_completed !! 0 = Some d ∧ state d = Completed) as (d & Hl & Hs)
    by (eexists; split; vm_compute; reflexivity).
  assert (getDeal hash0 taker_completed = Some 0) as Hget by (vm_compute; reflexivity).
  rewrite (handleSwapError_by_state {| err_r_hash := hash0; err_errorMessage := "late" |}
             taker_completed 0 d Hget Hl).
  by rewrite Hs.
Defined.

Lemma handleSwapError_Active body s r d :
  getDeal (err_r_hash body) s = Some r →
  heap s !! r = Some d →
  state d = Active →
  handleSwapError body s
  = (Ok (), update_deal r (set_stateReason (err_errorMessage body) (set_state Error d))
              [emit_swap_failed] s).
Proof.
  intros Hget Hl Hs. unfold handleSwapError. rewrite Hget.
  apply (with_deal_eq _ _ _ d); [done|].
  rewrite setDealState_Error_eq by (rewrite Hs; done).
  unfold report_error, failed_out. by rewrite Hs.
Qed.

Lemma handleSwapError_Error body s r d :
  getDeal (err_r_hash body) s = Some r →
  heap s !! r = Some d →
  state d = Error →
  handleSwapError body s
  = (Ok (), update_deal r (set_stateReason (stateReason d +:+ "; " +:+ err_errorMessage body) d)
              [] s).
Proof.
  intros Hget Hl Hs. unfold handleSwapError. rewrite Hget.
  apply (with_deal_eq _ _ _ d); [done|].
  rewrite setDealState_Error_eq by (rewrite Hs; done).
  unfold report_error, failed_out. by rewrite Hs.
Qed.

(** X10: two error packets in a row for a registered [Active] deal leave it
    in [Error] with the reason [first; second], and [swap.failed] is emitted
    once, for the first. *)
Theorem double_error h first second s r d :
  getDeal h s = Some r →
  heap s !! r = Some d →
  state d = Active →
  let s1 := (handleSwapError {| err_r_hash := h; err_errorMessage := first |} s).2 in
  let s2 := (handleSwapError {| err_r_hash := h; err_errorMessage := second |} s1).2 in
  ∃ d2, heap s2 !! r = Some d2
        ∧ state d2 = Error
        ∧ stateReason d2 = first +:+ "; " +:+ second
        ∧ trace s2 = trace s ++ [(r, emit_swap_failed)].
Proof.
  intros Hget Hl Hs s1 s2. pose proof (lookup_lt_Some _ _ _ Hl) as Hlt.
  subst s2 s1.
  rewrite (handleSwapError_Active _ s r d) by done. cbn [snd].
  erewrite (handleSwapError_Error _ _ r); [| |by apply update_deal_lookup|]; [|done..].
  cbn [snd]. eexists. split; [apply update_deal_lookup; cbn; by rewrite length_insert|].
  split_and!; [done..|]. cbn. by rewrite app_nil_r.
Qed.

Lemma double_error_witness :
  ∃ d2, heap (handleSwapError {| err_r_hash := hash0; err_errorMessage := "B" |}
                (handleSwapError {| err_r_hash := hash0; err_errorMessage := "A" |} taker2).2).2
          !! 0 = Some d2
        ∧ stateReason d2 = "A; B".
Proof.
  assert (∃ d, heap taker2 !! 0 = Some d ∧ state d = Active) as (d & Hl & Hs)
    by (eexists; split; vm_compute; reflexivity).
  assert (getDeal hash0 taker2 = Some 0) as Hget by (vm_compute; reflexivity).
  destruct (double_error hash0 "A" "B" taker2 0 d Hget Hl Hs) as (d2 & Hl2 & _ & Hr & _).
  exists d2. split; [exact Hl2|exact Hr].
Defined.

(** ** The taker's entry point *)

Lemma beginSwap_unfold sha256 now preimage peer maker taker s :
  let body := beginSwap_body sha256 (lndBtcClient s) (lndLtcClient s) preimage maker taker in
  let d0 := beginSwap_deal now preimage peer maker taker body in
  let m := beginSwap_sync now (lndBtcClient s) (lndLtcClient s) peer body in
  beginSwap sha256 now preimage peer maker taker s
  = ((m d0).1.1,
     {| heap := heap s ++ [(m d0).1.2];
        deals := <[req_r_hash body := length (heap s)]> (deals s);
        lndBtcClient := lndBtcClient s;
        lndLtcClient := lndLtcClient s;
        trace := trace s ++ ((λ o, (length (heap s), o)) <$> (m d0).2) |}).
Proof.
  intros body d0 m. unfold beginSwap, new_deal. fold body. fold d0.
  assert (heap (set_heap (heap s ++ [d0]) s) !! length (heap s) = Some d0) as Hnew.
  { cbn [heap set_heap]. by rewrite lookup_app_r, Nat.sub_diag. }
  unfold addDeal. rewrite Hnew.
  rewrite (with_deal_Some _ _ _ d0) by done. fold m.
  cbn [heap set_heap set_deals set_trace deals trace lndBtcClient lndLtcClient r_hash d0
       beginSwap_deal].
  f_equal. f_equal.
  replace (length (heap s)) with (length (heap s) + 0) at 1 by lia.
  by rewrite insert_app_r.
Qed.

Lemma beginSwap_body_LTC_BTC sha256 btc ltc preimage maker taker :
  maker_pairId maker = "LTC/BTC" →
  beginSwap_body sha256 btc ltc preimage maker taker
  = {| req_takerCurrency := if taker_isBuy taker then "LTC" else "BTC";
       req_makerCurrency := if taker_isBuy taker then "BTC" else "LTC";
       req_takerAmount := (calculateSwapAmounts (taker_quantity taker) (maker_price maker)).1;
       req_makerAmount := (calculateSwapAmounts (taker_quantity taker) (maker_price maker)).2;
       req_takerCltvDelta := cltvDelta (if taker_isBuy taker then ltc else btc);
       req_r_hash := toString_hex (sha256 preimage);
       req_orderId := maker_id maker;
       req_pairId := "LTC/BTC";
       req_proposedQuantity := taker_quantity taker |}.
Proof.
  intros Hp. unfold beginSwap_body. rewrite Hp.
  destruct (calculateSwapAmounts _ _) as [ta ma]. by destruct (taker_isBuy taker).
Qed.

Lemma verifyExecution_true s maker taker :
  verifyExecution s maker taker = true
  ↔ maker_pairId maker = taker_pairId taker ∧ maker_pairId maker = "LTC/BTC"
    ∧ isConnected (lndBtcClient s) = true ∧ isConnected (lndLtcClient s) = true.
Proof.
  unfold verifyExecution, isPairSupported.
  destruct (String.eqb_spec (maker_pairId maker) (taker_pairId taker)) as [He|Hne];
    destruct (String.eqb_spec (maker_pairId maker) "LTC/BTC") as [Hp|Hnp];
    destruct (isConnected (lndBtcClient s)), (isConnected (lndLtcClient s)); cbn;
    split; try done; intros (? & ? & ? & ?); done.
Qed.

(** X11: [executeSwap] begins a swap exactly when the two orders have the
    same pair, the pair is ["LTC/BTC"] and both chain clients are connected:
    then it creates one deal object; in every other case it rejects at once
    and leaves the coordinator, registry and log included, as it was. *)
Theorem executeSwap_pair_check sha256 now preimage peer maker taker s :
  let supported :=
    maker_pairId maker = taker_pairId taker ∧ maker_pairId maker = "LTC/BTC"
    ∧ isConnected (lndBtcClient s) = true ∧ isConnected (lndLtcClient s) = true in
  (¬ supported → executeSwap sha256 now preimage peer maker taker s = (Ok None, s))
  ∧ (supported →
     length (heap (executeSwap sha256 now preimage peer maker taker s).2) = S (length (heap s))).
Proof.
  intros supported. pose proof (verifyExecution_true s maker taker) as Hv.
  unfold executeSwap. destruct (verifyExecution s maker taker); cbn [negb].
  - split; [intros Hn; destruct Hn; by apply Hv|].
    intros _. rewrite beginSwap_unfold. cbn [snd heap]. rewrite length_app. cbn. lia.
  - split; [done|]. intros Hs. apply Hv in Hs. done.
Qed.

Lemma executeSwap_pair_check_witness :
  executeSwap digest_stub 1000 preimage0 peerP maker_order taker_order
    (new_Swaps btc0 {| isConnected := false; cltvDelta := 576 |})
  = (Ok None, new_Swaps btc0 {| isConnected := false; cltvDelta := 576 |})
  ∧ length (heap taker1) = 1.
Proof.
  split.
  - apply (executeSwap_pair_check digest_stub 1000 preimage0 peerP maker_order taker_order
             (new_Swaps btc0 {| isConnected := false; cltvDelta := 576 |})).
    intros (_ & _ & _ & H). cbn in H. discriminate.
  - apply (executeSwap_pair_check digest_stub 1000 preimage0 peerP maker_order taker_order
             (new_Swaps btc0 ltc0)).
    split_and!; reflexivity.
Defined.

Lemma verifyLndSetup_connected btc ltc d peer :
  isConnected btc = true → isConnected ltc = true →
  verifyLndSetup btc ltc d peer
  = if negb (truthy_str (getLndPubKey peer (takerCurrency d))) then
      Some ("peer did not provide an LND PubKey for " +:+ takerCurrency d)
    else if negb (truthy_str (getLndPubKey peer (makerCurrency d))) then
      Some ("peer did not provide an LND PubKey for " +:+ makerCurrency d)
    else None.
Proof. intros Hb Hl. unfold verifyLndSetup. by rewrite Hb, Hl. Qed.

Lemma truthy_str_prefix (s1 s2 : string) : s1 ≠ "" → truthy_str (Some (s1 +:+ s2)) = true.
Proof. by destruct s1. Qed.

(** X12: when the pair is ["LTC/BTC"] on both orders and both clients are
    connected, [executeSwap] registers a new deal of role [Taker] under the
    hex digest of the preimage, with the hex preimage stored; a buying taker
    receives LTC and pays BTC and a selling taker the reverse; the taker's
    CLTV delta is the configured delta of the client of the currency the taker
    receives, and the amounts are those of [calculateSwapAmounts] for the
    taker's quantity and the maker's price. *)
Theorem executeSwap_registers sha256 now preimage peer maker taker s :
  maker_pairId maker = "LTC/BTC" →
  taker_pairId taker = "LTC/BTC" →
  isConnected (lndBtcClient s) = true →
  isConnected (lndLtcClient s) = true →
  let s' := (executeSwap sha256 now preimage peer maker taker s).2 in
  let h := toString_hex (sha256 preimage) in
  getDeal h s' = Some (length (heap s))
  ∧ ∃ d, heap s' !! length (heap s) = Some d
         ∧ myRole d = Taker
         ∧ r_hash d = h
         ∧ r_preimage d = Some (toString_hex preimage)
         ∧ takerCurrency d = (if taker_isBuy taker then "LTC" else "BTC")
         ∧ makerCurrency d = (if taker_isBuy taker then "BTC" else "LTC")
         ∧ takerCltvDelta d
           = cltvDelta (if taker_isBuy taker then lndLtcClient s else lndBtcClient s)
         ∧ (takerAmount d, makerAmount d)
           = calculateSwapAmounts (taker_quantity taker) (maker_price maker)
         ∧ proposedQuantity d = taker_quantity taker
         ∧ price d = maker_price maker.
Proof.
  intros Hmp Htp Hb Hl s' h. subst s'.
  assert (verifyExecution s maker taker = true) as Hv
    by (apply verifyExecution_true; rewrite Hmp, Htp; done).
  unfold executeSwap. rewrite Hv. cbn [negb]. rewrite beginSwap_unfold.
  cbn [snd heap deals getDeal]. unfold getDeal. cbn [deals].
  rewrite beginSwap_body_LTC_BTC by done. cbn [req_r_hash]. fold h.
  rewrite lookup_insert_eq. split; [done|].
  eexists. rewrite lookup_app_r, Nat.sub_diag by done. split; [done|].
  match goal with
  | |- context [beginSwap_sync ?n ?b ?l ?p ?body ?d0] =>
      pose proof (identity_rel_Respected) as HR;
      destruct (keeps_beginSwap_sync _ HR n b l p body d0) as [[] _]
  end.
  (* the preimage is not assigned by [beginSwap_sync] *)
  match goal with
  | |- context [beginSwap_sync ?n ?b ?l ?p ?body ?d0] =>
      assert (r_preimage (beginSwap_sync n b l p body d0).1.2 = r_preimage d0) as Hpre
  end.
  { unfold beginSwap_sync. run_deal. cbn. by destruct (truthy_str _). }
  rewrite same_myRole0, same_r_hash0, Hpre, same_takerCurrency0, same_makerCurrency0,
    same_takerCltvDelta0, same_takerAmount0, same_makerAmount0, same_proposedQuantity0,
    same_price0.
  cbn. split_and!; done.
Qed.

Lemma executeSwap_registers_witness :
  getDeal hash0 taker1 = Some 0
  ∧ ∃ d, heap taker1 !! 0 = Some d ∧ takerCurrency d = "LTC" ∧ makerCurrency d = "BTC"
         ∧ takerCltvDelta d = 576%float.
Proof.
  destruct (executeSwap_registers digest_stub 1000 preimage0 peerP maker_order taker_order
              (new_Swaps btc0 ltc0) eq_refl eq_refl eq_refl eq_refl)
    as (Hget & d & Hl & _ & _ & _ & Ht & Hm & Hc & _).
  split; [exact Hget|]. exists d. split_and!; [exact Hl|exact Ht|exact Hm|exact Hc].
Defined.

Lemma beginSwap_sync_sends now btc ltc peer body d :
  verifyLndSetup btc ltc d peer = None →
  state d = Active → myRole d = Taker → phase d = SwapCreated →
  beginSwap_sync now btc ltc peer body d
  = (Ok (Some (r_hash d)), set_phase SwapRequested d,
     [sendPacket (nodePubKey peer) (SwapRequestPacket body)]).
Proof.
  intros Hv Hs Hr Hp. unfold beginSwap_sync.
  unfold mbind at 1, DealM_bind at 1, bind at 1, get at 1. rewrite Hv. cbn [truthy_str].
  unfold mbind at 1, DealM_bind at 1, bind at 1, tell at 1.
  unfold mbind at 1, DealM_bind at 1, bind at 1.
  rewrite setDealPhase_legal by (unfold legal_move; by rewrite Hs, Hr, Hp).
  by run_deal.
Qed.

Lemma beginSwap_sync_fails now btc ltc peer body d msg :
  verifyLndSetup btc ltc d peer = Some msg → msg ≠ "" →
  state d = Active →
  beginSwap_sync now btc ltc peer body d
  = (Ok None, set_stateReason msg (set_state Error d), [emit_swap_failed]).
Proof.
  intros Hv Hmsg Hs. unfold beginSwap_sync.
  unfold mbind at 1, DealM_bind at 1, bind at 1, get at 1. rewrite Hv.
  assert (truthy_str (Some msg) = true) as -> by (by destruct msg).
  unfold mbind at 1, DealM_bind at 1, bind at 1.
  rewrite setDealState_Error_eq by (by rewrite Hs).
  unfold report_error, failed_out. rewrite Hs. by run_deal.
Qed.

(** X13: when [executeSwap] begins a swap (pair ["LTC/BTC"] on both orders,
    both clients connected) and the peer advertises a non-empty LND key for
    LTC and for BTC, it sends exactly the swap-request packet to the peer,
    leaves the new deal [Active] in phase [SwapRequested] and hands the r_hash
    to the listeners.  When the peer lacks one of the keys, it sends no packet,
    sets the new deal to [Error], emits [swap.failed] for it and rejects. *)
Theorem executeSwap_outcome sha256 now preimage peer maker taker s :
  maker_pairId maker = "LTC/BTC" →
  taker_pairId taker = "LTC/BTC" →
  isConnected (lndBtcClient s) = true →
  isConnected (lndLtcClient s) = true →
  let res := executeSwap sha256 now preimage peer maker taker s in
  let r := length (heap s) in
  let body := beginSwap_body sha256 (lndBtcClient s) (lndLtcClient s) preimage maker taker in
  if truthy_str (getLndPubKey peer "LTC") && truthy_str (getLndPubKey peer "BTC") then
    res.1 = Ok (Some (toString_hex (sha256 preimage)))
    ∧ trace res.2 = trace s ++ [(r, sendPacket (nodePubKey peer) (SwapRequestPacket body))]
    ∧ ∃ d, heap res.2 !! r = Some d ∧ state d = Active ∧ phase d = SwapRequested
  else
    res.1 = Ok None
    ∧ trace res.2 = trace s ++ [(r, emit_swap_failed)]
    ∧ ∃ d, heap res.2 !! r = Some d ∧ state d = Error ∧ phase d = SwapCreated.
Proof.
  intros Hmp Htp Hb Hl res r body. subst res.
  assert (verifyExecution s maker taker = true) as Hv
    by (apply verifyExecution_true; rewrite Hmp, Htp; done).
  unfold executeSwap. rewrite Hv. cbn [negb]. rewrite beginSwap_unfold. fold body. fold r.
  cbn [fst snd heap trace].
  set (d0 := beginSwap_deal now preimage peer maker taker body).
  pose proof (verifyLndSetup_connected _ _ d0 peer Hb Hl) as Hsetup.
  assert (takerCurrency d0 = (if taker_isBuy taker then "LTC" else "BTC")
          ∧ makerCurrency d0 = (if taker_isBuy taker then "BTC" else "LTC")) as [Htc Hmc].
  { subst d0 body. rewrite beginSwap_body_LTC_BTC by done. done. }
  rewrite Htc, Hmc in Hsetup.
  destruct (truthy_str (getLndPubKey peer "LTC")) eqn:Hkl;
    destruct (truthy_str (getLndPubKey peer "BTC")) eqn:Hkb; cbn [andb].
  - assert (verifyLndSetup (lndBtcClient s) (lndLtcClient s) d0 peer = None) as Hnone.
    { rewrite Hsetup. destruct (taker_isBuy taker); by rewrite Hkl, Hkb. }
    rewrite (beginSwap_sync_sends _ _ _ _ _ _ Hnone) by done. cbn [fst snd fmap list_fmap].
    split_and!; [subst d0 body; cbn [r_hash beginSwap_deal]; by rewrite beginSwap_body_LTC_BTC|done|].
    eexists. by rewrite lookup_app_r, Nat.sub_diag.
  - destruct (verifyLndSetup (lndBtcClient s) (lndLtcClient s) d0 peer) as [msg|] eqn:Hmsg.
    2:{ destruct (taker_isBuy taker); rewrite ?Hkl, ?Hkb in Hsetup; cbn in Hsetup; done. }
    assert (msg ≠ "") as Hne.
    { destruct (taker_isBuy taker); rewrite ?Hkl, ?Hkb in Hsetup; cbn in Hsetup;
        injection Hsetup as ->; intros Heq; vm_compute in Heq; discriminate Heq. }
    rewrite (beginSwap_sync_fails _ _ _ _ _ _ _ Hmsg Hne) by done. cbn [fst snd fmap list_fmap].
    split_and!; [done..|]. eexists. by rewrite lookup_app_r, Nat.sub_diag.
  - destruct (verifyLndSetup (lndBtcClient s) (lndLtcClient s) d0 peer) as [msg|] eqn:Hmsg.
    2:{ destruct (taker_isBuy taker); rewrite ?Hkl, ?Hkb in Hsetup; cbn in Hsetup; done. }
    assert (msg ≠ "") as Hne.
    { destruct (taker_isBuy taker); rewrite ?Hkl, ?Hkb in Hsetup; cbn in Hsetup;
        injection Hsetup as ->; intros Heq; vm_compute in Heq; discriminate Heq. }
    rewrite (beginSwap_sync_fails _ _ _ _ _ _ _ Hmsg Hne) by done. cbn [fst snd fmap list_fmap].
    split_and!; [done..|]. eexists. by rewrite lookup_app_r, Nat.sub_diag.
  - destruct (verifyLndSetup (lndBtcClient s) (lndLtcClient s) d0 peer) as [msg|] eqn:Hmsg.
    2:{ destruct (taker_isBuy taker); rewrite ?Hkl, ?Hkb in Hsetup; cbn in Hsetup; done. }
    assert (msg ≠ "") as Hne.
    { destruct (taker_isBuy taker); rewrite ?Hkl, ?Hkb in Hsetup; cbn in Hsetup;
        injection Hsetup as ->; intros Heq; vm_compute in Heq; discriminate Heq. }
    rewrite (beginSwap_sync_fails _ _ _ _ _ _ _ Hmsg Hne) by done. cbn [fst snd fmap list_fmap].
    split_and!; [done..|]. eexists. by rewrite lookup_app_r, Nat.sub_diag.
Qed.

Lemma executeSwap_outcome_witness :
  trace taker1
  = [(0, sendPacket "P"
           (SwapRequestPacket
              (beginSwap_body digest_stub btc0 ltc0 preimage0 maker_order taker_order)))].
Proof.
  pose proof (executeSwap_outcome digest_stub 1000 preimage0 peerP maker_order taker_order
                (new_Swaps btc0 ltc0) eq_refl eq_refl eq_refl eq_refl) as H.
  cbn zeta in H. change (truthy_str (getLndPubKey peerP "LTC")) with true in H.
  change (truthy_str (getLndPubKey peerP "BTC")) with true in H. cbn [andb] in H.
  destruct H as (_ & Ht & _). exact Ht.
Defined.

(** ** The maker's stretches in closed form *)

Lemma acceptDeal_fail_Active peer reqId reason d :
  state d = Active →
  acceptDeal_fail peer reqId reason d
  = (Ok (Return false), set_stateReason reason (set_state Error d),
     [emit_swap_failed; refusal_packet d peer reqId reason]).
Proof.
  intros Hs. unfold acceptDeal_fail, sendErrorToPeer, refusal_packet. run_deal.
  rewrite Hs. done.
Qed.

Lemma verifyLndSetup_nonempty btc ltc d peer msg :
  verifyLndSetup btc ltc d peer = Some msg → msg ≠ "".
Proof.
  unfold verifyLndSetup.
  repeat match goal with
         | |- context [if ?b then _ else _] => destruct b
         end; intros [= <-] Heq; try done; vm_compute in Heq; discriminate Heq.
Qed.

Lemma acceptDeal_sync_refuses btc ltc requestPacket peer d reason :
  state d = Active →
  acceptDeal_refusal btc ltc d peer = Some reason →
  acceptDeal_sync btc ltc requestPacket peer d
  = (Ok (Return false), set_stateReason reason (set_state Error d),
     [emit_swap_failed; refusal_packet d peer (request_id requestPacket) reason]).
Proof.
  intros Hs. unfold acceptDeal_refusal, acceptDeal_sync.
  unfold mbind at 1, DealM_bind at 1, bind at 1, get at 1.
  destruct (verifyLndSetup btc ltc d peer) as [msg|] eqn:Hv.
  - intros [= <-]. assert (truthy_str (Some msg) = true) as ->.
    { apply verifyLndSetup_nonempty in Hv. by destruct msg. }
    by rewrite acceptDeal_fail_Active.
  - cbn [truthy_str]. destruct (chain_of (takerCurrency d)); [done|].
    intros [= <-]. by rewrite acceptDeal_fail_Active.
Qed.

Lemma acceptDeal_sync_queries btc ltc requestPacket peer d :
  acceptDeal_refusal btc ltc d peer = None →
  ∃ lndclient,
    chain_of (takerCurrency d) = Some lndclient
    ∧ acceptDeal_sync btc ltc requestPacket peer d
      = (Ok (Await (queryRoutes lndclient (req_takerAmount (request_body requestPacket))
                      (req_takerCltvDelta (request_body requestPacket)) 1
                      (getLndPubKey peer (req_takerCurrency (request_body requestPacket))))),
         d, []).
Proof.
  unfold acceptDeal_refusal, acceptDeal_sync.
  unfold mbind at 1, DealM_bind at 1, bind at 1, get at 1.
  destruct (verifyLndSetup btc ltc d peer) as [msg|] eqn:Hv; [done|].
  cbn [truthy_str]. destruct (chain_of (takerCurrency d)) as [c|]; [|done].
  intros _. by exists c.
Qed.

(** X14: [acceptDeal] registers a new deal of role [Maker] under the r_hash
    of the request in every case.  When the LND setup check fails or the taker
    currency is neither BTC nor LTC it returns [false], leaves the new deal in
    [Error] with the reason, emits [swap.failed] once and sends the peer one
    swap-error packet that carries the r_hash, the reason and the id of the
    request.  Otherwise it logs nothing, leaves the deal [Active] in
    [SwapCreated] and queries one route on the client of the taker currency
    for the taker amount and the taker's CLTV delta. *)
Theorem acceptDeal_first_stretch now orderToAccept requestPacket peer s :
  let body := request_body requestPacket in
  let d0 := acceptDeal_deal now orderToAccept body peer in
  let r := length (heap s) in
  let res := acceptDeal now orderToAccept requestPacket peer s in
  getDeal (req_r_hash body) res.2 = Some r
  ∧ match acceptDeal_refusal (lndBtcClient s) (lndLtcClient s) d0 peer with
    | Some reason =>
        res.1 = Ok (Return false)
        ∧ heap res.2 !! r = Some (set_stateReason reason (set_state Error d0))
        ∧ trace res.2
          = trace s ++ [(r, emit_swap_failed);
                        (r, refusal_packet d0 peer (request_id requestPacket) reason)]
    | None =>
        ∃ lndclient,
          chain_of (req_takerCurrency body) = Some lndclient
          ∧ res.1 = Ok (Await (queryRoutes lndclient (req_takerAmount body)
                                 (req_takerCltvDelta body) 1
                                 (getLndPubKey peer (req_takerCurrency body))))
          ∧ heap res.2 !! r = Some d0
          ∧ trace res.2 = trace s
    end.
Proof.
  intros body d0 r res. subst res. rewrite acceptDeal_unfold. fold body. fold d0. fold r.
  cbn [fst snd heap deals trace getDeal]. unfold getDeal. cbn [deals].
  rewrite lookup_insert_eq. split; [done|].
  destruct (acceptDeal_refusal (lndBtcClient s) (lndLtcClient s) d0 peer) as [reason|] eqn:Href.
  - rewrite (acceptDeal_sync_refuses _ _ _ _ _ reason) by done.
    cbn [fst snd fmap list_fmap]. rewrite lookup_app_r, Nat.sub_diag by done. done.
  - destruct (acceptDeal_sync_queries _ _ requestPacket _ _ Href) as (c & Hc & ->).
    exists c. cbn [fst snd fmap list_fmap].
    rewrite lookup_app_r, Nat.sub_diag, app_nil_r by done. done.
Qed.

(** X15: on an [Active] deal the stretch of [acceptDeal] after the route
    query stores a non-empty list of routes on the deal, logs nothing and goes
    on to ask the same client for the block height; on an empty list, and on a
    query that threw, it returns [false] with the deal in [Error] (the thrown
    message is part of the reason), one [swap.failed] and one swap-error
    packet for the request. *)
Theorem acceptDeal_after_routes lndclient requestPacket peer routes d :
  state d = Active →
  acceptDeal_onRoutes lndclient requestPacket peer routes d
  = match routes with
    | Resolved (route :: rest) =>
        (Ok (Await (getInfo lndclient)), set_makerToTakerRoutes (Some (route :: rest)) d, [])
    | Resolved [] =>
        let reason := "Can not swap. unable to find route to destination." in
        (Ok (Return false),
         set_stateReason reason (set_state Error (set_makerToTakerRoutes (Some []) d)),
         [emit_swap_failed; refusal_packet d peer (request_id requestPacket) reason])
    | Rejected err =>
        let reason := "Can not swap. unable to find route to destination: " +:+ message err in
        (Ok (Return false), set_stateReason reason (set_state Error d),
         [emit_swap_failed; refusal_packet d peer (request_id requestPacket) reason])
    end.
Proof.
  intros Hs. unfold acceptDeal_onRoutes, try_catch.
  destruct routes as [[|route rest]|err].
  - unfold mbind at 1, DealM_bind at 1, bind at 1, modify at 1. cbn [length Nat.eqb].
    by rewrite acceptDeal_fail_Active.
  - by run_deal.
  - unfold throw. by rewrite acceptDeal_fail_Active.
Qed.

Lemma acceptDeal_after_routes_witness :
  (acceptDeal_onRoutes LTC request0 peerP (Resolved [])
     (acceptDeal_deal 2000 order0 (request_body request0) peerP)).1.1
  = Ok (Return false).
Proof.
  by rewrite (acceptDeal_after_routes LTC request0 peerP (Resolved [])
                (acceptDeal_deal 2000 order0 (request_body request0) peerP) eq_refl).
Defined.

(** X16: on an [Active] deal of role [Maker] in phase [SwapCreated] that
    holds a route, the stretch of [acceptDeal] after the block height sets
    [makerCltvDelta] (for maker currency LTC to
    [ltc.cltvDelta + routeCltvDelta * (ltc.cltvDelta / btc.cltvDelta)]; for a
    maker currency that is neither BTC nor LTC the field keeps what it held),
    sends the peer exactly one swap-response packet with that delta, the
    r_hash and, as accepted quantity, the proposed quantity of the request,
    moves the deal to [SwapAgreed] and returns [true]. *)
Theorem acceptDeal_agrees now btc ltc requestPacket peer height d route0 routes :
  state d = Active →
  myRole d = Maker →
  phase d = SwapCreated →
  makerToTakerRoutes d = Some (route0 :: routes) →
  let body := request_body requestPacket in
  let delta :=
    makerCltvDelta_after btc ltc (req_makerCurrency body)
      (getTotalTimeLock route0 - height)%float (makerCltvDelta d) in
  acceptDeal_onInfo now btc ltc requestPacket peer (Resolved height) d
  = (Ok (Return true), set_phase SwapAgreed (set_makerCltvDelta delta d),
     [sendPacket (nodePubKey peer)
        (SwapResponsePacket
           {| resp_makerCltvDelta := delta;
              resp_r_hash := req_r_hash body;
              resp_quantity := Some (req_proposedQuantity body) |}
           (request_id requestPacket))])
  ∧ (req_makerCurrency body = "LTC" →
     delta = Some (cltvDelta ltc
                   + (getTotalTimeLock route0 - height) * (cltvDelta ltc / cltvDelta btc))%float).
Proof.
  intros Hs Hr Hp Hroutes body delta. split.
  2:{ intros Hc. subst delta. unfold makerCltvDelta_after. by rewrite Hc. }
  subst delta. unfold acceptDeal_onInfo, makerCltvDelta_after. fold body.
  unfold mbind at 1, DealM_bind at 1, bind at 1, get at 1. rewrite Hroutes.
  destruct (chain_of (req_makerCurrency body)) as [[]|];
    unfold mbind at 1, DealM_bind at 1, bind at 1; cbn [modify mret DealM_ret ret];
    unfold mbind at 1, DealM_bind at 1, bind at 1, get at 1;
    unfold mbind at 1, DealM_bind at 1, bind at 1, tell at 1;
    unfold mbind at 1, DealM_bind at 1, bind at 1;
    (rewrite setDealPhase_legal by (unfold legal_move; cbn; by rewrite Hs, Hr, Hp));
    cbn; done.
Qed.

Lemma acceptDeal_agrees_witness :
  (acceptDeal_onInfo 2002 btc0 ltc0 request0 peerP (Resolved 500%float)
     (set_makerToTakerRoutes (Some [route0])
        (acceptDeal_deal 2000 order0 (request_body request0) peerP))).1.1
  = Ok (Return true).
Proof.
  by rewrite (proj1 (acceptDeal_agrees 2002 btc0 ltc0 request0 peerP 500%float
                       (set_makerToTakerRoutes (Some [route0])
                          (acceptDeal_deal 2000 order0 (request_body request0) peerP))
                       route0 [] eq_refl eq_refl eq_refl eq_refl)).
Defined.

(** ** The taker's stretches in closed form *)

Lemma legal_move_record_response body d p :
  legal_move (record_response body d) p = legal_move d p.
Proof.
  unfold record_response, legal_move.
  destruct (resp_quantity body) as [q|]; [destruct (truthy q)|]; done.
Qed.

Ltac split_ifs :=
  repeat match goal with
         | |- context [if ?b then _ else _] => destruct b
         end.

Lemma handleSwapResponse_sync_pays now body peer d cmdLnd :
  legal_move d AmountSent = true →
  chain_of (makerCurrency d) = Some cmdLnd →
  handleSwapResponse_sync now body peer d
  = (Ok (Await (sendPaymentSync cmdLnd (payment_request peer (record_response body d)))),
     advance now AmountSent (record_response body d), []).
Proof.
  unfold legal_move, handleSwapResponse_sync, record_response, payment_request, advance,
    sendErrorToPeer.
  run_deal. intros Hmove Hc.
  destruct (state d) eqn:Hs; [|done..].
  destruct (myRole d) eqn:Hr, (phase d) eqn:Hp; try done;
    destruct (resp_quantity body) as [q|]; cbn; split_ifs; cbn; rewrite ?Hc; cbn;
    rewrite ?Hs, ?Hr, ?Hp; cbn; done.
Qed.

Lemma handleSwapResponse_sync_unsupported now body peer d :
  chain_of (makerCurrency d) = None →
  handleSwapResponse_sync now body peer d = (Ok (Return ()), record_response body d, []).
Proof.
  unfold handleSwapResponse_sync, record_response. run_deal. intros Hc.
  destruct (resp_quantity body) as [q|]; cbn; split_ifs; cbn; rewrite ?Hc; done.
Qed.

Lemma handleSwapResponse_sync_illegal now body peer d cmdLnd :
  state d = Active →
  legal_move d AmountSent = false →
  chain_of (makerCurrency d) = Some cmdLnd →
  let reason := "AmountSent can only be set after SwapRequested (taker) or SwapAgreed (maker)" in
  handleSwapResponse_sync now body peer d
  = (Ok (Return ()), set_stateReason reason (set_state Error (record_response body d)),
     [emit_swap_failed; error_packet peer (resp_r_hash body) reason]).
Proof.
  unfold legal_move, handleSwapResponse_sync, record_response, error_packet, sendErrorToPeer.
  run_deal. intros Hs Hmove Hc. rewrite Hs in Hmove.
  destruct (myRole d) eqn:Hr, (phase d) eqn:Hp; try done;
    destruct (resp_quantity body) as [q|]; cbn; split_ifs; cbn; rewrite ?Hc; cbn;
    rewrite ?Hs, ?Hr, ?Hp; cbn; rewrite ?Hs; done.
Qed.

(** X17: for a registered [Active] deal that is a taker's in phase
    [SwapRequested] (the code does not look at the role: or a maker's in phase
    [SwapAgreed]) and whose maker currency is BTC or LTC, [handleSwapResponse]
    stores the response's CLTV delta, and its quantity when that is neither
    zero nor NaN, moves the deal to [AmountSent] with [executeTime] set, and
    issues one payment on the client of the maker currency: amount
    [makerAmount], destination the peer's key for that currency, payment hash
    the deal's r_hash, final CLTV delta the one of the response.  It emits and
    sends nothing.  When the maker currency is neither BTC nor LTC it stores
    the same two fields and returns without a phase change, a payment or an
    error. *)
Theorem handleSwapResponse_pays now body peer s r d :
  getDeal (resp_r_hash body) s = Some r →
  heap s !! r = Some d →
  legal_move d AmountSent = true →
  handleSwapResponse now body peer s
  = match chain_of (makerCurrency d) with
    | Some cmdLnd =>
        (Ok (Await (sendPaymentSync cmdLnd (payment_request peer (record_response body d)))),
         update_deal r (advance now AmountSent (record_response body d)) [] s)
    | None => (Ok (Return ()), update_deal r (record_response body d) [] s)
    end.
Proof.
  intros Hget Hl Hmove. unfold handleSwapResponse. rewrite Hget.
  destruct (chain_of (makerCurrency d)) as [c|] eqn:Hc.
  - apply (with_deal_eq _ _ _ d); [done|]. by apply handleSwapResponse_sync_pays.
  - apply (with_deal_eq _ _ _ d); [done|]. by apply handleSwapResponse_sync_unsupported.
Qed.

Lemma handleSwapResponse_pays_witness :
  (handleSwapResponse 1001 response0 peerP taker1).1
  = Ok (Await (sendPaymentSync BTC
                 {| getAmt := 100000000; getDestString := Some "lnd-BTC";
                    getPaymentHashString := hash0; getFinalCltvDelta := Some 50%float |})).
Proof.
  assert (∃ d, heap taker1 !! 0 = Some d ∧ legal_move d AmountSent = true
               ∧ chain_of (makerCurrency d) = Some BTC
               ∧ payment_request peerP (record_response response0 d)
                 = {| getAmt := 100000000; getDestString := Some "lnd-BTC";
                      getPaymentHashString := hash0; getFinalCltvDelta := Some 50%float |})
    as (d & Hl & Hmove & Hc & Hreq) by (eexists; split_and!; vm_compute; reflexivity).
  assert (getDeal (resp_r_hash response0) taker1 = Some 0) as Hget by (vm_compute; reflexivity).
  rewrite (handleSwapResponse_pays 1001 response0 peerP taker1 0 d Hget Hl Hmove), Hc.
  cbn [fst]. by rewrite Hreq.
Defined.

(** X18: a response packet for a registered [Active] deal that is not at
    the point of paying (a second response while the payment is in flight, for
    one) and whose maker currency is BTC or LTC puts the deal in [Error] with
    the message of the failed [AmountSent] assertion, emits [swap.failed] and
    sends the peer a swap-error packet with that message; no payment is
    issued and the handler returns normally. *)
Theorem handleSwapResponse_out_of_turn now body peer s r d cmdLnd :
  getDeal (resp_r_hash body) s = Some r →
  heap s !! r = Some d →
  state d = Active →
  legal_move d AmountSent = false →
  chain_of (makerCurrency d) = Some cmdLnd →
  let reason := "AmountSent can only be set after SwapRequested (taker) or SwapAgreed (maker)" in
  handleSwapResponse now body peer s
  = (Ok (Return ()),
     update_deal r (set_stateReason reason (set_state Error (record_response body d)))
       [emit_swap_failed; error_packet peer (resp_r_hash body) reason] s).
Proof.
  intros Hget Hl Hs Hmove Hc reason. unfold handleSwapResponse. rewrite Hget.
  apply (with_deal_eq _ _ _ d); [done|]. by eapply handleSwapResponse_sync_illegal.
Qed.

Lemma handleSwapResponse_out_of_turn_witness :
  (handleSwapResponse 1002 response0 peerP taker2).1 = Ok (Return ())
  ∧ (state <$> heap (handleSwapResponse 1002 response0 peerP taker2).2 !! 0) = Some Error.
Proof.
  assert (∃ d, heap taker2 !! 0 = Some d ∧ state d = Active
               ∧ legal_move d AmountSent = false ∧ chain_of (makerCurrency d) = Some BTC)
    as (d & Hl & Hs & Hmove & Hc) by (eexists; split_and!; vm_compute; reflexivity).
  assert (getDeal (resp_r_hash response0) taker2 = Some 0) as Hget by (vm_compute; reflexivity).
  rewrite (handleSwapResponse_out_of_turn 1002 response0 peerP taker2 0 d BTC Hget Hl Hs Hmove Hc).
  cbn [fst snd]. split; [done|].
  by rewrite update_deal_lookup by (by eapply lookup_lt_Some).
Defined.

(** X19: for an r_hash that has no entry in the registry,
    [handleSwapResponse] returns at once and [resolveHash] returns the text
    ["Something went wrong. Can't find deal: "] followed by the hash, never a
    preimage; both leave the coordinator as it was. *)
Theorem unknown_r_hash_response_and_resolve now body peer resolveRequest s :
  getDeal (resp_r_hash body) s = None →
  getDeal (getHash resolveRequest) s = None →
  handleSwapResponse now body peer s = (Ok (Return ()), s)
  ∧ resolveHash now resolveRequest s
    = (Ok (Return (Some ("Something went wrong. Can't find deal: " +:+ getHash resolveRequest))),
       s).
Proof. intros H1 H2. unfold handleSwapResponse, resolveHash. by rewrite H1, H2. Qed.

Lemma unknown_r_hash_response_and_resolve_witness :
  (resolveHash 5 {| getHash := "ff"; getAmount := 1; getTimeout := 2; getHeightNow := 1 |}
     taker3).1
  = Ok (Return (Some "Something went wrong. Can't find deal: ff")).
Proof.
  assert (getDeal "ff" taker3 = None) as H by (vm_compute; reflexivity).
  by rewrite (proj2 (unknown_r_hash_response_and_resolve 5
                       {| resp_makerCltvDelta := None; resp_r_hash := "ff";
                          resp_quantity := None |} peerP
                       {| getHash := "ff"; getAmount := 1; getTimeout := 2; getHeightNow := 1 |}
                       taker3 H H)).
Defined.

(** ** The resolver in closed form *)

Lemma let_triple {A} (x : Result A * SwapDeal * list Output) :
  (let (p, out2) := x in let (r, deal2) := p in (r, deal2, [] ++ out2)) = x.
Proof. by destruct x as [[? ?] ?]. Qed.

Lemma resolveHash_sync_valid now resolveRequest d :
  htlc_valid resolveRequest d →
  resolveHash_sync now resolveRequest d
  = if role_eqb (myRole d) Maker then
      try_catch
        (setDealPhase now AmountSent;;
         mret (Await (sendToRouteSync (forwarding_client (makerCurrency d))
                        (makerToTakerRoutes d) (r_hash d))))
        (λ err,
           setDealState Error (message err);;
           mret (Return (Some ("Got exception from sendPaymentSync" +:+ message err)))) d
    else
      (setDealPhase now AmountReceived;;
       deal ← get;
       mret (Return (r_preimage deal))) d.
Proof.
  intros Hv. unfold resolveHash_sync.
  unfold mbind at 1, DealM_bind at 1, bind at 1. rewrite validateRequest_valid by done.
  unfold mbind at 1, DealM_bind at 1, bind at 1, get at 1. cbn [negb].
  unfold forwarding_client.
  destruct (role_eqb (myRole d) Maker); rewrite !let_triple; [|done].
  by destruct (chain_of (makerCurrency d)) as [[]|].
Qed.

(** X20: for a registered deal of role [Taker] and an HTLC that passes both
    checks, [resolveHash] returns the stored preimage only when the deal is
    [Active] in phase [AmountSent]; it then moves the deal to [AmountReceived]
    and emits [swap.paid] with the deal's summary.  In every other state or
    phase it fails the assertion of [setDealPhase], returns nothing and leaves
    the deal and the log as they were. *)
Theorem resolveHash_taker now resolveRequest s r d :
  getDeal (getHash resolveRequest) s = Some r →
  heap s !! r = Some d →
  myRole d = Taker →
  htlc_valid resolveRequest d →
  resolveHash now resolveRequest s
  = if state_eqb (state d) Active && phase_eqb (phase d) AmountSent
    then (Ok (Return (r_preimage d)),
          update_deal r (set_phase AmountReceived d) [emit_swap_paid (swapResult_of d)] s)
    else (Throw (AssertionError (illegal_move_message d AmountReceived)), s).
Proof.
  intros Hget Hl Hr Hv. unfold resolveHash. rewrite Hget.
  assert (legal_move d AmountReceived
          = state_eqb (state d) Active && phase_eqb (phase d) AmountSent) as Hlegal.
  { unfold legal_move. rewrite Hr. by destruct (state d), (phase d). }
  rewrite <- Hlegal. destruct (legal_move d AmountReceived) eqn:Hmove.
  - apply (with_deal_eq _ _ _ d); [done|].
    rewrite resolveHash_sync_valid by done. rewrite Hr. cbn [role_eqb].
    unfold mbind at 1, DealM_bind at 1, bind at 1. rewrite setDealPhase_legal by done.
    by run_deal.
  - apply with_deal_unchanged with (d := d); [done|].
    rewrite resolveHash_sync_valid by done. rewrite Hr. cbn [role_eqb].
    unfold mbind at 1, DealM_bind at 1, bind at 1. by rewrite setDealPhase_illegal.
Qed.

Lemma resolveHash_taker_witness :
  (resolveHash 1002 htlc0 taker2).1 = Ok (Return (Some "0102"))
  ∧ (resolveHash 1002 htlc0 taker1).1
    = Throw (AssertionError "AmountReceived can be only be set after AmountSent").
Proof.
  assert (getDeal (getHash htlc0) taker2 = Some 0) as Hget2 by (vm_compute; reflexivity).
  assert (getDeal (getHash htlc0) taker1 = Some 0) as Hget1 by (vm_compute; reflexivity).
  assert (∃ d, heap taker2 !! 0 = Some d ∧ myRole d = Taker ∧ htlc_valid htlc0 d
               ∧ state d = Active ∧ phase d = AmountSent ∧ r_preimage d = Some "0102")
    as (d2 & Hl2 & Hr2 & Hv2 & Hs2 & Hp2 & Hpre)
    by (eexists; split_and!; vm_compute; reflexivity).
  assert (∃ d, heap taker1 !! 0 = Some d ∧ myRole d = Taker ∧ htlc_valid htlc0 d
               ∧ state d = Active ∧ phase d = SwapRequested)
    as (d1 & Hl1 & Hr1 & Hv1 & Hs1 & Hp1)
    by (eexists; split_and!; vm_compute; reflexivity).
  rewrite (resolveHash_taker 1002 htlc0 taker2 0 d2 Hget2 Hl2 Hr2 Hv2).
  rewrite (resolveHash_taker 1002 htlc0 taker1 0 d1 Hget1 Hl1 Hr1 Hv1).
  unfold illegal_move_message. rewrite Hs2, Hp2, Hs1, Hp1, Hpre. done.
Defined.

(** X21: for a registered deal of role [Maker] that is [Active] in phase
    [SwapAgreed] and an HTLC that passes both checks, [resolveHash] returns no
    answer yet: it moves the deal to [AmountSent] with [executeTime] set and
    forwards the payment along the stored routes with the deal's r_hash, on
    the BTC client when the maker currency is LTC and on the LTC client
    otherwise; nothing is emitted or sent to the peer. *)
Theorem resolveHash_maker_forwards now resolveRequest s r d :
  getDeal (getHash resolveRequest) s = Some r →
  heap s !! r = Some d →
  myRole d = Maker →
  state d = Active →
  phase d = SwapAgreed →
  htlc_valid resolveRequest d →
  resolveHash now resolveRequest s
  = (Ok (Await (sendToRouteSync (forwarding_client (makerCurrency d))
                  (makerToTakerRoutes d) (r_hash d))),
     update_deal r (advance now AmountSent d) [] s).
Proof.
  intros Hget Hl Hr Hs Hp Hv. unfold resolveHash. rewrite Hget.
  apply (with_deal_eq _ _ _ d); [done|].
  rewrite resolveHash_sync_valid by done. rewrite Hr. cbn [role_eqb]. unfold try_catch.
  unfold mbind at 1, DealM_bind at 1, bind at 1.
  rewrite setDealPhase_legal by (unfold legal_move; by rewrite Hs, Hr, Hp).
  by run_deal.
Qed.

(** X22: for a registered [Active] deal of role [Maker] that is not in
    phase [SwapAgreed] (a second HTLC while the first is being forwarded, for
    one) and an HTLC that passes both checks, [resolveHash] forwards nothing:
    the failed assertion is caught, the deal is set to [Error] with its
    message, [swap.failed] is emitted and the answer is the text
    ["Got exception from sendPaymentSync"] followed by the message, not a
    preimage. *)
Theorem resolveHash_maker_out_of_turn now resolveRequest s r d :
  getDeal (getHash resolveRequest) s = Some r →
  heap s !! r = Some d →
  myRole d = Maker →
  state d = Active →
  phase d ≠ SwapAgreed →
  htlc_valid resolveRequest d →
  let reason := "AmountSent can only be set after SwapRequested (taker) or SwapAgreed (maker)" in
  resolveHash now resolveRequest s
  = (Ok (Return (Some ("Got exception from sendPaymentSync" +:+ reason))),
     update_deal r (set_stateReason reason (set_state Error d)) [emit_swap_failed] s).
Proof.
  intros Hget Hl Hr Hs Hp Hv reason. unfold resolveHash. rewrite Hget.
  apply (with_deal_eq _ _ _ d); [done|].
  rewrite resolveHash_sync_valid by done. rewrite Hr. cbn [role_eqb]. unfold try_catch.
  unfold mbind at 1, DealM_bind at 1, bind at 1.
  rewrite setDealPhase_illegal
    by (unfold legal_move; rewrite Hs, Hr; by destruct (phase d)).
  unfold illegal_move_message. rewrite Hs. cbn [state_eqb negb message].
  unfold mbind at 1, DealM_bind at 1, bind at 1.
  rewrite setDealState_Error_eq by (by rewrite Hs).
  unfold report_error, failed_out. rewrite Hs. by run_deal.
Qed.

Lemma resolveHash_maker_forwards_witness :
  (resolveHash 2003 htlc_maker maker_agreed).1
  = Ok (Await (sendToRouteSync LTC (Some [route0]) "ab"))
  ∧ (phase <$> heap maker_forwarding !! 0) = Some AmountSent.
Proof.
  assert (getDeal (getHash htlc_maker) maker_agreed = Some 0) as Hget
    by (vm_compute; reflexivity).
  assert (∃ d, heap maker_agreed !! 0 = Some d ∧ myRole d = Maker ∧ state d = Active
               ∧ phase d = SwapAgreed ∧ htlc_valid htlc_maker d
               ∧ forwarding_client (makerCurrency d) = LTC
               ∧ makerToTakerRoutes d = Some [route0] ∧ r_hash d = "ab")
    as (d & Hl & Hr & Hs & Hp & Hv & Hc & Hroutes & Hh)
    by (eexists; split_and!; vm_compute; reflexivity).
  unfold maker_forwarding.
  rewrite (resolveHash_maker_forwards 2003 htlc_maker maker_agreed 0 d Hget Hl Hr Hs Hp Hv).
  cbn [fst snd]. rewrite Hc, Hroutes, Hh. split; [done|].
  by rewrite update_deal_lookup by (by eapply lookup_lt_Some).
Defined.

Lemma resolveHash_maker_out_of_turn_witness :
  (state <$> heap (resolveHash 2004 htlc_maker maker_forwarding).2 !! 0) = Some Error.
Proof.
  assert (getDeal (getHash htlc_maker) maker_forwarding = Some 0) as Hget
    by (vm_compute; reflexivity).
  assert (∃ d, heap maker_forwarding !! 0 = Some d ∧ myRole d = Maker ∧ state d = Active
               ∧ phase d = AmountSent ∧ htlc_valid htlc_maker d)
    as (d & Hl & Hr & Hs & Hp & Hv) by (eexists; split_and!; vm_compute; reflexivity).
  assert (phase d ≠ SwapAgreed) as Hne by (rewrite Hp; discriminate).
  rewrite (resolveHash_maker_out_of_turn 2004 htlc_maker maker_forwarding 0 d
             Hget Hl Hr Hs Hne Hv).
  cbn [snd]. by rewrite update_deal_lookup by (by eapply lookup_lt_Some).
Defined.

(** X23: on an [Active] deal in phase [AmountSent], the stretch of
    [resolveHash] after the maker's forwarded payment stores the hex of the
    returned preimage on the deal, moves it to [AmountReceived], emits
    [swap.paid] and answers with that preimage when the payment carries no
    payment error.  With a payment error it sets the deal to [Error] with the
    error as reason and answers with the error; when the call threw it sets
    [Error] with the thrown message and answers with
    ["Got exception from sendPaymentSync"] followed by it.  In the two failure
    cases [swap.failed] is emitted, no preimage is stored, and nothing is sent
    to the peer. *)
Theorem resolveHash_after_forward now response d :
  state d = Active →
  phase d = AmountSent →
  resolveHash_onSent now response d
  = match response with
    | Resolved answer =>
        if String.eqb (getPaymentError answer) "" then
          let preimage := toString_hex (getPaymentPreimage answer) in
          (Ok (Some preimage), set_phase AmountReceived (set_r_preimage (Some preimage) d),
           [emit_swap_paid (swapResult_of d)])
        else
          (Ok (Some (getPaymentError answer)),
           set_stateReason (getPaymentError answer) (set_state Error d), [emit_swap_failed])
    | Rejected err =>
        (Ok (Some ("Got exception from sendPaymentSync" +:+ message err)),
         set_stateReason (message err) (set_state Error d), [emit_swap_failed])
    end.
Proof.
  intros Hs Hp. unfold resolveHash_onSent, try_catch.
  destruct response as [answer|err].
  - destruct (String.eqb (getPaymentError answer) ""); cbn [negb].
    + unfold mbind at 1, DealM_bind at 1, bind at 1, modify at 1.
      unfold mbind at 1, DealM_bind at 1, bind at 1.
      rewrite setDealPhase_legal by (unfold legal_move; cbn; rewrite Hs, Hp; by destruct (myRole d)).
      by run_deal.
    + unfold mbind at 1, DealM_bind at 1, bind at 1.
      rewrite setDealState_Error_eq by (by rewrite Hs).
      unfold report_error, failed_out. rewrite Hs. by run_deal.
  - unfold throw. unfold mbind at 1, DealM_bind at 1, bind at 1.
    rewrite setDealState_Error_eq by (by rewrite Hs).
    unfold report_error, failed_out. rewrite Hs. by run_deal.
Qed.

Lemma resolveHash_after_forward_witness :
  ∃ d, heap maker_forwarding !! 0 = Some d
       ∧ (resolveHash_onSent 2005 (Resolved forward_paid) d).1.1 = Ok (Some "0cd0").
Proof.
  assert (∃ d, heap maker_forwarding !! 0 = Some d ∧ state d = Active ∧ phase d = AmountSent)
    as (d & Hl & Hs & Hp) by (eexists; split_and!; vm_compute; reflexivity).
  exists d. split; [exact Hl|].
  by rewrite (resolveHash_after_forward 2005 (Resolved forward_paid) d Hs Hp).
Defined.

(** ** The taker's payment returns *)

(** X24: on an [Active] deal, the stretch of [handleSwapResponse] after the
    taker's payment completes the swap only when the answer carries no payment
    error and the deal is in phase [AmountReceived] (the resolver has released
    the preimage): the deal becomes [Completed] in [SwapCompleted] and the
    peer is sent the swap-complete packet.  When the answer carries a payment
    error, when the call threw, and when the answer is good but the deal is not
    yet in [AmountReceived], the deal is set to [Error] (with the payment
    error, the thrown message, or the message of the failed assertion),
    [swap.failed] is emitted and the peer is sent a swap-error packet with the
    same message. *)
Theorem handleSwapResponse_after_payment now body peer response d :
  state d = Active →
  let fails reason :=
    (Ok (), set_stateReason reason (set_state Error d),
     [emit_swap_failed; error_packet peer (resp_r_hash body) reason]) in
  handleSwapResponse_onSent now body peer response d
  = match response with
    | Resolved answer =>
        if String.eqb (getPaymentError answer) "" then
          if phase_eqb (phase d) AmountReceived then
            (Ok (), advance now SwapCompleted d,
             [sendPacket (nodePubKey peer) (SwapCompletePacket (resp_r_hash body))])
          else fails "SwapCompleted can be only be set after AmountReceived"
        else fails (getPaymentError answer)
    | Rejected err => fails (message err)
    end.
Proof.
  intros Hs fails. subst fails. unfold handleSwapResponse_onSent, try_catch, error_packet,
    sendErrorToPeer.
  assert (∀ reason,
            (setDealState Error reason;;
             tell (sendPacket (nodePubKey peer)
                     (SwapErrorPacket
                        {| err_r_hash := resp_r_hash body; err_errorMessage := reason |} None))) d
            = (Ok (), set_stateReason reason (set_state Error d),
               [emit_swap_failed;
                sendPacket (nodePubKey peer)
                  (SwapErrorPacket
                     {| err_r_hash := resp_r_hash body; err_errorMessage := reason |} None)]))
    as Hfail.
  { intros reason. unfold mbind at 1, DealM_bind at 1, bind at 1.
    rewrite setDealState_Error_eq by (by rewrite Hs).
    unfold report_error, failed_out. rewrite Hs. by run_deal. }
  destruct response as [answer|err].
  - destruct (String.eqb (getPaymentError answer) ""); cbn [negb].
    + unfold mbind at 1, DealM_bind at 1, bind at 1.
      destruct (phase_eqb (phase d) AmountReceived) eqn:Hp.
      * rewrite setDealPhase_legal
          by (unfold legal_move; rewrite Hs; by destruct (myRole d), (phase d)).
        by run_deal.
      * rewrite setDealPhase_illegal
          by (unfold legal_move; rewrite Hs; by destruct (myRole d), (phase d)).
        unfold illegal_move_message. rewrite Hs. cbn [state_eqb negb message].
        by rewrite Hfail.
    + unfold throw. cbn [message]. by rewrite Hfail.
  - unfold throw. by rewrite Hfail.
Qed.

Lemma handleSwapResponse_after_payment_witness :
  ∃ d, heap taker2 !! 0 = Some d
       ∧ (state (handleSwapResponse_onSent 1003 response0 peerP (Resolved wrong_preimage) d).1.2)
         = Error.
Proof.
  assert (∃ d, heap taker2 !! 0 = Some d ∧ state d = Active ∧ phase d = AmountSent)
    as (d & Hl & Hs & Hp) by (eexists; split_and!; vm_compute; reflexivity).
  exists d. split; [exact Hl|].
  rewrite (handleSwapResponse_after_payment 1003 response0 peerP (Resolved wrong_preimage) d Hs).
  cbn [wrong_preimage getPaymentError String.eqb]. by rewrite Hp.
Defined.

(** ** The two happy paths, end to end *)

Lemma executeSwap_sends sha256 now preimage peer maker taker s :
  maker_pairId maker = "LTC/BTC" →
  taker_pairId taker = "LTC/BTC" →
  isConnected (lndBtcClient s) = true →
  isConnected (lndLtcClient s) = true →
  truthy_str (getLndPubKey peer "LTC") = true →
  truthy_str (getLndPubKey peer "BTC") = true →
  let body := beginSwap_body sha256 (lndBtcClient s) (lndLtcClient s) preimage maker taker in
  let d0 := beginSwap_deal now preimage peer maker taker body in
  executeSwap sha256 now preimage peer maker taker s
  = (Ok (Some (toString_hex (sha256 preimage))),
     {| heap := heap s ++ [set_phase SwapRequested d0];
        deals := <[toString_hex (sha256 preimage) := length (heap s)]> (deals s);
        lndBtcClient := lndBtcClient s;
        lndLtcClient := lndLtcClient s;
        trace := trace s ++ [(length (heap s),
                              sendPacket (nodePubKey peer) (SwapRequestPacket body))] |}).
Proof.
  intros Hmp Htp Hb Hl Hkl Hkb body d0.
  assert (verifyExecution s maker taker = true) as Hv
    by (apply verifyExecution_true; rewrite Hmp, Htp; done).
  unfold executeSwap. rewrite Hv. cbn [negb]. rewrite beginSwap_unfold. fold body. fold d0.
  assert (req_r_hash body = toString_hex (sha256 preimage)) as Hh
    by (subst body; by rewrite beginSwap_body_LTC_BTC).
  assert (verifyLndSetup (lndBtcClient s) (lndLtcClient s) d0 peer = None) as Hnone.
  { rewrite verifyLndSetup_connected by done.
    subst d0 body. cbn [takerCurrency makerCurrency beginSwap_deal].
    rewrite beginSwap_body_LTC_BTC by done. cbn [req_takerCurrency req_makerCurrency].
    destruct (taker_isBuy taker); by rewrite Hkl, Hkb. }
  rewrite (beginSwap_sync_sends _ _ _ _ _ _ Hnone) by done.
  cbn [fst snd fmap list_fmap]. rewrite Hh. subst d0. cbn [r_hash beginSwap_deal].
  by rewrite Hh.
Qed.

Lemma resolveHash_sync_taker_releases now resolveRequest d :
  myRole d = Taker → state d = Active → phase d = AmountSent →
  htlc_valid resolveRequest d →
  resolveHash_sync now resolveRequest d
  = (Ok (Return (r_preimage d)), set_phase AmountReceived d, [emit_swap_paid (swapResult_of d)]).
Proof.
  intros Hr Hs Hp Hv. rewrite resolveHash_sync_valid by done. rewrite Hr. cbn [role_eqb].
  unfold mbind at 1, DealM_bind at 1, bind at 1.
  rewrite setDealPhase_legal by (unfold legal_move; by rewrite Hs, Hr, Hp).
  by run_deal.
Qed.

Lemma handleSwapResponse_onSent_completes now body peer answer d :
  state d = Active → phase d = AmountReceived → getPaymentError answer = "" →
  handleSwapResponse_onSent now body peer (Resolved answer) d
  = (Ok (), advance now SwapCompleted d,
     [sendPacket (nodePubKey peer) (SwapCompletePacket (resp_r_hash body))]).
Proof.
  intros Hs Hp He. unfold handleSwapResponse_onSent, try_catch. rewrite He. cbn [String.eqb negb].
  unfold mbind at 1, DealM_bind at 1, bind at 1.
  rewrite setDealPhase_legal by (unfold legal_move; rewrite Hs, Hp; by destruct (myRole d)).
  by run_deal.
Qed.

(** X25: the taker's happy path.  A swap is begun for a supported pair with
    connected clients and a peer that advertises both keys; the peer's
    response for the r_hash arrives; the maker's HTLC for the r_hash passes
    both checks while the taker's payment is in flight; the payment returns
    without a payment error.  Then [executeSwap] hands out the r_hash,
    [handleSwapResponse] issues the payment of [makerAmount] on the client of
    the maker currency, [resolveHash] releases the hex of the generated
    preimage, and in the end the deal is [Completed] in [SwapCompleted] and the
    log has grown by exactly the swap-request packet, one [swap.paid] and the
    swap-complete packet, in this order. *)
Theorem taker_happy_path sha256 now1 now2 now3 now4 preimage peer maker taker body
    resolveRequest answer s :
  maker_pairId maker = "LTC/BTC" →
  taker_pairId taker = "LTC/BTC" →
  isConnected (lndBtcClient s) = true →
  isConnected (lndLtcClient s) = true →
  truthy_str (getLndPubKey peer "LTC") = true →
  truthy_str (getLndPubKey peer "BTC") = true →
  let h := toString_hex (sha256 preimage) in
  let r := length (heap s) in
  resp_r_hash body = h →
  getHash resolveRequest = h →
  lt (getAmount resolveRequest)
    ((calculateSwapAmounts (taker_quantity taker) (maker_price maker)).1 * 1000)%float = false →
  lt (getTimeout resolveRequest - getHeightNow resolveRequest)%float
    (cltvDelta (if taker_isBuy taker then lndLtcClient s else lndBtcClient s)) = false →
  getPaymentError answer = "" →
  let e1 := executeSwap sha256 now1 preimage peer maker taker s in
  let e2 := handleSwapResponse now2 body peer e1.2 in
  let e3 := resolveHash now3 resolveRequest e2.2 in
  let e4 := with_deal r (handleSwapResponse_onSent now4 body peer (Resolved answer)) e3.2 in
  e1.1 = Ok (Some h)
  ∧ (∃ request,
       e2.1 = Ok (Await (sendPaymentSync (if taker_isBuy taker then BTC else LTC) request))
       ∧ getAmt request = (calculateSwapAmounts (taker_quantity taker) (maker_price maker)).2
       ∧ getPaymentHashString request = h
       ∧ getFinalCltvDelta request = resp_makerCltvDelta body)
  ∧ e3.1 = Ok (Return (Some (toString_hex preimage)))
  ∧ e4.1 = Ok ()
  ∧ (∃ d, heap e4.2 !! r = Some d ∧ state d = Completed ∧ phase d = SwapCompleted)
  ∧ ∃ res,
      trace e4.2
      = trace s
        ++ [(r, sendPacket (nodePubKey peer)
                  (SwapRequestPacket
                     (beginSwap_body sha256 (lndBtcClient s) (lndLtcClient s) preimage maker
                        taker)));
            (r, emit_swap_paid res);
            (r, sendPacket (nodePubKey peer) (SwapCompletePacket h))].
Proof.
  intros Hmp Htp Hb Hl Hkl Hkb h r Hbody Hreq Hamount Htimeout Hanswer e1 e2 e3 e4.
  set (rbody := beginSwap_body sha256 (lndBtcClient s) (lndLtcClient s) preimage maker taker).
  set (d0 := beginSwap_deal now1 preimage peer maker taker rbody).
  set (d1 := set_phase SwapRequested d0).
  assert (rbody = _) as Hrbody by (subst rbody; by apply beginSwap_body_LTC_BTC).
  (* the swap is begun *)
  assert (e1 = _) as He1 by (subst e1; by apply executeSwap_sends).
  cbv zeta in He1. fold rbody d0 d1 h r in He1.
  set (s1 := e1.2). assert (s1 = _) as Hs1 by (subst s1; by rewrite He1).
  cbn [snd] in Hs1.
  assert (getDeal h s1 = Some r) as Hget1
    by (rewrite Hs1; unfold getDeal; cbn [deals]; by rewrite lookup_insert_eq).
  assert (heap s1 !! r = Some d1) as Hl1
    by (rewrite Hs1; cbn [heap]; by rewrite lookup_app_r, Nat.sub_diag).
  assert (trace s1 = trace s ++ [(r, sendPacket (nodePubKey peer) (SwapRequestPacket rbody))])
    as Ht1 by (by rewrite Hs1).
  (* the response arrives *)
  set (d2 := advance now2 AmountSent (record_response body d1)).
  assert (chain_of (makerCurrency d1) = Some (if taker_isBuy taker then BTC else LTC)) as Hc.
  { subst d1 d0. cbn [makerCurrency set_phase beginSwap_deal]. rewrite Hrbody.
    cbn [req_makerCurrency]. by destruct (taker_isBuy taker). }
  assert (e2 = (Ok (Await (sendPaymentSync (if taker_isBuy taker then BTC else LTC)
                             (payment_request peer (record_response body d1)))),
                update_deal r d2 [] s1)) as He2.
  { subst e2. fold s1. unfold handleSwapResponse. rewrite Hbody, Hget1.
    apply (with_deal_eq _ _ _ d1); [done|]. by apply handleSwapResponse_sync_pays. }
  set (s2 := e2.2). assert (s2 = update_deal r d2 [] s1) as Hs2 by (subst s2; by rewrite He2).
  pose proof (lookup_lt_Some _ _ _ Hl1) as Hlt1.
  assert (heap s2 !! r = Some d2) as Hl2 by (rewrite Hs2; by apply update_deal_lookup).
  assert (getDeal h s2 = Some r) as Hget2 by (by rewrite Hs2).
  (* the maker's HTLC is resolved *)
  assert (myRole d2 = Taker ∧ state d2 = Active ∧ phase d2 = AmountSent
          ∧ r_preimage d2 = Some (toString_hex preimage)) as (Hr2 & Hst2 & Hp2 & Hpre2).
  { subst d2 d1 d0. unfold record_response.
    destruct (resp_quantity body) as [q|]; [destruct (truthy q)|]; done. }
  assert (htlc_valid resolveRequest d2) as Hv2.
  { unfold htlc_valid, amount_too_small, timelock_too_small, expectedAmount_msat,
      requiredCltvDelta. rewrite Hr2.
    assert (takerAmount d2
            = (calculateSwapAmounts (taker_quantity taker) (maker_price maker)).1
            ∧ takerCltvDelta d2
              = cltvDelta (if taker_isBuy taker then lndLtcClient s else lndBtcClient s))
      as [-> ->].
    { subst d2 d1 d0. unfold record_response.
      destruct (resp_quantity body) as [q|]; [destruct (truthy q)|];
        cbn [takerAmount takerCltvDelta advance set_phase set_executeTime set_quantity
             set_makerCltvDelta beginSwap_deal]; by rewrite Hrbody. }
    by rewrite Hamount, Htimeout. }
  set (d3 := set_phase AmountReceived d2).
  assert (e3 = (Ok (Return (Some (toString_hex preimage))),
                update_deal r d3 [emit_swap_paid (swapResult_of d2)] s2)) as He3.
  { subst e3. fold s2. unfold resolveHash. rewrite Hreq, Hget2. rewrite <- Hpre2.
    apply (with_deal_eq _ _ _ d2); [done|]. by apply resolveHash_sync_taker_releases. }
  set (s3 := e3.2).
  assert (s3 = update_deal r d3 [emit_swap_paid (swapResult_of d2)] s2) as Hs3
    by (subst s3; by rewrite He3).
  assert (r < length (heap s2)) as Hlt2 by (by eapply lookup_lt_Some).
  assert (heap s3 !! r = Some d3) as Hl3 by (rewrite Hs3; by apply update_deal_lookup).
  (* the payment returns *)
  assert (e4 = (Ok (), update_deal r (advance now4 SwapCompleted d3)
                         [sendPacket (nodePubKey peer) (SwapCompletePacket h)] s3)) as He4.
  { subst e4. fold s3. rewrite <- Hbody. apply (with_deal_eq _ _ _ d3); [done|].
    by apply handleSwapResponse_onSent_completes. }
  rewrite He1, He2, He3, He4. cbn [fst snd].
  split_and!; [done| |done|done| |].
  - eexists. split; [done|]. subst d1 d0. unfold record_response, payment_request.
    destruct (resp_quantity body) as [q|]; [destruct (truthy q)|];
      cbn [getAmt getPaymentHashString getFinalCltvDelta makerAmount r_hash makerCltvDelta
           set_quantity set_makerCltvDelta set_phase beginSwap_deal];
      by rewrite Hrbody.
  - eexists. split; [apply update_deal_lookup; by eapply lookup_lt_Some|done].
  - exists (swapResult_of d2). rewrite Hs3, Hs2. cbn [trace update_deal set_trace set_heap].
    rewrite Ht1. cbn [fmap list_fmap]. by rewrite app_nil_r, <- !app_assoc.
Qed.

Lemma taker_happy_path_witness :
  (state <$> heap taker_completed !! 0) = Some Completed
  ∧ ∃ res, trace taker_completed
           = [(0, sendPacket "P"
                    (SwapRequestPacket
                       (beginSwap_body digest_stub btc0 ltc0 preimage0 maker_order taker_order)));
              (0, emit_swap_paid res);
              (0, sendPacket "P" (SwapCompletePacket hash0))].
Proof.
  destruct (taker_happy_path digest_stub 1000 1001 1002 1003 preimage0 peerP maker_order
              taker_order response0 htlc0 wrong_preimage (new_Swaps btc0 ltc0)
              eq_refl eq_refl eq_refl eq_refl eq_refl eq_refl eq_refl eq_refl)
    as (_ & _ & _ & _ & (d & Hl & Hs & _) & res & Ht).
  - vm_compute. reflexivity.
  - vm_compute. reflexivity.
  - reflexivity.
  - split.
    + change (heap taker_completed !! 0 = Some d) in Hl. by rewrite Hl, <- Hs.
    + exists res. exact Ht.
Defined.







(** ** The registry's operations *)

(** X27: for a deal object [r] with r_hash [h]: after [addDeal] the
    registry returns [r] for [h]; after [removeDeal] it returns nothing for
    [h], also when the entry for [h] was another deal object; both leave every
    other r_hash, the deal objects and the log alone, and removing twice is
    removing once. *)
Theorem registry_laws r s d :
  heap s !! r = Some d →
  getDeal (r_hash d) (addDeal r s) = Some r
  ∧ getDeal (r_hash d) (removeDeal r s) = None
  ∧ (∀ h, h ≠ r_hash d →
          getDeal h (addDeal r s) = getDeal h s ∧ getDeal h (removeDeal r s) = getDeal h s)
  ∧ heap (addDeal r s) = heap s ∧ trace (addDeal r s) = trace s
  ∧ heap (removeDeal r s) = heap s ∧ trace (removeDeal r s) = trace s
  ∧ removeDeal r (removeDeal r s) = removeDeal r s
  ∧ getDeal (r_hash d) (removeDeal r (addDeal r s)) = None.
Proof.
  intros Hl. unfold addDeal, removeDeal, getDeal. rewrite Hl. cbn [heap deals set_deals].
  rewrite Hl. cbn [deals set_deals].
  split_and!; try done.
  - by rewrite lookup_insert_eq.
  - by rewrite lookup_delete_eq.
  - intros h Hne. by rewrite lookup_insert_ne, lookup_delete_ne.
  - unfold set_deals. cbn. by rewrite delete_delete_eq.
  - by rewrite lookup_delete_eq.
Qed.

Lemma registry_laws_witness :
  getDeal "ab" maker2 = Some 1 ∧ getDeal "ab" (removeDeal 0 maker2) = None.
Proof.
  assert (∃ d, heap maker2 !! 0 = Some d ∧ r_hash d = "ab") as (d & Hl & Hh)
    by (eexists; split; vm_compute; reflexivity).
  destruct (registry_laws 0 maker2 d Hl) as (_ & Hrem & _).
  rewrite Hh in Hrem. split; [vm_compute; reflexivity|exact Hrem].
Defined.

(** ** Comparisons with an undefined delta *)

Lemma ltb_nan_r (x : number) : PrimFloat.ltb x PrimFloat.nan = false.
Proof.
  rewrite ltb_spec. change (Prim2SF PrimFloat.nan) with S754_nan.
  unfold SFltb, SFcompare. destruct (Prim2SF x); reflexivity.
Qed.

(** X28: for a deal of role [Maker] whose [makerCltvDelta] is still
    undefined, the time lock check of [validateRequest] cannot fail, whatever
    the timeout and the height of the HTLC are: the comparison with an
    undefined delta is false, and the amount check alone decides. *)
Theorem undefined_delta_passes_timelock_check resolveRequest d :
  myRole d = Maker →
  makerCltvDelta d = None →
  timelock_too_small resolveRequest d = false
  ∧ (amount_too_small resolveRequest d = false →
     validateRequest resolveRequest d = (Ok true, d, [])).
Proof.
  intros Hr Hd.
  assert (timelock_too_small resolveRequest d = false) as Ht.
  { unfold timelock_too_small, requiredCltvDelta, lt. rewrite Hr, Hd. apply ltb_nan_r. }
  split; [done|]. intros Ha. apply validateRequest_valid. by rewrite Ha, Ht.
Qed.

Lemma undefined_delta_passes_timelock_check_witness :
  validateRequest {| getHash := "ab"; getAmount := 5000; getTimeout := 500; getHeightNow := 500 |}
    (acceptDeal_deal 2000 order0 (request_body request0) peerP)
  = (Ok true, acceptDeal_deal 2000 order0 (request_body request0) peerP, []).
Proof.
  apply (undefined_delta_passes_timelock_check
           {| getHash := "ab"; getAmount := 5000; getTimeout := 500; getHeightNow := 500 |}
           (acceptDeal_deal 2000 order0 (request_body request0) peerP) eq_refl eq_refl).
  vm_compute. reflexivity.
Defined.
